(* ===== verification/_CoqProject ===== *)
-Q . S2P
Prelude.v
JsString.v
Values.v
DomScript.v
TitleSlug.v
Jenkins.v
StackTrace.v
Path.v
Fs.v
World.v
Bridge.v
Capture.v
Hooks.v
EventLoop.v
Invariants.v
Runs.v
HookRuns.v
