(* ===== verification/Prelude.v ===== *)
(** * nemo-screenshot: a verification development

    The program ([src/index.js], 377 lines of JavaScript) is a plugin of the
    nemo browser-automation harness.  [setup] (lines 109-377) attaches to a
    WebDriver-style driver the object [nemo.screenshot] with the operations
    [snap], [source], [done] and [setCurrentTestTitle], and installs two
    optional hooks: a wrapper around the [click] of every element and a
    listener of the uncaught exceptions of the driver's command queue.  Four
    module-level functions carry the pure logic: the promise shim [p],
    [titleSlug], [appendImageUrlToStackTrace] and [formatJenkinsImageUrls].
    [source] also sends the browser a script (lines 214-270) that walks the
    document of the page under test.

    The development is a shallow embedding: every function of the source is
    a definition with the source's name, effectful functions are computations
    of a state-and-exception monad over an explicit world, and every function
    expression the source passes to [then], [catch] or [fs.writeFile] is a
    definition of its own, run by a model of the event loop.

    ** Files, in the order of dependency

    - [Prelude] (this file): the monad [St] with its notation (scope
      [st_scope]), the notion of an [extensive] computation for a preorder on
      states with the tactic [ext], the tactics and hint databases of the
      development, and list lemmas the components share.
    - [JsString]: JavaScript strings as lists of UTF-16 code units, with the
      built-ins the source calls ([trim], [replace(/\W/g, '_')], [substring],
      [substr], [+] with the coercion of [undefined], truthiness, the string
      quoting of [JSON.stringify]).
    - [Values]: the values the program handles ([imageObj], [sourceObj],
      error objects in a heap addressed by reference), [JSON.stringify] on
      them, the console.
    - [DomScript]: the script of lines 214-270: [getOffset],
      [walkTheDOMGetInvisiNodes], [processAllTextNodes],
      [getInvisiNodeCoordinates] and the statements that call them ([script]),
      on a store of DOM nodes with the pointers and the geometry the script
      reads.  Theorems: the walk visits the nodes of the forest below the body
      in preorder and equals a fold over the preorder list
      ([walk_visits_preorder]); the indexed loop over the array equals a map
      ([getInvisiNodeCoordinates_map]); [getOffset] sums over the chain of
      offset parents ([getOffset_chain]); walk, [getOffset] and the whole
      script end ([walk_terminates], [getOffset_terminates],
      [script_terminates]); without the page's global [fpti] the script always
      throws ([script_needs_fpti]).
    - [TitleSlug]: [titleSlug] (lines 37-43).  Theorems: length at most 251,
      only word characters, the value of each unit, idempotence, the example
      of the specification, blank titles and collisions.
    - [Jenkins]: [formatJenkinsImageUrls] (lines 66-99) with its console
      output, and the URL scheme [jenkins_spec] it refines.
    - [StackTrace]: [appendImageUrlToStackTrace] (lines 45-64): the text
      appended for every kind of capture ([appendImageUrl_spec]), the update
      of [err.stack] in place, the [TypeError] of line 48 on [undefined] and
      [null] (no caller in the program passes either).
    - [Path]: the functions of Node's [path] module the source calls, POSIX
      flavour, behind the interface [PathOps] with the laws [PathLaws] that
      the file system and the capture service rely on; [posix_path] is the
      instance and [posix_path_laws] discharges the laws.
    - [Fs]: a file system (nodes by path, denied paths), [fs.mkdirSync],
      [mkdirp.sync] with a bounded stack, the write of [fs.writeFile], the
      well-formedness [fs_wf] and the directories that can be made
      ([makeable]).  Lemmas: what a successful [mkdirp.sync] leaves, that it
      succeeds on a directory that can be made, that it touches nothing
      below the directory, that a write keeps the file system well formed.
    - [World]: the state everything acts on ([World]: promise table, the
      driver's command queue, outstanding writes, queued reactions, file
      system, heap, console, trace of calls to the embedding test, plugin
      state) and the operations of the host the source calls (promises,
      [then], the driver's commands, [getSession], [mkdirp], [fs_writeFile]);
      the tactics that execute the model on a world given by its fields.
      Theorems on the call of [mkdirp.sync] at lines 161 and 293:
      [mkdirp_ensures], [mkdirp_idempotent], [mkdirp_terminates],
      [mkdirp_succeeds].
    - [Bridge]: [p] (lines 21-35) and the contract [awaitable_spec]; [p]
      refines it with either promise library ([p_refines_awaitable]).
    - [Capture]: [snap] (145-190), [source] (202-311), [done] (313-321),
      [setCurrentTestTitle] (323-325) and their callbacks.  Theorems on the
      calls themselves: the session guard, the commands issued and their
      order, the place of the file ([capture_file_in_directory]).
    - [Hooks]: the wrapped [click] (331-339), the listener of uncaught
      exceptions (343-373) with its callbacks, [emit] with a bounded call
      stack, [setup] with its arities (109-131, 328-376).  Theorems: what the
      listener does on its first pass, the overflow of a second emission
      ([reemit_overflows]), what [setup] installs.
    - [EventLoop]: the code of each function value ([apply_ok], [apply_err],
      [apply_cb]), one step of the loop ([step]: a reaction, the driver's next
      answer, a completed write, the passing of time, an uncaught exception),
      schedules ([run]), the loop's own schedule ([run_loop]) and the worlds
      it can reach ([reach]).
    - [Invariants]: histories ([history]: calls of the plugin's interface
      and steps of the loop in any order) and two preorders of what no
      history undoes: [world_le] on promises, heap, console and trace, and
      [writes_le] on the files.  The interface [HostOrder] says what an
      order must grant of the operations of the host; the code of the plugin
      is proved extensive once, for every order with that interface, and
      both preorders are instances.  Theorems on all histories: the files
      that appear or change are captures, written where [snap] and [source]
      put them and with their encoding, and no node is removed
      ([writes_are_captures]); error objects keep their reference, name and
      message, and their stack only grows at the end
      ([errors_keep_identity]); promises stay in the table
      ([promises_persist]); console and trace only grow
      ([output_only_grows]).
    - [Runs]: what [snap], [source] and [done] lead to once the loop has
      run: the file written, the state of the promise, the calls of the
      completion callback, on every branch (success, failure of the driver, of
      the write, of [mkdirp.sync]); [snap_succeeds] gives the success of
      [snap] from conditions on the file system before the call alone;
      [snap_same_name_race] follows two overlapping captures of one name
      through both orders in which their writes can complete; [source] on a
      page given by its DOM ([source_records_marked_nodes],
      [source_page_without_fpti]).
    - [HookRuns]: the same for a click through the hook (the order of the
      commands it issues, with and without the [source] option, and on a
      prototype wrapped twice) and for an uncaught exception, with and
      without a session.

    ** Conventions

    A value that is a string or [undefined] in the source is an
    [option jsstring]; the conditions of the source ([if (x)], [!x], [a || b])
    are the boolean function [truthy] of [JsString].  A JavaScript function
    with side effects is a computation of the monad [St W E A]: a function
    from a state [W] to an [outcome] (a returned value or a thrown exception)
    and the state afterwards; the state survives a throw, as the effects of a
    JavaScript function do.  Literals of the source are written [str "..."].
    A promise is its index in the table of the world; a function value is
    the constructor of [on_fulfilled], [on_rejected] or [on_written] that
    names its code and holds the variables it captured.  An error passed to
    a callback or to [appendImageUrlToStackTrace] is a reference into the
    heap or nothing: [null] and [undefined] are both [None] there, and no
    other primitive is passed in their place.

    ** Bounds and fuel

    - The call stack has [c_stack] frames: [emit] and [mkdirp.sync] take the
      depth left as an argument and throw a [RangeError] when it is used up.
      [reemit_overflows] holds for every depth; [mkdirp_terminates] shows a
      stack as deep as the path is long is enough for [mkdirp.sync].
    - The loops of the script take fuel and return [None] without it;
      [script_terminates] shows fuel equal to the number of nodes is enough
      on a store numbered in document order, and [walk_visits_preorder] that
      the size of the forest is enough on a store that represents one.
    - [run_loop] takes the number of steps; [settles_in n] says the world is
      at rest after [n] steps and stays as it is for every larger number.
    - The slug is cut at 251 code units ([slug_max]), as line 42 does.

    ** Not modelled

    - The bits of the image: a screenshot is the text the driver returned,
      written with the encoding [Base64]; decoding is the file system's.
    - Numbers that are not whole: the geometry of the DOM is in whole pixels,
      and [JSON.stringify] is defined on the numbers that occur.
    - The page's global [fpti] beyond its JSON text, and the other content of
      the page: the script reads nothing else.
    - The driver itself: its answers are a function of the configuration
      ([c_reply]); the control flow of selenium-webdriver is the FIFO queue
      [w_flow], without its frames and sub-flows.  That the queue reports a
      rejection nobody handles as an uncaught exception is the step
      [Uncaught] of the loop, which may happen at any time with any error.
    - Windows paths: the instance of [PathOps] is the POSIX flavour; the
      theorems stated for [PathLaws] hold for any flavour with its laws.
    - The libraries the source only calls ([mkdirp], [fs], the two promise
      libraries, selenium-webdriver) are modelled from their documented
      behaviour, at the statement of the source that calls them; the
      theorems on [mkdirp] are about line 161 under that model. *)

From Stdlib Require Export NArith ZArith Ascii String List Lia ZifyBool.
From stdpp Require Export base tactics option list numbers.

(** ** Outcomes and the state-and-exception monad *)

Inductive outcome (E A : Type) : Type :=
| Ret (a : A)
| Throw (e : E).
Arguments Ret {E A} a.
Arguments Throw {E A} e.

Definition St (W E A : Type) : Type := W -> outcome E A * W.

Definition st_ret {W E A} (a : A) : St W E A := fun s => (Ret a, s).

Definition st_bind {W E A B} (c : St W E A) (f : A -> St W E B) : St W E B :=
  fun s =>
    match c s with
    | (Ret a, s') => f a s'
    | (Throw e, s') => (Throw e, s')
    end.

Definition st_throw {W E A} (e : E) : St W E A := fun s => (Throw e, s).

Definition st_get {W E} : St W E W := fun s => (Ret s, s).

Definition st_gets {W E A} (f : W -> A) : St W E A := fun s => (Ret (f s), s).

Definition st_modify {W E} (f : W -> W) : St W E unit := fun s => (Ret tt, f s).

(** [try { c } catch (e) { h e }] *)
Definition st_catch {W E A} (c : St W E A) (h : E -> St W E A) : St W E A :=
  fun s =>
    match c s with
    | (Ret a, s') => (Ret a, s')
    | (Throw e, s') => h e s'
    end.

Definition st_when {W E} (b : bool) (c : St W E unit) : St W E unit :=
  if b then c else st_ret tt.

(** Run a computation on a part [V] of the state [W]. *)
Definition st_zoom {W V E A} (get : W -> V) (set : V -> W -> W) (c : St V E A) : St W E A :=
  fun w => let (o, v') := c (get w) in (o, set v' w).

Definition is_ret {E A} (o : outcome E A) : bool :=
  match o with Ret _ => true | Throw _ => false end.

Declare Scope st_scope.
Delimit Scope st_scope with st.
Bind Scope st_scope with St.
Notation "x <- c ;; k" := (st_bind c (fun x => k))
  (at level 100, c at next level, k at level 200, right associativity) : st_scope.
Notation "c ;; k" := (st_bind c (fun _ => k))
  (at level 100, k at level 200, right associativity) : st_scope.

(** ** List functions shared by the components *)

Section ListFunctions.
Context {A : Type} (f : A -> bool).

Fixpoint drop_while (l : list A) : list A :=
  match l with
  | [] => []
  | x :: l' => if f x then drop_while l' else l
  end.

(** Strip the elements satisfying [f] from both ends. *)
Definition trim_by (l : list A) : list A :=
  reverse (drop_while (reverse (drop_while l))).

End ListFunctions.

(** ** Tactics and hint databases *)

Create HintDb nemo discriminated.
Create Rewrite HintDb nemo_rw.
Create Rewrite HintDb world_rw.
Create HintDb world_unfold discriminated.

(** Destruct the scrutinee of the first [match] or [if] of the goal. *)
Ltac case_goal :=
  match goal with
  | |- context [match ?x with _ => _ end] => destruct x eqn:?
  end.

(** Unfold the monad's operations and compute. *)
Ltac st_unfold :=
  unfold st_bind, st_ret, st_throw, st_get, st_gets, st_modify, st_catch, st_when,
    st_zoom in *.

Ltac st_simpl := st_unfold; cbn.

(** The same without unfolding anything else: only the redexes and matches
    the monad's operations leave are reduced. *)
Ltac st_run := st_unfold; cbn [negb andb orb fst snd].

(** Turn boolean tests on [N] into propositions. *)
Ltac n_bool :=
  repeat match goal with
  | H : (_ <=? _)%N = true |- _ => apply N.leb_le in H
  | H : (_ <=? _)%N = false |- _ => apply N.leb_gt in H
  | H : (_ <? _)%N = true |- _ => apply N.ltb_lt in H
  | H : (_ <? _)%N = false |- _ => apply N.ltb_ge in H
  | H : (_ =? _)%N = true |- _ => apply N.eqb_eq in H
  | H : (_ =? _)%N = false |- _ => apply N.eqb_neq in H
  | H : _ && _ = true |- _ => apply andb_true_iff in H; destruct H
  | H : _ || _ = false |- _ => apply orb_false_iff in H; destruct H
  end.

(** ** Lemmas on the monad *)

Section MonadLaws.
Context {W E : Type}.

Lemma st_bind_ret_l {A B} (a : A) (f : A -> St W E B) s :
  st_bind (st_ret a) f s = f a s.
Proof. reflexivity. Qed.

Lemma st_bind_ret_r {A} (c : St W E A) s : st_bind c st_ret s = c s.
Proof. unfold st_bind, st_ret. by destruct (c s) as [[]]. Qed.

Lemma st_bind_assoc {A B C} (c : St W E A) (f : A -> St W E B) (g : B -> St W E C) s :
  st_bind (st_bind c f) g s = st_bind c (fun a => st_bind (f a) g) s.
Proof. unfold st_bind. by destruct (c s) as [[]]. Qed.

Lemma st_bind_throw {A B} (e : E) (f : A -> St W E B) s :
  st_bind (st_throw e) f s = (Throw e, s).
Proof. reflexivity. Qed.

Lemma st_bind_Ret_inv {A B} (c : St W E A) (f : A -> St W E B) s b s' :
  st_bind c f s = (Ret b, s') ->
  exists a s1, c s = (Ret a, s1) /\ f a s1 = (Ret b, s').
Proof.
  unfold st_bind. destruct (c s) as [[a|e] s1]; [eauto | discriminate].
Qed.

End MonadLaws.

(** ** Computations that move the state forward

    For a preorder [R] on states, a computation is [extensive] when the state
    it leaves is always above the state it started from, whether it returns
    or throws.  The operations of the monad preserve this, so a function
    written with them is extensive as soon as the operations it calls are. *)

Section Extensive.
Context {W E : Type} (R : relation W) `{!PreOrder R}.

Definition extensive {A} (c : St W E A) : Prop := forall s, R s (c s).2.

Lemma extensive_ret {A} (a : A) : extensive (st_ret a).
Proof. intros s. reflexivity. Qed.

Lemma extensive_throw {A} (e : E) : extensive (st_throw (A:=A) e).
Proof. intros s. reflexivity. Qed.

Lemma extensive_get : extensive st_get.
Proof. intros s. reflexivity. Qed.

Lemma extensive_gets {A} (f : W -> A) : extensive (st_gets f).
Proof. intros s. reflexivity. Qed.

Lemma extensive_modify (f : W -> W) : (forall s, R s (f s)) -> extensive (st_modify f).
Proof. intros Hf s. apply Hf. Qed.

Lemma extensive_bind {A B} (c : St W E A) (f : A -> St W E B) :
  extensive c -> (forall a, extensive (f a)) -> extensive (st_bind c f).
Proof.
  intros Hc Hf s. unfold st_bind. specialize (Hc s).
  destruct (c s) as [[a|e] s1]; [| done]. by etrans; [| apply Hf].
Qed.

Lemma extensive_catch {A} (c : St W E A) (h : E -> St W E A) :
  extensive c -> (forall e, extensive (h e)) -> extensive (st_catch c h).
Proof.
  intros Hc Hh s. unfold st_catch. specialize (Hc s).
  destruct (c s) as [[a|e] s1]; [done |]. by etrans; [| apply Hh].
Qed.

Lemma extensive_when (b : bool) (c : St W E unit) : extensive c -> extensive (st_when b c).
Proof. intros Hc. destruct b; [done |]. intros s. reflexivity. Qed.

End Extensive.

Create HintDb extensive discriminated.

(** One step of a proof that a composition is extensive: an operation of
    the monad, a case distinction of the code, or a lemma of the database. *)
Ltac ext_step :=
  lazymatch goal with
  | |- extensive _ (st_bind _ _) => apply extensive_bind; [exact _ | | intros ?]
  | |- extensive _ (st_ret _) => apply extensive_ret; exact _
  | |- extensive _ (st_throw _) => apply extensive_throw; exact _
  | |- extensive _ st_get => apply extensive_get; exact _
  | |- extensive _ (st_gets _) => apply extensive_gets; exact _
  | |- extensive _ (st_catch _ _) => apply extensive_catch; [exact _ | | intros ?]
  | |- extensive _ (st_when _ _) => apply extensive_when; [exact _ |]
  | |- extensive _ (if ?b then _ else _) => destruct b
  | |- extensive _ (match ?x with _ => _ end) => destruct x
  | |- _ => solve [eauto with extensive]
  end.

Ltac ext := cbv zeta; repeat ext_step.

(** ** Lemmas on [drop_while] and [trim_by] *)

Section ListLemmas.
Context {A : Type} (f : A -> bool).

Lemma Forall_weaken (P Q : A -> Prop) l :
  (forall x, P x -> Q x) -> Forall P l -> Forall Q l.
Proof. intros HPQ. induction 1; constructor; auto. Qed.

Lemma list_alter_lookup (g : A -> A) (l : list A) (i : nat) x :
  l !! i = Some x -> alter g i l = <[i := g x]> l.
Proof.
  intros Hi. rewrite list_insert_alter. apply list_alter_ext; [| done].
  intros y Hy. congruence.
Qed.

Lemma drop_while_suffix l : exists k, l = k ++ drop_while f l /\ Forall (fun x => f x = true) k.
Proof.
  induction l as [|x l [k [Hk Hf]]]; [by exists [] |].
  simpl. destruct (f x) eqn:Hx.
  - exists (x :: k). split; [by rewrite Hk at 1 | by constructor].
  - by exists [].
Qed.

Lemma drop_while_length l : length (drop_while f l) <= length l.
Proof.
  destruct (drop_while_suffix l) as [k [Hk _]].
  rewrite Hk at 2. rewrite length_app. lia.
Qed.

Lemma drop_while_head l x l' : drop_while f l = x :: l' -> f x = false.
Proof.
  induction l as [|y l IH]; [done |].
  simpl. destruct (f y) eqn:Hy; [done |]. by intros [= <- _].
Qed.

Lemma drop_while_id l : head (f <$> l) ≠ Some true -> drop_while f l = l.
Proof. destruct l as [|x l]; [done |]. simpl. by destruct (f x). Qed.

Lemma drop_while_idemp l : drop_while f (drop_while f l) = drop_while f l.
Proof.
  destruct (drop_while f l) as [|x l'] eqn:Hd; [done |].
  simpl. by rewrite (drop_while_head _ _ _ Hd).
Qed.

Lemma drop_while_Forall (P : A -> Prop) l : Forall P l -> Forall P (drop_while f l).
Proof.
  intros H. destruct (drop_while_suffix l) as [k [Hk _]].
  rewrite Hk in H. by apply Forall_app in H as [_ ?].
Qed.

Lemma drop_while_none l : Forall (fun x => f x = false) l -> drop_while f l = l.
Proof. destruct 1 as [|x l Hx _]; [done |]. simpl. by rewrite Hx. Qed.

Lemma drop_while_all l : Forall (fun x => f x = true) l -> drop_while f l = [].
Proof. induction 1 as [|x l Hx _ IH]; [done |]. simpl. by rewrite Hx. Qed.

Lemma drop_while_app_all k l :
  Forall (fun x => f x = true) k -> drop_while f (k ++ l) = drop_while f l.
Proof. induction 1 as [|x k Hx _ IH]; [done |]. simpl. by rewrite Hx. Qed.

Lemma trim_by_all l : Forall (fun x => f x = true) l -> trim_by f l = [].
Proof. intros H. unfold trim_by. by rewrite (drop_while_all l H). Qed.

Lemma drop_while_app_false l x k :
  f x = false -> drop_while f (l ++ x :: k) = drop_while f l ++ x :: k \/
                 (drop_while f l = [] /\ drop_while f (l ++ x :: k) = x :: k).
Proof.
  intros Hx. induction l as [|y l IH]; simpl.
  - rewrite Hx. by left.
  - destruct (f y); [exact IH | by left].
Qed.

Lemma trim_by_length l : length (trim_by f l) <= length l.
Proof.
  unfold trim_by. rewrite length_reverse.
  etrans; [apply drop_while_length |]. rewrite length_reverse.
  apply drop_while_length.
Qed.

Lemma trim_by_Forall (P : A -> Prop) l : Forall P l -> Forall P (trim_by f l).
Proof.
  intros H. unfold trim_by.
  by apply Forall_reverse, drop_while_Forall, Forall_reverse, drop_while_Forall.
Qed.

Lemma trim_by_none l : Forall (fun x => f x = false) l -> trim_by f l = l.
Proof.
  intros H. unfold trim_by. rewrite (drop_while_none l H).
  rewrite drop_while_none by by apply Forall_reverse.
  apply reverse_involutive.
Qed.

(** Lookup and update at an index counted from the end of a prefix: tables
    that only grow are addressed this way. *)
Lemma lookup_app_at (l1 l2 : list A) n k :
  length l1 = n -> (l1 ++ l2) !! (n + k) = l2 !! k.
Proof. intros <-. rewrite lookup_app_r by lia. f_equal. lia. Qed.

Lemma lookup_app_at0 (l1 l2 : list A) n : length l1 = n -> (l1 ++ l2) !! n = l2 !! 0.
Proof. intros Hn. rewrite <- (lookup_app_at l1 l2 n 0 Hn). f_equal. lia. Qed.

Lemma insert_app_at (l1 l2 : list A) n k x :
  length l1 = n -> <[n + k := x]> (l1 ++ l2) = l1 ++ <[k := x]> l2.
Proof. intros <-. apply insert_app_r. Qed.

Lemma insert_app_at0 (l1 l2 : list A) n x :
  length l1 = n -> <[n := x]> (l1 ++ l2) = l1 ++ <[0 := x]> l2.
Proof. intros Hn. rewrite <- (insert_app_at l1 l2 n 0 x Hn). f_equal. lia. Qed.

Lemma alter_app_at (l1 l2 : list A) n k g :
  length l1 = n -> alter g (n + k) (l1 ++ l2) = l1 ++ alter g k l2.
Proof. intros <-. apply alter_app_r. Qed.

Lemma alter_app_at0 (l1 l2 : list A) n g :
  length l1 = n -> alter g n (l1 ++ l2) = l1 ++ alter g 0 l2.
Proof. intros Hn. rewrite <- (alter_app_at l1 l2 n 0 g Hn). f_equal. lia. Qed.

(** The same at an index of the prefix. *)
Lemma lookup_app_insert_old (l1 l2 : list A) i x y :
  l1 !! i = Some y -> (<[i := x]> l1 ++ l2) !! i = Some x.
Proof.
  intros Hi%lookup_lt_Some. rewrite lookup_app_l by by rewrite length_insert.
  by apply list_lookup_insert_eq.
Qed.

Lemma lookup_app_alter_old (l1 l2 : list A) i g y :
  l1 !! i = Some y -> (alter g i l1 ++ l2) !! i = Some (g y).
Proof.
  intros Hi. rewrite lookup_app_l by (rewrite length_alter; by eapply lookup_lt_Some).
  by rewrite list_lookup_alter_eq, Hi.
Qed.

Lemma insert_app_old (l1 l2 : list A) i x y :
  l1 !! i = Some y -> <[i := x]> (l1 ++ l2) = <[i := x]> l1 ++ l2.
Proof. intros Hi%lookup_lt_Some. by apply insert_app_l. Qed.

Lemma alter_app_old (l1 l2 : list A) i g y :
  l1 !! i = Some y -> alter g i (l1 ++ l2) = alter g i l1 ++ l2.
Proof. intros Hi%lookup_lt_Some. by apply alter_app_l. Qed.

Lemma insert_alter_app_old (l1 l2 : list A) i g x y :
  l1 !! i = Some y -> <[i := x]> (alter g i l1 ++ l2) = <[i := x]> l1 ++ l2.
Proof.
  intros Hi%lookup_lt_Some. rewrite insert_app_l by by rewrite length_alter.
  f_equal. apply list_eq. intros j. destruct (decide (i = j)) as [<-|Hne].
  - rewrite !list_lookup_insert_eq; rewrite ?length_alter; done.
  - by rewrite !list_lookup_insert_ne, list_lookup_alter_ne.
Qed.

End ListLemmas.

#[export] Hint Resolve drop_while_length trim_by_length : nemo.
#[export] Hint Resolve drop_while_Forall trim_by_Forall : nemo.
#[export] Hint Rewrite @st_bind_ret_l @st_bind_throw : nemo_rw.
