(* ===== verification/JsString.v ===== *)
(** * JavaScript strings and the string built-ins the source calls

    A JavaScript string is a sequence of UTF-16 code units.  It is modelled as
    a [list N] ([jsstring]) whose elements are below 65536 ([wf_str]).  The
    functions below are the built-ins [src/index.js] applies to strings, each
    with the behaviour ECMAScript gives it on the arguments the source passes:
    [trim] (line 42), [replace(/\W/g, '_')] (line 42), [substring] (line 42),
    [substr] (line 79), [+] on a string and a possibly undefined value (lines
    51, 55, 62, 81, 88), the truthiness test of [if] and [||] (lines 38, 48,
    73, 80, 87, 91), the decimal form of a number inside a concatenation
    (lines 332, 351) and the string quoting of [JSON.stringify] (line 58). *)

From Stdlib Require Import DecimalString.
From S2P Require Import Prelude.

#[local] Open Scope N_scope.

Abbreviation jsstring := (list N) (only parsing).

(** A code unit is a 16-bit value. *)
Definition wf_unit (c : N) : Prop := c < 65536.

Definition wf_str (s : jsstring) : Prop := Forall wf_unit s.

(** The code units of a literal of the source (ASCII text). *)
Definition str (s : string) : jsstring :=
  N_of_ascii <$> list_ascii_of_string s.

(** ** Tests on code units *)

(** ECMAScript [WhiteSpace] and [LineTerminator]: what [trim] strips. *)
Definition is_space (c : N) : bool :=
  (c =? 9) || (c =? 10) || (c =? 11) || (c =? 12) || (c =? 13) || (c =? 32)
  || (c =? 160) || (c =? 5760) || ((8192 <=? c) && (c <=? 8202))
  || (c =? 8232) || (c =? 8233) || (c =? 8239) || (c =? 8287)
  || (c =? 12288) || (c =? 65279).

(** The class [\w] of a regular expression without the [u] and [i] flags. *)
Definition is_word (c : N) : bool :=
  ((48 <=? c) && (c <=? 57)) || ((65 <=? c) && (c <=? 90)) || (c =? 95)
  || ((97 <=? c) && (c <=? 122)).

Definition is_high_surrogate (c : N) : bool := (55296 <=? c) && (c <=? 56319).

Definition is_low_surrogate (c : N) : bool := (56320 <=? c) && (c <=? 57343).

(** ** Built-ins *)

(** [s.trim()] *)
Definition js_trim (s : jsstring) : jsstring := trim_by is_space s.

(** [s.replace(/\W/g, '_')]: the pattern matches one code unit at a time, so
    every unit outside [\w] becomes one underscore. *)
Definition replace_nonword (s : jsstring) : jsstring :=
  (fun c => if is_word c then c else 95) <$> s.

(** [s.substring(a, b)] on integer arguments: both are clamped to
    [0 .. length s] and swapped when [a > b]. *)
Definition js_substring (s : jsstring) (a b : Z) : jsstring :=
  let len := Z.of_nat (length s) in
  let a' := Z.min (Z.max a 0) len in
  let b' := Z.min (Z.max b 0) len in
  let from := Z.to_nat (Z.min a' b') in
  let to := Z.to_nat (Z.max a' b') in
  take (to - from)%nat (drop from s).

(** [s.substr(start)] with no length: a negative [start] counts from the end. *)
Definition js_substr (s : jsstring) (start : Z) : jsstring :=
  let len := Z.of_nat (length s) in
  let start' := if (start <? 0)%Z then Z.max (len + start) 0 else start in
  drop (Z.to_nat start') s.

(** [s.length], as the integer the source passes on to [substr]. *)
Definition js_length (s : jsstring) : Z := Z.of_nat (length s).

(** The string a possibly undefined value contributes to a concatenation. *)
Definition to_str (v : option jsstring) : jsstring :=
  match v with
  | Some s => s
  | None => str "undefined"
  end.

(** The truthiness of a value that is a string or [undefined]. *)
Definition truthy (v : option jsstring) : bool :=
  match v with
  | Some (_ :: _) => true
  | _ => false
  end.

(** The decimal form of a non-negative integer, as [+] coerces a number. *)
Definition str_of_N (n : N) : jsstring :=
  str (NilEmpty.string_of_uint (N.to_uint n)).

(** ** [JSON.stringify] on strings *)

Definition hex_digit (d : N) : N :=
  if d <? 10 then 48 + d else 87 + d.

(** [\uXXXX] with lowercase hexadecimal digits. *)
Definition unicode_escape (c : N) : jsstring :=
  [92; 117; hex_digit (N.land (N.shiftr c 12) 15); hex_digit (N.land (N.shiftr c 8) 15);
   hex_digit (N.land (N.shiftr c 4) 15); hex_digit (N.land c 15)].

(** One code unit that is not a surrogate. *)
Definition json_escape_unit (c : N) : jsstring :=
  if c =? 8 then [92; 98]
  else if c =? 9 then [92; 116]
  else if c =? 10 then [92; 110]
  else if c =? 12 then [92; 102]
  else if c =? 13 then [92; 114]
  else if c =? 34 then [92; 34]
  else if c =? 92 then [92; 92]
  else if c <? 32 then unicode_escape c
  else [c].

(** A surrogate pair is copied; a lone surrogate is escaped. *)
Fixpoint json_escape (s : jsstring) : jsstring :=
  match s with
  | [] => []
  | c :: s' =>
    if is_high_surrogate c then
      match s' with
      | d :: s'' =>
        if is_low_surrogate d then c :: d :: json_escape s''
        else unicode_escape c ++ json_escape s'
      | [] => unicode_escape c
      end
    else if is_low_surrogate c then unicode_escape c ++ json_escape s'
    else json_escape_unit c ++ json_escape s'
  end.

(** [JSON.stringify(s)] for a string [s]. *)
Definition json_quote (s : jsstring) : jsstring :=
  [34] ++ json_escape s ++ [34].

(** ** Well-formedness *)

Lemma wf_str_app s t : wf_str (s ++ t) <-> wf_str s /\ wf_str t.
Proof. apply Forall_app. Qed.

Lemma wf_str_of_string s : wf_str (str s).
Proof.
  apply Forall_fmap, Forall_forall. intros a _. simpl. unfold wf_unit.
  pose proof (N_ascii_bounded a). lia.
Qed.

Lemma wf_js_trim s : wf_str s -> wf_str (js_trim s).
Proof. apply trim_by_Forall. Qed.

Lemma is_word_wf c : is_word c = true -> wf_unit c.
Proof. unfold is_word, wf_unit. intros H. lia. Qed.

Lemma wf_replace_nonword s : wf_str (replace_nonword s).
Proof.
  apply Forall_fmap, Forall_forall. intros c _. simpl.
  destruct (is_word c) eqn:Hc; [by apply is_word_wf | done].
Qed.

Lemma wf_js_substring s a b : wf_str s -> wf_str (js_substring s a b).
Proof. intros H. by apply Forall_take, Forall_drop. Qed.

Lemma wf_js_substr s a : wf_str s -> wf_str (js_substr s a).
Proof. intros H. by apply Forall_drop. Qed.

Lemma wf_to_str v : (forall s, v = Some s -> wf_str s) -> wf_str (to_str v).
Proof. destruct v; simpl; [auto | intros _; apply wf_str_of_string]. Qed.

(** ** [trim] *)

Lemma is_word_not_space c : is_word c = true -> is_space c = false.
Proof. unfold is_word, is_space. intros H. lia. Qed.

Lemma js_trim_length s : (length (js_trim s) <= length s)%nat.
Proof. apply trim_by_length. Qed.

Lemma js_trim_no_space s : Forall (fun c => is_space c = false) s -> js_trim s = s.
Proof. apply trim_by_none. Qed.

Lemma js_trim_word s : Forall (fun c => is_word c = true) s -> js_trim s = s.
Proof.
  intros H. apply js_trim_no_space.
  eapply Forall_weaken; [apply is_word_not_space | done].
Qed.

(** ** [replace(/\W/g, '_')] *)

Lemma replace_nonword_length s : length (replace_nonword s) = length s.
Proof. apply length_fmap. Qed.

Lemma replace_nonword_word s : Forall (fun c => is_word c = true) (replace_nonword s).
Proof.
  apply Forall_fmap, Forall_forall. intros c _. simpl.
  by destruct (is_word c) eqn:Hc.
Qed.

Lemma replace_nonword_id s :
  Forall (fun c => is_word c = true) s -> replace_nonword s = s.
Proof.
  induction 1 as [|c s Hc _ IH]; [done |].
  unfold replace_nonword in *. rewrite fmap_cons, Hc. by f_equal.
Qed.

Lemma replace_nonword_lookup s i c :
  s !! i = Some c ->
  replace_nonword s !! i = Some (if is_word c then c else 95).
Proof. intros H. unfold replace_nonword. by rewrite list_lookup_fmap, H. Qed.

(** ** [substring] and [substr] *)

Lemma js_substring_prefix s (n : nat) : js_substring s 0 (Z.of_nat n) = take n s.
Proof.
  unfold js_substring.
  replace (Z.min (Z.max 0 0) (Z.of_nat (length s))) with 0%Z by lia.
  replace (Z.to_nat (Z.min 0 _)) with 0%nat by lia.
  rewrite drop_0, Nat.sub_0_r.
  destruct (decide (n <= length s)%nat).
  - f_equal. lia.
  - rewrite !take_ge by lia. done.
Qed.

Lemma js_substring_length s a b :
  (length (js_substring s a b) <= Z.to_nat (Z.max a b))%nat.
Proof. unfold js_substring. rewrite length_take. lia. Qed.

Lemma js_substr_length s p : js_substr p (js_length s) = drop (length s) p.
Proof.
  unfold js_substr, js_length. rewrite (proj2 (Z.ltb_ge _ _)) by lia.
  by rewrite Nat2Z.id.
Qed.

Lemma js_substr_app p r : js_substr (p ++ r) (js_length p) = r.
Proof.
  rewrite js_substr_length. apply drop_app_length.
Qed.

Lemma js_substr_ge s (n : nat) : (length s <= n)%nat -> js_substr s (Z.of_nat n) = [].
Proof.
  intros H. unfold js_substr.
  destruct (Z.ltb_spec (Z.of_nat n) 0); [lia |].
  rewrite Nat2Z.id. by apply drop_ge.
Qed.

(** ** Truthiness and coercion *)

Lemma truthy_Some s : truthy (Some s) = true <-> s <> [].
Proof. destruct s; simpl; split; congruence. Qed.

Lemma length_str s : length (str s) = String.length s.
Proof.
  unfold str. rewrite length_fmap.
  induction s as [|a s IH]; simpl; [done | by rewrite IH].
Qed.

Lemma str_cons a s : str (String a s) = N_of_ascii a :: str s.
Proof. done. Qed.

Lemma str_app s t : str (s ++ t)%string = str s ++ str t.
Proof.
  unfold str. induction s as [|a s IH]; [done |].
  cbn [list_ascii_of_string String.append]. rewrite !fmap_cons, IH. done.
Qed.

(** Literals are kept folded in proofs: tactics reason about them with
    [length_str], [str_cons] and [str_app]; [vm_compute] still evaluates
    them. *)
#[global] Opaque str.

Lemma truthy_app_str a r x y : truthy (Some (x ++ str (String a r) ++ y)) = true.
Proof. rewrite str_cons. by destruct x. Qed.

Lemma truthy_app_l x y : truthy (Some x) = true -> truthy (Some (x ++ y)) = true.
Proof. by destruct x. Qed.

Lemma truthy_true v : truthy v = true -> exists c s, v = Some (c :: s).
Proof. destruct v as [[|c s]|]; simpl; try discriminate. eauto. Qed.

Lemma truthy_to_str v : truthy v = true -> to_str v <> [].
Proof. intros (c & s & ->)%truthy_true. done. Qed.

Lemma to_str_Some s : to_str (Some s) = s.
Proof. done. Qed.

(** ** [JSON.stringify] *)

Lemma json_escape_plain s :
  Forall (fun c => 32 <= c /\ c <> 34 /\ c <> 92 /\ c < 55296) s ->
  json_escape s = s.
Proof.
  induction 1 as [|c s (H1 & H2 & H3 & H4) _ IH]; [done |].
  simpl. rewrite IH.
  unfold is_high_surrogate, is_low_surrogate, json_escape_unit.
  replace (55296 <=? c) with false by lia.
  replace (56320 <=? c) with false by lia. simpl.
  repeat match goal with
  | |- context [?a =? ?b] => replace (a =? b) with false by lia
  | |- context [?a <? ?b] => replace (a <? b) with false by lia
  end. done.
Qed.

#[export] Hint Resolve wf_str_of_string wf_js_trim wf_replace_nonword
  wf_js_substring wf_js_substr : nemo.
#[export] Hint Rewrite replace_nonword_length js_substr_app to_str_Some : nemo_rw.
