(* ===== verification/Values.v ===== *)
(** * Values and error objects

    The JavaScript values that flow through the program: what a promise is
    fulfilled with ([value]) and the error objects promises are rejected with
    and exceptions carry ([errObj], held in a [heap] and named by reference,
    because the source mutates them in place and passes the same object on:
    [err.stack = err.stack + output] at [src/index.js]:62,
    [exception._nemoScreenshotHandled = true] at line 348).

    [imageObj] and [sourceObj] are the objects [snap] and [source] build
    (lines 147, 163-172 and 204, 295-296). *)

From S2P Require Import Prelude JsString.

(** The object [snap] resolves with.  A property that was never assigned and
    a property assigned [undefined] are both [None]: the source only reads
    them and passes the object to [JSON.stringify], which skips both. *)
Record imageObj : Type := mkImage {
  imageName : jsstring;
  imagePath : jsstring;
  imageUrl : option jsstring;
  archivedImageUrl : option jsstring;
}.

(** The object [source] resolves with. *)
Record sourceObj : Type := mkSource {
  sourceName : jsstring;
  sourcePath : jsstring;
}.

Inductive value : Type :=
| VUndefined
| VNull
| VBool (b : bool)
| VStr (s : jsstring)
| VImage (o : imageObj)
| VSource (o : sourceObj)
| VHost (json : jsstring).
(** [VHost json] is an object of the environment (a driver session), of which
    the program observes that it is truthy and, at most, its JSON form. *)

(** An error object: the properties the program reads or writes. *)
Record errObj : Type := mkErr {
  e_name : jsstring;
  e_message : jsstring;
  e_stack : option jsstring;
  e_handled : bool;
}.

Abbreviation eref := nat (only parsing).
Abbreviation heap := (list errObj) (only parsing).

#[export] Instance imageObj_eq_dec : EqDecision imageObj.
Proof. solve_decision. Defined.
#[export] Instance sourceObj_eq_dec : EqDecision sourceObj.
Proof. solve_decision. Defined.
#[export] Instance value_eq_dec : EqDecision value.
Proof. solve_decision. Defined.
#[export] Instance errObj_eq_dec : EqDecision errObj.
Proof. solve_decision. Defined.

(** ** Truthiness and property reads *)

Definition value_truthy (v : value) : bool :=
  match v with
  | VUndefined | VNull => false
  | VBool b => b
  | VStr s => truthy (Some s)
  | VImage _ | VSource _ | VHost _ => true
  end.

(** Whether a property can be read off the value at all: reading a property
    of [undefined] or [null] throws a [TypeError]. *)
Definition has_properties (v : value) : bool :=
  match v with
  | VUndefined | VNull => false
  | _ => true
  end.

(** [v.imageUrl] and [v.archivedImageUrl] for a value with properties. *)
Definition get_imageUrl (v : value) : option jsstring :=
  match v with
  | VImage o => imageUrl o
  | _ => None
  end.

Definition get_archivedImageUrl (v : value) : option jsstring :=
  match v with
  | VImage o => archivedImageUrl o
  | _ => None
  end.

(** ** [JSON.stringify] *)

(** One [ "key":"value" ] member, or nothing for an undefined property. *)
Definition json_member (key : string) (v : option jsstring) : list jsstring :=
  match v with
  | Some s => [json_quote (str key) ++ str ":" ++ json_quote s]
  | None => []
  end.

Fixpoint join_with (sep : jsstring) (l : list jsstring) : jsstring :=
  match l with
  | [] => []
  | [x] => x
  | x :: l' => x ++ sep ++ join_with sep l'
  end.

Definition json_object (members : list jsstring) : jsstring :=
  str "{" ++ join_with (str ",") members ++ str "}".

(** [JSON.stringify(v)]; [None] is the [undefined] it returns on [undefined]. *)
Definition json_stringify (v : value) : option jsstring :=
  match v with
  | VUndefined => None
  | VNull => Some (str "null")
  | VBool true => Some (str "true")
  | VBool false => Some (str "false")
  | VStr s => Some (json_quote s)
  | VImage o =>
    Some (json_object (json_member "imageName" (Some (imageName o))
                       ++ json_member "imagePath" (Some (imagePath o))
                       ++ json_member "imageUrl" (imageUrl o)
                       ++ json_member "archivedImageUrl" (archivedImageUrl o)))
  | VSource o =>
    Some (json_object (json_member "sourceName" (Some (sourceName o))
                       ++ json_member "sourcePath" (Some (sourcePath o))))
  | VHost json => Some json
  end.

(** ** The heap of error objects *)

Definition new_error (name message : jsstring) : errObj :=
  {| e_name := name; e_message := message;
     e_stack := Some (name ++ str ": " ++ message); e_handled := false |}.

(** Allocation: the new object's reference is the heap's length. *)
Definition heap_alloc (e : errObj) : St heap eref eref :=
  fun h => (Ret (length h), h ++ [e]).

Definition set_stack (s : option jsstring) (e : errObj) : errObj :=
  {| e_name := e_name e; e_message := e_message e; e_stack := s; e_handled := e_handled e |}.

Definition set_handled (b : bool) (e : errObj) : errObj :=
  {| e_name := e_name e; e_message := e_message e; e_stack := e_stack e; e_handled := b |}.

(** [Error.prototype.toString] *)
Definition err_toString (e : errObj) : jsstring :=
  match e_name e, e_message e with
  | [], m => m
  | n, [] => n
  | n, m => n ++ str ": " ++ m
  end.

(** [throw new TypeError(msg)] *)
Definition throw_TypeError {A} (msg : string) : St heap eref A :=
  (r <- heap_alloc (new_error (str "TypeError") (str msg)) ;; st_throw r)%st.

(** ** The console *)

(** What the program prints: [console.log] of a text (its arguments joined
    by a space) and [console.error] of an error object. *)
Inductive console_entry : Type :=
| CLog (text : jsstring)
| CError (r : eref).

Abbreviation console := (list console_entry) (only parsing).

Definition console_log {E} (text : jsstring) : St console E unit :=
  st_modify (fun c => c ++ [CLog text]).

Definition console_error {E} (r : eref) : St console E unit :=
  st_modify (fun c => c ++ [CError r]).

(** ** Lemmas *)

Lemma value_truthy_has_properties v : value_truthy v = true -> has_properties v = true.
Proof. by destruct v. Qed.

Lemma get_imageUrl_not_image v :
  (forall o, v <> VImage o) -> get_imageUrl v = None /\ get_archivedImageUrl v = None.
Proof. destruct v; naive_solver. Qed.

Lemma json_stringify_defined v : v <> VUndefined -> is_Some (json_stringify v).
Proof. destruct v as [| |[]| | | |]; naive_solver. Qed.

Lemma heap_alloc_lookup (e : errObj) (h : heap) :
  (heap_alloc e h).2 !! (length h) = Some e.
Proof. simpl. rewrite lookup_app_r by lia. by rewrite Nat.sub_diag. Qed.

Lemma heap_alloc_old (e : errObj) (h : heap) r o :
  h !! r = Some o -> (heap_alloc e h).2 !! r = Some o.
Proof. intros H. simpl. by apply lookup_app_l_Some. Qed.

Lemma set_stack_handled s e : e_handled (set_stack s e) = e_handled e.
Proof. done. Qed.

Lemma set_handled_stack b e : e_stack (set_handled b e) = e_stack e.
Proof. done. Qed.

Lemma err_toString_named n m :
  n <> [] -> m <> [] -> err_toString (mkErr n m None false) = n ++ str ": " ++ m.
Proof. by destruct n, m. Qed.
