(* ===== verification/DomScript.v ===== *)
(** * The script [source] runs in the browser

    [source] sends the driver one script ([src/index.js]:214-270), which the
    browser evaluates on the page under test.  The script walks the document
    from [document.body], collects the text nodes whose trimmed text starts
    with a marker of three UTF-16 code units, computes for each the box and
    the scroll-adjusted offset of its parent element, appends the page's
    global [fpti], and returns the whole as JSON.

    The document is a store of nodes addressed by number ([Dom]), each with
    the pointers and the geometry the script reads: [firstChild],
    [nextSibling], [parentNode], [offsetParent], the offsets and the box of
    [getBoundingClientRect()].  The functions of the script are translated
    one by one.  Lengths are whole pixels ([Z]); an offset that is
    [undefined], as on a text node, is [None], which is what [isNaN] tests.

    The loops that follow pointers ([getOffset], the walk) take their fuel as
    an argument and return [None] when it runs out.  Two results bound the
    fuel: on a store numbered in document order the length of the store is
    enough ([dom_ordered]), and on a store that represents a forest
    ([is_forest]) the size of the forest is enough and the walk visits its
    nodes in preorder. *)

From stdpp Require Import list.
From S2P Require Import Prelude JsString Values.

Abbreviation nid := nat (only parsing).

(** ** The document *)

Record dnode : Type := mkNode {
  nodeType : N;
  data : jsstring;
  firstChild : option nid;
  nextSibling : option nid;
  parentNode : option nid;
  offsetLeft : option Z;
  offsetTop : option Z;
  scrollLeft : Z;
  scrollTop : Z;
  offsetParent : option nid;
  rect_width : Z;
  rect_height : Z;
}.

Abbreviation Dom := (list dnode) (only parsing).

(** The node a reference denotes; [None] for [null]. *)
Definition node_at (dom : Dom) (el : option nid) : option dnode :=
  match el with
  | Some i => dom !! i
  | None => None
  end.

(** [node.firstChild] and [node.nextSibling] *)
Definition first_child (dom : Dom) (node : nid) : option nid :=
  match dom !! node with
  | Some n => firstChild n
  | None => None
  end.

Definition next_sibling (dom : Dom) (node : nid) : option nid :=
  match dom !! node with
  | Some n => nextSibling n
  | None => None
  end.

(** The page: its document, [document.body], and the globals [fpti] (read
    at line 267, as the text [JSON.stringify] gives for it) and [info]
    (assigned at line 267). *)
Record Page : Type := mkPage {
  pg_dom : Dom;
  pg_body : option nid;
  pg_fpti : option jsstring;
  pg_info : option jsstring;
}.

(** ** The values of the script *)

(** [invisiNodes[i].coordinates] *)
Record coords : Type := mkCoords {
  co_width : Z;
  co_height : Z;
  co_left : Z;
  co_top : Z;
}.

(** An element of [invisiNodes]: [parent] is [None] once the property has
    been deleted (line 259), [coordinates] is [None] until it is set. *)
Record invisi : Type := mkInvisi {
  invisitext : jsstring;
  parent : option nid;
  coordinates : option coords;
}.

(** What the script can throw. *)
Inductive script_error : Type :=
| TypeError
| ReferenceError.

#[export] Instance coords_eq_dec : EqDecision coords.
Proof. solve_decision. Defined.
#[export] Instance invisi_eq_dec : EqDecision invisi.
Proof. solve_decision. Defined.
#[export] Instance script_error_eq_dec : EqDecision script_error.
Proof. solve_decision. Defined.

(** ** [getOffset] (lines 215-225) *)

(** The loop of lines 219-223, with the sums so far. *)
Fixpoint getOffset_loop (fuel : nat) (dom : Dom) (el : option nid) (x y : Z) : option (Z * Z) :=
  match node_at dom el with
  | Some n =>
    match offsetLeft n, offsetTop n with
    | Some l, Some t =>
      match fuel with
      | 0 => None
      | S fuel =>
        getOffset_loop fuel dom (offsetParent n)
          (x + (l - scrollLeft n))%Z (y + (t - scrollTop n))%Z
      end
    | _, _ => Some (x, y)
    end
  | None => Some (x, y)
  end.

Definition getOffset (fuel : nat) (dom : Dom) (el : option nid) : option (Z * Z) :=
  getOffset_loop fuel dom el 0%Z 0%Z.

(** ** [processAllTextNodes] (lines 237-248) *)

(** [text.charCodeAt(i) === c]; beyond the end [charCodeAt] is [NaN]. *)
Definition code_is (text : jsstring) (i : nat) (c : N) : bool :=
  match text !! i with
  | Some u => (u =? c)%N
  | None => false
  end.

Definition processAllTextNodes (dom : Dom) (node : nid) (invisiNodes : list invisi)
  : list invisi :=
  match dom !! node with
  | Some n =>
    if (nodeType n =? 3)%N then
      let text := js_trim (data n) in
      if (0 <? length text)%nat then
        if code_is text 0 8288 && code_is text 1 56128 && code_is text 2 56814 then
          invisiNodes ++ [mkInvisi text (parentNode n) None]
        else invisiNodes
      else invisiNodes
    else invisiNodes
  | None => invisiNodes
  end.

(** ** [walkTheDOMGetInvisiNodes] (lines 227-235) *)

Section Walk.
Context (dom : Dom) (func : Dom -> nid -> list invisi -> list invisi).

(** The loop of lines 231-234 over the siblings, [walk] being the recursive
    call of line 232. *)
Fixpoint walk_siblings (walk : nid -> list invisi -> option (list invisi)) (n : nat)
    (node : option nid) (invisiNodes : list invisi) : option (list invisi) :=
  match node with
  | None => Some invisiNodes
  | Some i =>
    match n with
    | 0 => None
    | S n =>
      match walk i invisiNodes with
      | Some invisiNodes' => walk_siblings walk n (next_sibling dom i) invisiNodes'
      | None => None
      end
    end
  end.

Fixpoint walkTheDOMGetInvisiNodes (fuel : nat) (node : nid) (invisiNodes : list invisi)
  : option (list invisi) :=
  match fuel with
  | 0 => None
  | S fuel =>
    walk_siblings (walkTheDOMGetInvisiNodes fuel) fuel (first_child dom node)
      (func dom node invisiNodes)
  end.

End Walk.

(** ** [getInvisiNodeCoordinates] (lines 250-262) *)

(** The body of the loop (lines 254-259) on one element.  Reading the box of
    a [parent] that is [null], or no element, throws. *)
Definition node_coordinates (fuel : nat) (dom : Dom) (e : invisi)
  : option (outcome script_error invisi) :=
  match node_at dom (parent e) with
  | Some n =>
    if (nodeType n =? 1)%N then
      match getOffset fuel dom (parent e), getOffset fuel dom (parent e) with
      | Some l, Some t =>
        Some (Ret {| invisitext := invisitext e; parent := None;
                     coordinates := Some (mkCoords (rect_width n) (rect_height n) l.1 t.2) |})
      | _, _ => None
      end
    else Some (Throw TypeError)
  | None => Some (Throw TypeError)
  end.

(** The loop of line 253 from index [i], with [k] iterations allowed. *)
Fixpoint coordinates_from (k : nat) (fuel : nat) (dom : Dom) (i : nat)
    (invisiNodes : list invisi) : option (outcome script_error (list invisi)) :=
  match invisiNodes !! i with
  | None => Some (Ret invisiNodes)
  | Some e =>
    match k with
    | 0 => None
    | S k =>
      match node_coordinates fuel dom e with
      | Some (Ret e') => coordinates_from k fuel dom (S i) (<[i := e']> invisiNodes)
      | Some (Throw err) => Some (Throw err)
      | None => None
      end
    end
  end.

Definition getInvisiNodeCoordinates (fuel : nat) (dom : Dom) (invisiNodes : list invisi)
  : option (outcome script_error (list invisi)) :=
  coordinates_from (length invisiNodes) fuel dom 0 invisiNodes.

(** ** [JSON.stringify(invisiNodes)] (line 269) *)

(** A whole number as JSON prints it. *)
Definition json_number (z : Z) : jsstring :=
  if (z <? 0)%Z then str "-" ++ str_of_N (Z.abs_N z) else str_of_N (Z.to_N z).

Definition json_coords (c : coords) : jsstring :=
  json_object
    [json_quote (str "width") ++ str ":" ++ json_number (co_width c);
     json_quote (str "height") ++ str ":" ++ json_number (co_height c);
     json_quote (str "left") ++ str ":" ++ json_number (co_left c);
     json_quote (str "top") ++ str ":" ++ json_number (co_top c)].

(** An element whose [parent] has been deleted: the properties in the order
    they were created. *)
Definition json_invisi (e : invisi) : jsstring :=
  json_object
    (json_member "invisitext" (Some (invisitext e))
     ++ match coordinates e with
        | Some c => [json_quote (str "coordinates") ++ str ":" ++ json_coords c]
        | None => []
        end).

(** The array after [invisiNodes.push(info)]. *)
Definition json_invisiNodes (invisiNodes : list invisi) (info : jsstring) : jsstring :=
  str "[" ++ join_with (str ",") ((json_invisi <$> invisiNodes) ++ [info]) ++ str "]".

(** ** The script (lines 264-269) *)

Definition script (fuel : nat) (pg : Page) : option (outcome script_error jsstring * Page) :=
  match pg_body pg with
  | None => Some (Throw TypeError, pg)
  | Some body =>
    match walkTheDOMGetInvisiNodes (pg_dom pg) processAllTextNodes fuel body [] with
    | None => None
    | Some invisiNodes =>
      match getInvisiNodeCoordinates fuel (pg_dom pg) invisiNodes with
      | None => None
      | Some (Throw err) => Some (Throw err, pg)
      | Some (Ret invisiNodes) =>
        match pg_fpti pg with
        | None => Some (Throw ReferenceError, pg)
        | Some info =>
          Some (Ret (json_invisiNodes invisiNodes info),
                {| pg_dom := pg_dom pg; pg_body := pg_body pg; pg_fpti := pg_fpti pg;
                   pg_info := Some info |})
        end
      end
    end
  end.

(** ** Reference definitions *)

(** The marker, as the two code points it is: U+2060 and U+E01EE. *)
Definition utf16 (cp : N) : jsstring :=
  if (cp <? 65536)%N then [cp]
  else [(55296 + N.shiftr (cp - 65536) 10)%N; (56320 + N.land (cp - 65536) 1023)%N].

Definition marker : jsstring := utf16 8288 ++ utf16 917998.

(** The element the script records for a node, when it records one. *)
Definition marked_entry (dom : Dom) (node : nid) : option invisi :=
  match dom !! node with
  | Some n =>
    if (nodeType n =? 3)%N && bool_decide (marker `prefix_of` js_trim (data n))
    then Some (mkInvisi (js_trim (data n)) (parentNode n) None)
    else None
  | None => None
  end.

(** A forest in first-child, next-sibling form, as the pointers of the store
    give it. *)
Inductive forest : Type :=
| FNil
| FNode (i : nid) (children siblings : forest).

Fixpoint preorder (t : forest) : list nid :=
  match t with
  | FNil => []
  | FNode i c s => i :: preorder c ++ preorder s
  end.

Fixpoint forest_size (t : forest) : nat :=
  match t with
  | FNil => 0
  | FNode _ c s => S (forest_size c + forest_size s)
  end.

(** The chain of siblings that starts at [o] represents [t], and the nodes
    of its first level have [parent] as parent. *)
Fixpoint is_forest (dom : Dom) (parent : option nid) (o : option nid) (t : forest) : bool :=
  match t, o with
  | FNil, None => true
  | FNode i c s, Some j =>
    bool_decide (i = j)
    && match dom !! i with
       | Some n =>
         bool_decide (parentNode n = parent)
         && is_forest dom (Some i) (firstChild n) c
         && is_forest dom parent (nextSibling n) s
       | None => false
       end
  | _, _ => false
  end.

(** The same forest as a list of trees, and its nodes in document order. *)
#[local] Unset Elimination Schemes.
Inductive dtree : Type :=
| DTree (i : nid) (children : list dtree).
#[local] Set Elimination Schemes.

Fixpoint forest_of (t : dtree) (siblings : forest) : forest :=
  match t with
  | DTree i children => FNode i (fold_right forest_of FNil children) siblings
  end.

Fixpoint document_order (t : dtree) : list nid :=
  match t with
  | DTree i children => i :: concat (document_order <$> children)
  end.

(** The store is numbered in document order: children and later siblings
    have larger numbers than the node, the offset parent a smaller one, and
    every pointer denotes a node. *)
Definition dom_ordered (dom : Dom) : Prop :=
  forall i n, dom !! i = Some n ->
    (forall j, firstChild n = Some j -> i < j < length dom) /\
    (forall j, nextSibling n = Some j -> i < j < length dom) /\
    (forall j, offsetParent n = Some j -> j < i).

(** The sums of [getOffset] over a chain of offset parents. *)
Definition offset_sum (chain : list dnode) : Z * Z :=
  (foldr (fun n x => (default 0 (offsetLeft n) - scrollLeft n + x)%Z) 0%Z chain,
   foldr (fun n y => (default 0 (offsetTop n) - scrollTop n + y)%Z) 0%Z chain).

(** The chain of offset parents from [el], up to the first reference that is
    [null] or has no numeric offset. *)
Fixpoint is_offset_chain (dom : Dom) (el : option nid) (chain : list dnode) : Prop :=
  match chain with
  | [] =>
    match node_at dom el with
    | Some n => offsetLeft n = None \/ offsetTop n = None
    | None => True
    end
  | n :: chain' =>
    node_at dom el = Some n /\ is_Some (offsetLeft n) /\ is_Some (offsetTop n) /\
    is_offset_chain dom (offsetParent n) chain'
  end.

(** [getInvisiNodeCoordinates] as a map over the list. *)
Fixpoint coordinates_all (fuel : nat) (dom : Dom) (invisiNodes : list invisi)
  : option (outcome script_error (list invisi)) :=
  match invisiNodes with
  | [] => Some (Ret [])
  | e :: rest =>
    match node_coordinates fuel dom e with
    | Some (Ret e') =>
      match coordinates_all fuel dom rest with
      | Some (Ret rest') => Some (Ret (e' :: rest'))
      | r => r
      end
    | Some (Throw err) => Some (Throw err)
    | None => None
    end
  end.

(** ** A sample page *)

Definition element (parent first next : option nid) (offset : Z * Z) (scroll : Z * Z)
    (offsetParent : option nid) (box : Z * Z) : dnode :=
  mkNode 1 [] first next parent (Some offset.1) (Some offset.2) scroll.1 scroll.2
    offsetParent box.1 box.2.

Definition text_node (data : jsstring) (parent next : option nid) : dnode :=
  mkNode 3 data None next parent None None 0 0 None 0 0.

(** [<body><div>(marker)hi</div>plain</body>], the [div] at (10, 20) in the
    body, scrolled by 5 pixels. *)
Definition sample_dom : list dnode :=
  [ element None (Some 1) None (0, 0)%Z (0, 0)%Z None (800, 600)%Z;
    element (Some 0) (Some 2) (Some 3) (10, 20)%Z (0, 5)%Z (Some 0) (100, 50)%Z;
    text_node (str " " ++ marker ++ str "hi ") (Some 1) None;
    text_node (str "plain") (Some 0) None ].

Definition sample_forest : forest :=
  FNode 1 (FNode 2 FNil FNil) (FNode 3 FNil FNil).

Definition sample_page : Page :=
  mkPage sample_dom (Some 0) (Some (str "{}")) None.

(** ** Lemmas *)

Section DomLemmas.
Context (dom : list dnode).

Lemma dtree_ind (P : dtree -> Prop) :
  (forall i children, Forall P children -> P (DTree i children)) -> forall t, P t.
Proof.
  intros IH. fix rec 1. intros [i children]. apply IH.
  induction children as [|c cs IHcs]; constructor; [apply rec | apply IHcs].
Qed.

Lemma marker_units : marker = [8288; 56128; 56814]%N.
Proof. reflexivity. Qed.

(** The three tests of line 243 say that the text starts with the marker. *)
Lemma code_is_marker text :
  code_is text 0 8288 && code_is text 1 56128 && code_is text 2 56814
  = bool_decide (marker `prefix_of` text).
Proof.
  apply Bool.eq_iff_eq_true. rewrite bool_decide_eq_true, !andb_true_iff, marker_units.
  unfold code_is. split.
  - destruct text as [|a [|b [|c text]]]; cbn [lookup list_lookup]; intros [[Ha Hb] Hc];
      try done. apply N.eqb_eq in Ha as ->, Hb as ->, Hc as ->.
    by exists text.
  - intros [k ->]. cbn [app lookup list_lookup]. by rewrite !N.eqb_refl.
Qed.

Lemma processAllTextNodes_marked node invisiNodes :
  processAllTextNodes dom node invisiNodes
  = invisiNodes ++ option_list (marked_entry dom node).
Proof.
  unfold processAllTextNodes, marked_entry.
  destruct (dom !! node) as [n|]; [| by rewrite app_nil_r].
  destruct (nodeType n =? 3)%N; [| by rewrite app_nil_r]. cbn [andb].
  rewrite code_is_marker. destruct (js_trim (data n)) as [|u text] eqn:Ht.
  - rewrite bool_decide_eq_false_2; [by rewrite app_nil_r |].
    rewrite marker_units. by intros ?%prefix_nil_not.
  - cbn [length Nat.ltb Nat.leb]. by destruct (bool_decide _); rewrite ?app_nil_r.
Qed.

Lemma foldl_processAllTextNodes nodes : forall invisiNodes,
  foldl (fun a i => processAllTextNodes dom i a) invisiNodes nodes
  = invisiNodes ++ omap (marked_entry dom) nodes.
Proof.
  induction nodes as [|i nodes IH]; intros acc; cbn [foldl omap list_omap];
    [by rewrite app_nil_r |].
  rewrite IH, processAllTextNodes_marked, <- app_assoc.
  by destruct (marked_entry dom i).
Qed.

Lemma marked_entry_Some node e :
  marked_entry dom node = Some e ->
  marker `prefix_of` invisitext e /\ coordinates e = None /\
  exists n, dom !! node = Some n /\ nodeType n = 3%N /\
    invisitext e = js_trim (data n) /\ parent e = parentNode n.
Proof.
  unfold marked_entry. destruct (dom !! node) as [n|]; [| done].
  destruct (N.eqb_spec (nodeType n) 3); [| done]. cbn [andb].
  case_bool_decide; [| done]. intros [= <-]. eauto 10.
Qed.

(** *** The offset chain *)

Lemma getOffset_loop_chain chain : forall fuel el x y,
  is_offset_chain dom el chain -> length chain <= fuel ->
  getOffset_loop fuel dom el x y
  = Some ((x + (offset_sum chain).1)%Z, (y + (offset_sum chain).2)%Z).
Proof.
  induction chain as [|n chain IH]; intros fuel el x y; cbn [is_offset_chain].
  - intros Hend _. cbn [offset_sum foldr fst snd]. rewrite !Z.add_0_r.
    destruct fuel; cbn [getOffset_loop]; destruct (node_at dom el) as [n|]; try done;
      by destruct Hend as [-> | ->]; destruct (offsetLeft n).
  - intros (Hn & [l Hl] & [t Ht] & Hchain) Hfuel. destruct fuel as [|fuel]; [simpl in *; lia |].
    cbn [getOffset_loop]. rewrite Hn, Hl, Ht, (IH fuel) by (simpl in *; done || lia).
    unfold offset_sum. cbn [foldr fst snd]. rewrite Hl, Ht. simpl. f_equal. f_equal; lia.
Qed.

Lemma getOffset_loop_ordered : dom_ordered dom -> forall fuel el x y,
  (forall i n, el = Some i -> dom !! i = Some n -> i < fuel) ->
  is_Some (getOffset_loop fuel dom el x y).
Proof.
  intros Hord. induction fuel as [|fuel IH]; intros el x y Hel; cbn [getOffset_loop];
    destruct el as [i|]; cbn [node_at]; try done;
    destruct (dom !! i) as [n|] eqn:Hi; try done;
    destruct (offsetLeft n), (offsetTop n); try done.
  - specialize (Hel _ _ eq_refl Hi). lia.
  - apply IH. intros j m Hp Hj. destruct (Hord _ _ Hi) as (_ & _ & Hop).
    specialize (Hel _ _ eq_refl Hi). specialize (Hop _ Hp). lia.
Qed.

(** *** The walk *)

Section WalkLemmas.
Context (func : list dnode -> nid -> list invisi -> list invisi).

Lemma walk_siblings_forest t : forall parent o n fuel invisiNodes,
  is_forest dom parent o t = true -> forest_size t <= n -> forest_size t <= fuel ->
  walk_siblings dom (walkTheDOMGetInvisiNodes dom func fuel) n o invisiNodes
  = Some (foldl (fun a i => func dom i a) invisiNodes (preorder t)).
Proof.
  induction t as [|i c IHc s IHs]; intros parent o n fuel acc; destruct o as [j|];
    cbn [is_forest]; try done; [by destruct n |].
  rewrite !andb_true_iff, bool_decide_eq_true. intros [<- Hn].
  destruct (dom !! i) as [m|] eqn:Hi; [| done].
  rewrite !andb_true_iff in Hn. destruct Hn as [[_ Hc] Hs].
  cbn [forest_size preorder foldl]. intros Hk Hfuel.
  destruct n as [|n]; [lia |]. destruct fuel as [|fuel]; [lia |].
  cbn [walk_siblings walkTheDOMGetInvisiNodes]. unfold first_child, next_sibling.
  rewrite Hi, (IHc _ _ _ _ _ Hc) by lia.
  rewrite (IHs _ _ _ (S fuel) _ Hs) by lia. by rewrite foldl_app.
Qed.

Lemma walk_siblings_ordered : dom_ordered dom -> forall fuel,
  (forall i invisiNodes, i < length dom -> length dom - i <= fuel ->
     is_Some (walkTheDOMGetInvisiNodes dom func fuel i invisiNodes)) ->
  forall n o invisiNodes,
    (forall i, o = Some i -> i < length dom /\ length dom - i <= n /\ length dom - i <= fuel) ->
    is_Some (walk_siblings dom (walkTheDOMGetInvisiNodes dom func fuel) n o invisiNodes).
Proof.
  intros Hord fuel Hwalk. induction n as [|n IH]; intros [i|] acc Ho; cbn [walk_siblings];
    try done; destruct (Ho _ eq_refl) as (Hi & Hn & Hf); [lia |].
  destruct (Hwalk i acc Hi Hf) as [acc' ->]. apply IH. intros j Hj.
  unfold next_sibling in Hj. destruct (dom !! i) as [m|] eqn:Hm; [| done].
  destruct (Hord _ _ Hm) as (_ & Hs & _). specialize (Hs _ Hj). lia.
Qed.

Lemma walk_ordered : dom_ordered dom -> forall fuel i invisiNodes,
  i < length dom -> length dom - i <= fuel ->
  is_Some (walkTheDOMGetInvisiNodes dom func fuel i invisiNodes).
Proof.
  intros Hord. induction fuel as [|fuel IH]; intros i acc Hi Hf; [lia |].
  cbn [walkTheDOMGetInvisiNodes]. apply walk_siblings_ordered; [done.. |].
  intros j Hj. unfold first_child in Hj. destruct (dom !! i) as [m|] eqn:Hm; [| done].
  destruct (Hord _ _ Hm) as (Hc & _). specialize (Hc _ Hj). lia.
Qed.

End WalkLemmas.

(** *** The loop over the array *)

Lemma coordinates_from_all fuel l : forall k pre,
  length l <= k ->
  coordinates_from k fuel dom (length pre) (pre ++ l)
  = match coordinates_all fuel dom l with
    | Some (Ret l') => Some (Ret (pre ++ l'))
    | r => r
    end.
Proof.
  induction l as [|e l IH]; intros k pre Hk.
  - rewrite app_nil_r. destruct k; cbn [coordinates_from coordinates_all];
      rewrite lookup_ge_None_2, ?app_nil_r by lia; done.
  - destruct k as [|k]; [simpl in Hk; lia |]. cbn [coordinates_from coordinates_all].
    rewrite list_lookup_middle by done.
    destruct (node_coordinates fuel dom e) as [[e'|err]|]; [| done..].
    replace (<[length pre := e']> (pre ++ e :: l)) with ((pre ++ [e']) ++ l)
      by (rewrite insert_app_r_alt, Nat.sub_diag, <- app_assoc by done; done).
    replace (S (length pre)) with (length (pre ++ [e'])) by (rewrite length_app; simpl; lia).
    rewrite IH by (simpl in Hk; lia).
    destruct (coordinates_all fuel dom l) as [[l'|]|]; by rewrite <- ?app_assoc.
Qed.

Lemma coordinates_all_Ret fuel l : forall l',
  coordinates_all fuel dom l = Some (Ret l') ->
  Forall2 (fun e e' => node_coordinates fuel dom e = Some (Ret e')) l l'.
Proof.
  induction l as [|e l IH]; intros l'; cbn [coordinates_all]; [by intros [= <-] |].
  destruct (node_coordinates fuel dom e) as [[e'|]|] eqn:He; [| done..].
  destruct (coordinates_all fuel dom l) as [[l1|]|]; [| done..].
  intros [= <-]. constructor; auto.
Qed.

Lemma node_coordinates_Ret fuel e e' :
  node_coordinates fuel dom e = Some (Ret e') ->
  invisitext e' = invisitext e /\ parent e' = None /\ is_Some (coordinates e').
Proof.
  unfold node_coordinates. destruct (node_at dom (parent e)) as [n|]; [| done].
  destruct (nodeType n =? 1)%N; [| done].
  destruct (getOffset fuel dom (parent e)); [| done]. intros [= <-]. eauto.
Qed.

End DomLemmas.

(** A page the script can run on: the store is numbered in document order
    and [document.body], when there is one, is a node of it. *)
Definition page_wf (pg : Page) : Prop :=
  dom_ordered (pg_dom pg) /\
  forall body, pg_body pg = Some body -> body < length (pg_dom pg).

Lemma sample_dom_ordered : dom_ordered sample_dom.
Proof.
  intros [|[|[|[|i]]]] n Hn; simplify_eq/=; repeat split; intros; simplify_eq; lia.
Qed.

Lemma sample_page_wf : page_wf sample_page.
Proof. split; [apply sample_dom_ordered |]. intros body [= <-]. simpl. lia. Qed.

Section DomTotal.
Context (dom : list dnode) (fuel : nat).
Context (Hord : dom_ordered dom) (Hfuel : length dom <= fuel).

Lemma getOffset_ordered el : is_Some (getOffset fuel dom el).
Proof.
  apply getOffset_loop_ordered; [done |]. intros i n _ Hi%lookup_lt_Some. lia.
Qed.

Lemma node_coordinates_ordered e : is_Some (node_coordinates fuel dom e).
Proof.
  unfold node_coordinates. destruct (node_at dom (parent e)) as [n|]; [| done].
  destruct (nodeType n =? 1)%N; [| done]. by destruct (getOffset_ordered (parent e)) as [xy ->].
Qed.

Lemma coordinates_all_ordered l : is_Some (coordinates_all fuel dom l).
Proof.
  induction l as [|e l [r IH]]; cbn [coordinates_all]; [done |].
  destruct (node_coordinates_ordered e) as [[e'|err] ->]; [| done].
  rewrite IH. by destruct r.
Qed.

End DomTotal.

Lemma preorder_fold_right ts :
  Forall (fun t => forall s, preorder (forest_of t s) = document_order t ++ preorder s) ts ->
  preorder (fold_right forest_of FNil ts) = concat (document_order <$> ts).
Proof.
  induction 1 as [|t ts Ht _ IH]; [done |].
  cbn [fold_right fmap list_fmap concat]. by rewrite Ht, IH.
Qed.

Lemma preorder_forest_of t s : preorder (forest_of t s) = document_order t ++ preorder s.
Proof.
  revert s. induction t as [i children IH] using dtree_ind. intros s.
  cbn [forest_of preorder document_order]. by rewrite (preorder_fold_right _ IH).
Qed.

Lemma getInvisiNodeCoordinates_all fuel dom invisiNodes :
  getInvisiNodeCoordinates fuel dom invisiNodes = coordinates_all fuel dom invisiNodes.
Proof.
  unfold getInvisiNodeCoordinates.
  pose proof (coordinates_from_all dom fuel invisiNodes (length invisiNodes) [] (le_n _)) as H.
  cbn [length app] in H. rewrite H.
  by destruct (coordinates_all fuel dom invisiNodes) as [[]|].
Qed.

Lemma script_ends fuel pg :
  page_wf pg -> length (pg_dom pg) <= fuel -> is_Some (script fuel pg).
Proof.
  intros [Hord Hbody] Hfuel. unfold script. destruct (pg_body pg) as [body|]; [| done].
  destruct (walk_ordered _ processAllTextNodes Hord fuel body [] (Hbody _ eq_refl))
    as [nodes ->]; [lia |].
  rewrite getInvisiNodeCoordinates_all.
  destruct (coordinates_all_ordered _ fuel Hord Hfuel nodes) as [[l|err] ->]; [| done].
  by destruct (pg_fpti pg).
Qed.

Lemma script_throws_without_fpti fuel pg :
  pg_fpti pg = None -> page_wf pg -> length (pg_dom pg) <= fuel ->
  exists err, script fuel pg = Some (Throw err, pg).
Proof.
  intros Hi Hwf Hfuel. destruct (script_ends fuel pg Hwf Hfuel) as [r Hr].
  revert Hr. unfold script. rewrite Hi.
  repeat case_match; intros; simplify_eq; eauto.
Qed.

(** With [processAllTextNodes] the walk appends, for every text node whose
    trimmed text starts with the marker and for no other node, one element
    holding that text and the node's parent, in document order. *)
Lemma walk_collects_marked dom fuel node n c invisiNodes :
  dom !! node = Some n ->
  is_forest dom (Some node) (firstChild n) c = true ->
  forest_size c < fuel ->
  walkTheDOMGetInvisiNodes dom processAllTextNodes fuel node invisiNodes
  = Some (invisiNodes ++ omap (marked_entry dom) (node :: preorder c)).
Proof.
  intros Hn Hc Hfuel. destruct fuel as [|fuel]; [lia |].
  cbn [walkTheDOMGetInvisiNodes]. unfold first_child. rewrite Hn.
  rewrite (walk_siblings_forest _ _ _ _ _ _ _ _ Hc) by lia.
  by rewrite <- foldl_processAllTextNodes.
Qed.

(** On a page whose body holds a forest, the script returns the JSON of the
    marked text nodes in document order, each with the box and the offset
    of its parent, followed by the page's [fpti]; it leaves [fpti] in the
    global [info]. *)
Lemma script_returns_json fuel pg body n c invisiNodes info :
  pg_body pg = Some body -> pg_dom pg !! body = Some n ->
  is_forest (pg_dom pg) (Some body) (firstChild n) c = true ->
  forest_size c < fuel ->
  coordinates_all fuel (pg_dom pg) (omap (marked_entry (pg_dom pg)) (body :: preorder c))
    = Some (Ret invisiNodes) ->
  pg_fpti pg = Some info ->
  script fuel pg
  = Some (Ret (json_invisiNodes invisiNodes info),
          mkPage (pg_dom pg) (pg_body pg) (pg_fpti pg) (Some info)).
Proof.
  intros Hb Hn Hc Hfuel Hco Hi. unfold script.
  rewrite Hb, (walk_collects_marked _ _ _ _ _ _ Hn Hc Hfuel). cbn [app].
  by rewrite getInvisiNodeCoordinates_all, Hco, Hi.
Qed.

(** ** Properties *)

(** C19: on a store that represents a forest below [node], the walk of lines
    227-235 ends, and it calls [func] on [node] and then on every node of
    the forest once, in preorder: it computes what a fold over the preorder
    list computes.  Fuel above the size of the forest is enough. *)
Theorem walk_visits_preorder dom func fuel node n c invisiNodes :
  dom !! node = Some n ->
  is_forest dom (Some node) (firstChild n) c = true ->
  forest_size c < fuel ->
  walkTheDOMGetInvisiNodes dom func fuel node invisiNodes
  = Some (foldl (fun a i => func dom i a) invisiNodes (node :: preorder c)).
Proof.
  intros Hn Hc Hfuel. destruct fuel as [|fuel]; [lia |].
  cbn [walkTheDOMGetInvisiNodes foldl]. unfold first_child. rewrite Hn.
  apply (walk_siblings_forest _ _ _ _ _ _ _ _ Hc); lia.
Qed.

(** the walk ends on every store numbered in document order, whatever
    [func] does: fuel equal to the number of nodes is enough. *)
Theorem walk_terminates dom func fuel node invisiNodes :
  dom_ordered dom -> node < length dom -> length dom <= fuel ->
  is_Some (walkTheDOMGetInvisiNodes dom func fuel node invisiNodes).
Proof. intros Hord Hn Hfuel. apply walk_ordered; [done.. | lia]. Qed.

(** C31: [getOffset] returns the sums, over the chain of offset parents of
    [el], of the offsets less the scroll positions; the chain ends at the
    first reference that is [null] or has no numeric offset. *)
Theorem getOffset_chain dom fuel el chain :
  is_offset_chain dom el chain -> length chain <= fuel ->
  getOffset fuel dom el = Some (offset_sum chain).
Proof.
  intros Hc Hfuel. unfold getOffset. rewrite (getOffset_loop_chain _ _ _ _ _ _ Hc Hfuel).
  by destruct (offset_sum chain).
Qed.

(** C32: the loop of [getOffset] ends on every store numbered in document
    order (offset parents come before the nodes placed in them): fuel equal
    to the number of nodes is enough, whatever the element. *)
Theorem getOffset_terminates dom fuel el :
  dom_ordered dom -> length dom <= fuel -> is_Some (getOffset fuel dom el).
Proof. intros. by apply getOffset_ordered. Qed.

(** C30: the indexed loop of [getInvisiNodeCoordinates], which assigns into
    the array it reads, computes the same as a map over the list: each
    element is replaced by its text and coordinates, in order, and the first
    element that fails decides the result. *)
Theorem getInvisiNodeCoordinates_map fuel dom invisiNodes :
  getInvisiNodeCoordinates fuel dom invisiNodes = coordinates_all fuel dom invisiNodes.
Proof. apply getInvisiNodeCoordinates_all. Qed.

(** when [getInvisiNodeCoordinates] returns, every element has lost its
    [parent], carries coordinates, and keeps its text; the array has the
    length it had. *)
Theorem getInvisiNodeCoordinates_deletes_parent fuel dom invisiNodes invisiNodes' :
  getInvisiNodeCoordinates fuel dom invisiNodes = Some (Ret invisiNodes') ->
  Forall (fun e => parent e = None /\ is_Some (coordinates e)) invisiNodes' /\
  invisitext <$> invisiNodes' = invisitext <$> invisiNodes.
Proof.
  rewrite getInvisiNodeCoordinates_all. intros H%coordinates_all_Ret.
  induction H as [|e e' l l' (Ht & Hp & Hc)%node_coordinates_Ret _ [IH1 IH2]]; [done |].
  split; [by constructor |]. cbn [fmap list_fmap]. by rewrite Ht, <- IH2.
Qed.

(** the marker the script looks for is two code points, U+2060 and
    U+E01EE, which are three UTF-16 code units: the three that line 243
    compares. *)
Theorem marker_code_units text :
  code_is text 0 8288 && code_is text 1 56128 && code_is text 2 56814 = true
  <-> utf16 8288 ++ utf16 917998 `prefix_of` text.
Proof. by rewrite code_is_marker, bool_decide_eq_true. Qed.

(** C20: the script ends on every well-formed page: fuel equal to the number
    of nodes is enough for the walk and for every call of [getOffset]. *)
Theorem script_terminates fuel pg :
  page_wf pg -> length (pg_dom pg) <= fuel -> is_Some (script fuel pg).
Proof. apply script_ends. Qed.

(** on a page that defines no global [fpti] the script never returns a
    value: whatever the document, it ends with an exception (line 267 at the
    latest) and leaves the page as it was. *)
Theorem script_needs_fpti fuel pg :
  pg_fpti pg = None -> page_wf pg -> length (pg_dom pg) <= fuel ->
  exists err, script fuel pg = Some (Throw err, pg).
Proof. apply script_throws_without_fpti. Qed.

(** without [document.body] the script throws a [TypeError] at once. *)
Theorem script_no_body fuel pg :
  pg_body pg = None -> script fuel pg = Some (Throw TypeError, pg).
Proof. intros Hb. unfold script. by rewrite Hb. Qed.

(** the first-child, next-sibling form of a list of trees lists the nodes
    in document order: the preorder of the walk is the order of the
    document. *)
Theorem preorder_document_order ts :
  preorder (fold_right forest_of FNil ts) = concat (document_order <$> ts).
Proof. apply preorder_fold_right, Forall_forall. intros t _. apply preorder_forest_of. Qed.

(** the sample page: one marked text in a [div] at (10, 20) scrolled by 5
    pixels gives one element, with the box of the [div] and the offset
    (10, 15). *)
Theorem script_sample :
  script 4 sample_page
  = Some (Ret (str "[{" ++ json_quote (str "invisitext") ++ str ":"
                 ++ json_quote (marker ++ str "hi") ++ str ","
                 ++ json_quote (str "coordinates") ++ str ":{"
                 ++ json_quote (str "width") ++ str ":100,"
                 ++ json_quote (str "height") ++ str ":50,"
                 ++ json_quote (str "left") ++ str ":10,"
                 ++ json_quote (str "top") ++ str ":15}},{}]"),
          mkPage sample_dom (Some 0) (Some (str "{}")) (Some (str "{}"))).
Proof. vm_compute. reflexivity. Qed.

(** ** Witnesses *)

Lemma walk_visits_preorder_witness :
  walkTheDOMGetInvisiNodes sample_dom processAllTextNodes 4 0 []
  = Some (foldl (fun a i => processAllTextNodes sample_dom i a) []
            (0 :: preorder sample_forest)).
Proof.
  apply (walk_visits_preorder sample_dom processAllTextNodes 4 0
           (element None (Some 1) None (0, 0)%Z (0, 0)%Z None (800, 600)%Z) sample_forest []);
    [reflexivity | vm_compute; reflexivity | simpl; lia].
Defined.

Lemma walk_terminates_witness :
  is_Some (walkTheDOMGetInvisiNodes sample_dom processAllTextNodes 4 0 []).
Proof.
  apply (walk_terminates sample_dom processAllTextNodes 4 0 [] sample_dom_ordered);
    simpl; lia.
Defined.

Lemma getOffset_chain_witness :
  getOffset 2 sample_dom (Some 1)
  = Some (offset_sum
            [element (Some 0) (Some 2) (Some 3) (10, 20)%Z (0, 5)%Z (Some 0) (100, 50)%Z;
             element None (Some 1) None (0, 0)%Z (0, 0)%Z None (800, 600)%Z]).
Proof.
  apply (getOffset_chain sample_dom 2 (Some 1)); [| simpl; lia].
  simpl. eauto 10.
Defined.

Lemma getOffset_terminates_witness : is_Some (getOffset 4 sample_dom (Some 2)).
Proof. apply (getOffset_terminates sample_dom 4 (Some 2) sample_dom_ordered). simpl. lia. Defined.

Lemma getInvisiNodeCoordinates_deletes_parent_witness :
  Forall (fun e => parent e = None /\ is_Some (coordinates e))
    [mkInvisi (marker ++ str "hi") None (Some (mkCoords 100 50 10 15))] /\
  invisitext <$> [mkInvisi (marker ++ str "hi") None (Some (mkCoords 100 50 10 15))]
  = invisitext <$> [mkInvisi (marker ++ str "hi") (Some 1) None].
Proof.
  apply (getInvisiNodeCoordinates_deletes_parent 4 sample_dom
           [mkInvisi (marker ++ str "hi") (Some 1) None]).
  vm_compute. reflexivity.
Defined.

Lemma script_terminates_witness : is_Some (script 4 sample_page).
Proof. apply (script_terminates 4 sample_page sample_page_wf). simpl. lia. Defined.

Lemma script_needs_fpti_witness :
  exists err,
    script 4 (mkPage sample_dom (Some 0) None None)
    = Some (Throw err, mkPage sample_dom (Some 0) None None).
Proof.
  apply (script_needs_fpti 4 (mkPage sample_dom (Some 0) None None)); [reflexivity | | simpl; lia].
  split; [apply sample_dom_ordered |]. intros body [= <-]. simpl. lia.
Defined.

Lemma script_no_body_witness :
  script 0 (mkPage [] None None None) = Some (Throw TypeError, mkPage [] None None None).
Proof. apply (script_no_body 0 (mkPage [] None None None)). reflexivity. Defined.
