(* ===== verification/TitleSlug.v ===== *)
(** * [titleSlug]: the file name of an exception capture

    [titleSlug] ([src/index.js]:37-43) turns the title of the running test
    into the name of the screenshot taken when the command queue reports an
    uncaught exception (line 355).  The title is the value last passed to
    [setCurrentTestTitle]: a string or [undefined]. *)

From S2P Require Import Prelude JsString.

#[local] Open Scope N_scope.

(** The cut applied to a slug (line 42). *)
Definition slug_max : Z := 251.

Definition titleSlug (title : option jsstring) : jsstring :=
  if negb (truthy title) then []
  else js_substring (replace_nonword (js_trim (to_str title))) 0 slug_max.

(** The name of the image file [snap] writes for a capture called [name]
    (line 155). *)
Definition png_name (name : jsstring) : jsstring := name ++ str ".png".

(** ** Helper lemmas *)

Lemma titleSlug_unfold s :
  s <> [] -> titleSlug (Some s) = take 251 (replace_nonword (js_trim s)).
Proof.
  intros Hs. unfold titleSlug. rewrite (proj2 (truthy_Some s) Hs). simpl.
  apply (js_substring_prefix _ 251).
Qed.

Lemma titleSlug_falsy t : truthy t = false -> titleSlug t = [].
Proof. intros H. unfold titleSlug. by rewrite H. Qed.

Lemma titleSlug_cases t :
  titleSlug t = [] \/ exists s, t = Some s /\ s <> [] /\
                                titleSlug t = take 251 (replace_nonword (js_trim s)).
Proof.
  destruct t as [[|c s]|]; [by left | | by left].
  right. eexists. split; [done |]. split; [done |]. by apply titleSlug_unfold.
Qed.

(** ** Properties *)

(** C33: a slug is never longer than 251 code units, whatever the title. *)
Theorem titleSlug_length t : (length (titleSlug t) <= 251)%nat.
Proof.
  destruct (titleSlug_cases t) as [-> | (s & _ & _ & ->)]; [simpl; lia |].
  rewrite length_take. lia.
Qed.

(** C35: every code unit of a slug is a word character [A-Za-z0-9_]. *)
Theorem titleSlug_word t : Forall (fun c => is_word c = true) (titleSlug t).
Proof.
  destruct (titleSlug_cases t) as [-> | (s & _ & _ & ->)]; [constructor |].
  apply Forall_take, replace_nonword_word.
Qed.

(** slugging is idempotent: a slug used as a title is its own slug. *)
Theorem titleSlug_idempotent t : titleSlug (Some (titleSlug t)) = titleSlug t.
Proof.
  destruct (titleSlug t) as [|c s] eqn:E; [done |].
  rewrite titleSlug_unfold by done. rewrite <- E.
  rewrite js_trim_word, replace_nonword_id by apply titleSlug_word.
  apply take_ge, titleSlug_length.
Qed.

(** C34: unit [i] of the slug of a non-empty title is unit [i] of the trimmed
    title when that is a word character and an underscore otherwise, for
    [i < 251]; the slug has no unit at or beyond 251. *)
Theorem titleSlug_lookup s i :
  s <> [] ->
  titleSlug (Some s) !! i =
    if decide (i < 251)%nat
    then (fun c => if is_word c then c else 95) <$> js_trim s !! i
    else None.
Proof.
  intros Hs. rewrite titleSlug_unfold by done.
  case_decide.
  - rewrite lookup_take_lt by done. unfold replace_nonword.
    by rewrite list_lookup_fmap.
  - apply lookup_take_ge. lia.
Qed.

(** the title of the specification's example, ["My Test: Case #1"], slugs
    to ["My_Test__Case__1"]. *)
Theorem titleSlug_example :
  titleSlug (Some (str "My Test: Case #1")) = str "My_Test__Case__1".
Proof. vm_compute. reflexivity. Qed.

(** the image file named after a slug has at most 255 code units, all of
    them ASCII, so its name fits the 255-byte limit of a file name. *)
Theorem titleSlug_png_name t :
  (length (png_name (titleSlug t)) <= 255)%nat /\
  Forall (fun c => c < 128) (png_name (titleSlug t)).
Proof.
  unfold png_name. split.
  - rewrite length_app, length_str. pose proof (titleSlug_length t). simpl. lia.
  - apply Forall_app. split.
    + eapply Forall_weaken; [| apply titleSlug_word].
      intros c Hc. unfold is_word in Hc. lia.
    + vm_compute. repeat constructor.
Qed.

(** a title made of white space only is truthy, so line 355 uses its slug,
    and that slug is the empty string: the capture is named [".png"]. *)
Theorem titleSlug_blank s :
  s <> [] -> Forall (fun c => is_space c = true) s ->
  truthy (Some s) = true /\ titleSlug (Some s) = [].
Proof.
  intros Hs Hsp. split; [by apply truthy_Some |].
  rewrite titleSlug_unfold by done. unfold js_trim.
  by rewrite trim_by_all.
Qed.

Lemma titleSlug_blank_witness :
  truthy (Some (str "  ")) = true /\ titleSlug (Some (str "  ")) = [].
Proof. apply titleSlug_blank; vm_compute; [discriminate | by repeat constructor]. Defined.

Lemma titleSlug_lookup_witness :
  titleSlug (Some (str "a b")) !! 1%nat =
    if decide (1 < 251)%nat
    then (fun c => if is_word c then c else 95) <$> js_trim (str "a b") !! 1%nat
    else None.
Proof. apply (titleSlug_lookup (str "a b") 1). vm_compute. discriminate. Defined.

(** slugging is not injective: two different titles share a slug, so the
    second capture overwrites the first. *)
Theorem titleSlug_collision :
  str "a b" <> str "a_b" /\
  titleSlug (Some (str "a b")) = titleSlug (Some (str "a_b")).
Proof. split; vm_compute; [discriminate | reflexivity]. Qed.
