(* ===== verification/Jenkins.v ===== *)
(** * [formatJenkinsImageUrls]: the public URLs of a capture

    [formatJenkinsImageUrls] ([src/index.js]:66-99) reads four variables of
    the process environment and builds, from the directory the captures are
    saved in and the name of the image file, the URL of the image in the
    Jenkins workspace and the URL of the archived artifact.  It prints a
    diagnostic when a variable is missing; the diagnostics are the console
    entries the computation appends. *)

From S2P Require Import Prelude JsString Values.

#[local] Open Scope st_scope.

(** The variables of [process.env] the program reads (lines 67-70, 167).  A
    variable of the environment is a string or is not set. *)
Record Env : Type := mkEnv {
  JENKINS_URL : option jsstring;
  BUILD_URL : option jsstring;
  JOB_NAME : option jsstring;
  WORKSPACE : option jsstring;
}.

(** The object [formatJenkinsImageUrls] returns (lines 92-95). *)
Record imageUrls : Type := mkUrls {
  u_imageUrl : option jsstring;
  u_archivedImageUrl : option jsstring;
}.

Definition msg_no_workspace : jsstring :=
  str "nemo-screenshot was unable to format Jenkins image URLs: " ++
  str "WORKSPACE env variable is not defined".

Definition msg_no_job_name : jsstring :=
  str "nemo-screenshot was unable to format Jenkins workspace image URL: " ++
  str "JOB_NAME env variable is not defined".

Definition formatJenkinsImageUrls {E} (env : Env) (screenShotPath imageName : jsstring)
  : St console E (option imageUrls) :=
  let jenkinsUrl := JENKINS_URL env in
  let buildUrl := BUILD_URL env in
  let jobName := JOB_NAME env in
  let workspace := WORKSPACE env in
  if negb (truthy workspace) then
    console_log msg_no_workspace ;;
    st_ret None
  else
    let relImagePath := js_substr screenShotPath (js_length (to_str workspace)) in
    imageUrl <-
      (if truthy jobName then
         st_ret (Some (to_str jenkinsUrl ++ str "job/" ++ to_str jobName ++ str "/ws"
                       ++ relImagePath ++ str "/" ++ imageName))
       else
         console_log msg_no_job_name ;;
         st_ret None) ;;
    let archivedImageUrl :=
      if truthy buildUrl then
        Some (to_str buildUrl ++ str "artifact" ++ relImagePath ++ str "/" ++ imageName)
      else None in
    if truthy imageUrl || truthy archivedImageUrl then
      st_ret (Some {| u_imageUrl := imageUrl; u_archivedImageUrl := archivedImageUrl |})
    else st_ret None.

(** ** An abstract specification

    What the function promises, as a relation between the environment, the
    arguments and the result, for a capture directory that lies under the
    workspace ([screenShotPath = workspace ++ rel]). *)
Definition workspace_url (env : Env) (rel imageName : jsstring) : option jsstring :=
  if truthy (JOB_NAME env) then
    Some (to_str (JENKINS_URL env) ++ str "job/" ++ to_str (JOB_NAME env) ++ str "/ws"
          ++ rel ++ str "/" ++ imageName)
  else None.

Definition archive_url (env : Env) (rel imageName : jsstring) : option jsstring :=
  if truthy (BUILD_URL env) then
    Some (to_str (BUILD_URL env) ++ str "artifact" ++ rel ++ str "/" ++ imageName)
  else None.

Definition jenkins_spec (env : Env) (rel imageName : jsstring) : option imageUrls :=
  if truthy (WORKSPACE env) && (truthy (JOB_NAME env) || truthy (BUILD_URL env)) then
    Some {| u_imageUrl := workspace_url env rel imageName;
            u_archivedImageUrl := archive_url env rel imageName |}
  else None.

(** The part of the capture directory the function keeps, and the
    diagnostics it prints. *)
Definition jenkins_rel (env : Env) (screenShotPath : jsstring) : jsstring :=
  js_substr screenShotPath (js_length (to_str (WORKSPACE env))).

Definition jenkins_diag (env : Env) : console :=
  if negb (truthy (WORKSPACE env)) then [CLog msg_no_workspace]
  else if truthy (JOB_NAME env) then [] else [CLog msg_no_job_name].

(** ** Helper lemmas *)

Section FormatLemmas.
Context {E : Type} (env : Env) (imageName : jsstring) (c : console).

Local Abbreviation format p := (formatJenkinsImageUrls (E:=E) env p imageName c).

Lemma format_no_workspace p :
  truthy (WORKSPACE env) = false ->
  format p = (Ret None, c ++ [CLog msg_no_workspace]).
Proof. intros H. unfold formatJenkinsImageUrls. by rewrite H. Qed.

(** With a workspace, the result is the specification's, computed on what
    [substr] leaves of the capture directory. *)
Lemma format_workspace p ws :
  WORKSPACE env = Some ws -> truthy (Some ws) = true ->
  format p =
    (Ret (jenkins_spec env (drop (length ws) p) imageName),
     c ++ (if truthy (JOB_NAME env) then [] else [CLog msg_no_job_name])).
Proof.
  intros Hws Ht. unfold formatJenkinsImageUrls, jenkins_spec, workspace_url, archive_url.
  rewrite Hws, Ht, to_str_Some, js_substr_length. cbn [negb andb orb].
  unfold console_log.
  destruct (truthy (JOB_NAME env)), (truthy (BUILD_URL env)); st_run;
    rewrite ?truthy_app_str; cbn [orb truthy]; by rewrite ?app_nil_r.
Qed.

(** The function as a pure result and the diagnostics appended. *)
Lemma format_run p :
  format p = (Ret (jenkins_spec env (jenkins_rel env p) imageName), c ++ jenkins_diag env).
Proof.
  unfold jenkins_diag, jenkins_rel. destruct (truthy (WORKSPACE env)) eqn:Ht.
  - destruct (truthy_true _ Ht) as (a & s & Hws). rewrite Hws in Ht.
    rewrite (format_workspace p _ Hws Ht), Hws, to_str_Some, js_substr_length.
    by destruct (truthy (JOB_NAME env)).
  - rewrite format_no_workspace by done. unfold jenkins_spec. by rewrite Ht.
Qed.

End FormatLemmas.

Lemma jenkins_spec_is_Some env rel n :
  is_Some (jenkins_spec env rel n) <->
  truthy (WORKSPACE env) = true /\
  (truthy (JOB_NAME env) = true \/ truthy (BUILD_URL env) = true).
Proof.
  unfold jenkins_spec. rewrite is_Some_alt.
  destruct (truthy (WORKSPACE env)), (truthy (JOB_NAME env)), (truthy (BUILD_URL env));
    cbn [andb orb]; intuition discriminate.
Qed.

(** ** Properties *)

(** without [WORKSPACE] the function returns no URLs, whatever the other
    variables hold, and prints the diagnostic of lines 74-75. *)
Theorem formatJenkins_no_workspace {E} env p n (c : console) :
  truthy (WORKSPACE env) = false ->
  formatJenkinsImageUrls (E:=E) env p n c = (Ret None, c ++ [CLog msg_no_workspace]).
Proof. apply format_no_workspace. Qed.

Lemma formatJenkins_no_workspace_witness :
  formatJenkinsImageUrls (E:=nat)
    (mkEnv (Some (str "http://ci/")) (Some (str "http://ci/job/j/1/")) (Some (str "j")) None)
    (str "/w/report") (str "x.png") []
  = (Ret None, [CLog msg_no_workspace]).
Proof. apply (formatJenkins_no_workspace (E:=nat)). reflexivity. Defined.

(** C36: for a capture directory under the workspace ([ws ++ rel]) the function
    returns what the specification [jenkins_spec] gives for the relative
    path [rel]: a refinement of the abstract URL scheme. *)
Theorem formatJenkins_refines_spec {E} env ws rel n (c : console) :
  WORKSPACE env = Some ws ->
  (formatJenkinsImageUrls (E:=E) env (ws ++ rel) n c).1 = Ret (jenkins_spec env rel n).
Proof.
  intros Hws. destruct (truthy (Some ws)) eqn:Ht.
  - rewrite (format_workspace _ _ _ _ ws) by done. simpl. by rewrite drop_app_length.
  - rewrite format_no_workspace by by rewrite Hws.
    unfold jenkins_spec. by rewrite Hws, Ht.
Qed.

Lemma formatJenkins_refines_spec_witness :
  (formatJenkinsImageUrls (E:=nat)
     (mkEnv (Some (str "http://ci/")) None (Some (str "myjob")) (Some (str "/w")))
     (str "/w" ++ str "/report") (str "x.png") []).1
  = Ret (jenkins_spec
           (mkEnv (Some (str "http://ci/")) None (Some (str "myjob")) (Some (str "/w")))
           (str "/report") (str "x.png")).
Proof. apply (formatJenkins_refines_spec (E:=nat)). reflexivity. Defined.

(** the example of the specification: [WORKSPACE=/w], directory
    [/w/report], image [x.png], [JOB_NAME=myjob], [JENKINS_URL=http://ci/], no
    [BUILD_URL]. *)
Theorem formatJenkins_example :
  (formatJenkinsImageUrls (E:=nat)
     (mkEnv (Some (str "http://ci/")) None (Some (str "myjob")) (Some (str "/w")))
     (str "/w/report") (str "x.png") []).1
  = Ret (Some {| u_imageUrl := Some (str "http://ci/job/myjob/ws/report/x.png");
                 u_archivedImageUrl := None |}).
Proof. vm_compute. reflexivity. Qed.

(** C37: the function never throws, and it returns URLs exactly when
    [WORKSPACE] is set and one of [JOB_NAME] and [BUILD_URL] is. *)
Theorem formatJenkins_some_iff {E} env p n (c : console) :
  exists r, (formatJenkinsImageUrls (E:=E) env p n c).1 = Ret r /\
    (is_Some r <->
     truthy (WORKSPACE env) = true /\
     (truthy (JOB_NAME env) = true \/ truthy (BUILD_URL env) = true)).
Proof.
  destruct (truthy (WORKSPACE env)) eqn:Ht.
  - destruct (truthy_true _ Ht) as (a & s & Hws).
    assert (Ht' := Ht). rewrite Hws in Ht'.
    rewrite (format_workspace _ _ _ _ _ Hws Ht'). eexists. split; [done |].
    rewrite jenkins_spec_is_Some, Ht. tauto.
  - rewrite format_no_workspace by done. exists None. split; [done |].
    rewrite is_Some_alt. intuition discriminate.
Qed.

(** a returned object always carries a truthy URL, so a capture that got
    URLs from Jenkins is reported by URL, never as raw JSON. *)
Theorem formatJenkins_truthy_url {E} env p n (c : console) u :
  (formatJenkinsImageUrls (E:=E) env p n c).1 = Ret (Some u) ->
  truthy (u_imageUrl u) || truthy (u_archivedImageUrl u) = true.
Proof.
  destruct (truthy (WORKSPACE env)) eqn:Ht.
  - destruct (truthy_true _ Ht) as (a & s & Hws). rewrite Hws in Ht.
    rewrite (format_workspace _ _ _ _ _ Hws Ht).
    unfold jenkins_spec, workspace_url, archive_url. rewrite Hws, Ht.
    destruct (truthy (JOB_NAME env)) eqn:Hj, (truthy (BUILD_URL env)) eqn:Hb;
      cbn [andb orb fst]; intros [= <-]; cbn [u_imageUrl u_archivedImageUrl];
      rewrite ?truthy_app_str; reflexivity.
  - by rewrite format_no_workspace.
Qed.

Lemma formatJenkins_truthy_url_witness :
  truthy (Some (str "http://ci/job/myjob/ws/report/x.png")) || truthy None = true.
Proof.
  apply (formatJenkins_truthy_url (E:=nat)
           (mkEnv (Some (str "http://ci/")) None (Some (str "myjob")) (Some (str "/w")))
           (str "/w/report") (str "x.png") []
           (mkUrls (Some (str "http://ci/job/myjob/ws/report/x.png")) None)).
  vm_compute. reflexivity.
Defined.

(** the function never compares the capture directory with the workspace:
    its result depends on the directory only through what follows the first
    [length WORKSPACE] code units, so a directory outside the workspace
    yields the URL of some path below it. *)
Theorem formatJenkins_ignores_prefix {E} env ws p1 p2 n (c : console) :
  WORKSPACE env = Some ws ->
  drop (length ws) p1 = drop (length ws) p2 ->
  formatJenkinsImageUrls (E:=E) env p1 n c = formatJenkinsImageUrls (E:=E) env p2 n c.
Proof.
  intros Hws Hd. destruct (truthy (Some ws)) eqn:Ht.
  - by rewrite !(format_workspace _ _ _ _ ws), Hd.
  - by rewrite !format_no_workspace by by rewrite Hws.
Qed.

Lemma formatJenkins_ignores_prefix_witness :
  formatJenkinsImageUrls (E:=nat)
    (mkEnv (Some (str "http://ci/")) None (Some (str "j")) (Some (str "/w")))
    (str "/w/report") (str "x.png") []
  = formatJenkinsImageUrls (E:=nat)
    (mkEnv (Some (str "http://ci/")) None (Some (str "j")) (Some (str "/w")))
    (str "~~/report") (str "x.png") [].
Proof. by apply (formatJenkins_ignores_prefix (E:=nat)) with (ws := str "/w"). Defined.

(** the console only grows: the function appends at most two
    diagnostics and removes nothing. *)
Theorem formatJenkins_console {E} env p n (c : console) :
  exists msgs, (formatJenkinsImageUrls (E:=E) env p n c).2 = c ++ msgs /\
               (length msgs <= 1)%nat.
Proof.
  destruct (truthy (WORKSPACE env)) eqn:Ht.
  - destruct (truthy_true _ Ht) as (a & s & Hws). rewrite Hws in Ht.
    rewrite (format_workspace _ _ _ _ _ Hws Ht). simpl.
    eexists. split; [done |]. destruct (truthy (JOB_NAME env)); simpl; lia.
  - rewrite format_no_workspace by done. simpl. eexists. split; [done |]. simpl. lia.
Qed.
