(* ===== verification/StackTrace.v ===== *)
(** * [appendImageUrlToStackTrace]: where a capture is, in an error's stack

    [appendImageUrlToStackTrace] ([src/index.js]:45-64) appends to the stack
    trace of an error the location of the capture taken for it: the Jenkins
    URLs when the capture has any, and otherwise the capture object as JSON
    between two [nemo-screenshot] markers.  The error is mutated in place, so
    the function is a computation on the heap of error objects. *)

From S2P Require Import Prelude JsString Values.

#[local] Open Scope st_scope.

(** The line feed of the literals ['\n'] (lines 49, 51, 55, 58). *)
Definition nl : jsstring := [10%N].

(** The text appended to the stack (lines 46-59), for an [imageObject] whose
    properties can be read. *)
Definition stack_output (imageObject : value) : jsstring :=
  let imageUrl := get_imageUrl imageObject in
  let archivedImageUrl := get_archivedImageUrl imageObject in
  if truthy imageUrl || truthy archivedImageUrl then
    nl
    ++ (if truthy imageUrl
        then str "nemo-screenshot (workspace): " ++ to_str imageUrl ++ nl else [])
    ++ (if truthy archivedImageUrl
        then str "nemo-screenshot (archived): " ++ to_str archivedImageUrl ++ nl else [])
  else
    nl ++ str "nemo-screenshot::" ++ to_str (json_stringify imageObject)
       ++ str "::nemo-screenshot".

(** [err.stack = err.stack + output] *)
Definition append_stack (output : jsstring) (e : errObj) : errObj :=
  set_stack (Some (to_str (e_stack e) ++ output)) e.

Definition appendImageUrlToStackTrace (imageObject : value) (err : option eref)
  : St heap eref unit :=
  if negb (has_properties imageObject) then
    throw_TypeError
      match imageObject with
      | VNull => "Cannot read property 'imageUrl' of null"
      | _ => "Cannot read property 'imageUrl' of undefined"
      end
  else
    let output := stack_output imageObject in
    match err with
    | Some r => st_modify (alter (append_stack output) r)
    | None => st_ret tt
    end.

(** ** An abstract view: what an observer of the heap may rely on

    [stack_extends h h'] says that [h'] has every error object of [h], with
    the same name, message and handled mark, and with a stack that is the old
    stack followed by more text. *)
Definition err_extends (e e' : errObj) : Prop :=
  e_name e' = e_name e /\ e_message e' = e_message e /\
  e_handled e' = e_handled e /\
  exists more, e_stack e' = Some (to_str (e_stack e) ++ more) \/ (more = [] /\ e' = e).

Definition stack_extends (h h' : heap) : Prop :=
  forall r e, h !! r = Some e -> exists e', h' !! r = Some e' /\ err_extends e e'.

#[export] Hint Unfold appendImageUrlToStackTrace : world_unfold.

(** ** Helper lemmas *)

Lemma err_extends_refl e : err_extends e e.
Proof. repeat split. exists []. by right. Qed.

Lemma err_extends_append out e : err_extends e (append_stack out e).
Proof. repeat split. exists out. by left. Qed.

Lemma stack_extends_refl (h : heap) : stack_extends h h.
Proof. intros r e Hr. eauto using err_extends_refl. Qed.

Lemma stack_extends_alter (h : heap) r out :
  stack_extends h (alter (append_stack out) r h).
Proof.
  intros r' e Hr'. rewrite list_lookup_alter. case_decide as Hd.
  - subst r'. rewrite Hr'. eauto using err_extends_append.
  - eauto using err_extends_refl.
Qed.

Lemma stack_extends_alloc (h : heap) e : stack_extends h (h ++ [e]).
Proof.
  intros r e0 Hr. exists e0. split; [by apply lookup_app_l_Some |].
  apply err_extends_refl.
Qed.

Lemma stack_output_nl v : exists rest, stack_output v = 10%N :: rest.
Proof. unfold stack_output. destruct (_ || _); eauto. Qed.

(** ** Properties *)

(** C38: on an error [r] of the heap and a capture whose properties can be
    read, the function returns normally and leaves [r] with its name, its
    message and its mark, and with a stack that is the old stack, a line
    feed and the location of the capture: the workspace URL and the archive
    URL, each on a line of its own, for those the capture has, and otherwise
    the capture as JSON between two [nemo-screenshot] markers.  Nothing else
    of the heap changes. *)
Theorem appendImageUrl_spec v r (h : heap) e :
  has_properties v = true -> h !! r = Some e ->
  exists text,
    appendImageUrlToStackTrace v (Some r) h =
      (Ret tt,
       <[r := {| e_name := e_name e; e_message := e_message e;
                 e_stack := Some (to_str (e_stack e) ++ [10%N] ++ text);
                 e_handled := e_handled e |}]> h) /\
    let u := get_imageUrl v in
    let a := get_archivedImageUrl v in
    (truthy u = true -> truthy a = true ->
     text = str "nemo-screenshot (workspace): " ++ to_str u ++ [10%N]
            ++ str "nemo-screenshot (archived): " ++ to_str a ++ [10%N]) /\
    (truthy u = true -> truthy a = false ->
     text = str "nemo-screenshot (workspace): " ++ to_str u ++ [10%N]) /\
    (truthy u = false -> truthy a = true ->
     text = str "nemo-screenshot (archived): " ++ to_str a ++ [10%N]) /\
    (truthy u = false -> truthy a = false ->
     text = str "nemo-screenshot::" ++ to_str (json_stringify v)
            ++ str "::nemo-screenshot").
Proof.
  intros Hv Hr. unfold appendImageUrlToStackTrace. rewrite Hv. st_run.
  rewrite (list_alter_lookup _ _ _ _ Hr). unfold append_stack, set_stack, stack_output, nl.
  destruct (truthy (get_imageUrl v)), (truthy (get_archivedImageUrl v)); cbn [orb];
    eexists; (split; [reflexivity |]); cbn zeta; repeat split; intros; try done;
    by rewrite <- ?app_assoc, ?app_nil_r.
Qed.

Lemma appendImageUrl_spec_witness :
  exists text,
    appendImageUrlToStackTrace (VBool true) (Some 0%nat)
      [mkErr (str "Error") (str "boom") (Some (str "Error: boom")) false] =
    (Ret tt,
     [mkErr (str "Error") (str "boom") (Some (str "Error: boom" ++ [10%N] ++ text)) false]) /\
    text = str "nemo-screenshot::" ++ str "true" ++ str "::nemo-screenshot".
Proof.
  destruct (appendImageUrl_spec (VBool true) 0
              [mkErr (str "Error") (str "boom") (Some (str "Error: boom")) false] _
              eq_refl eq_refl) as (text & Heq & _ & _ & _ & Ht).
  exists text. split; [exact Heq | by apply Ht].
Defined.

(** the annotation is a display-only enrichment: whatever the arguments,
    every error object of the heap keeps its name, its message and its
    handled mark, and its old stack is a prefix of its new one. *)
Theorem appendImageUrl_extends v err (h : heap) :
  stack_extends h (appendImageUrlToStackTrace v err h).2.
Proof.
  unfold appendImageUrlToStackTrace, throw_TypeError, heap_alloc.
  destruct (has_properties v); cbn [negb]; st_run.
  - destruct err; cbn [snd]; auto using stack_extends_alter, stack_extends_refl.
  - apply stack_extends_alloc.
Qed.

(** without an error to annotate ([err] undefined) the heap is left as it
    is. *)
Theorem appendImageUrl_no_error v (h : heap) :
  has_properties v = true ->
  appendImageUrlToStackTrace v None h = (Ret tt, h).
Proof. intros Hv. unfold appendImageUrlToStackTrace. by rewrite Hv. Qed.

Lemma appendImageUrl_no_error_witness :
  appendImageUrlToStackTrace (VBool true) None [] = (Ret tt, []).
Proof. by apply appendImageUrl_no_error. Defined.

(** for the value [true], which [snap] resolves with when there is no
    session, the appended text is the JSON marker line with [true] in it. *)
Theorem stack_output_sentinel :
  stack_output (VBool true) = nl ++ str "nemo-screenshot::true::nemo-screenshot".
Proof. vm_compute. reflexivity. Qed.

(** a capture with a workspace URL only is reported by that URL, on a
    line of its own. *)
Theorem stack_output_workspace n p url :
  truthy (Some url) = true ->
  stack_output (VImage (mkImage n p (Some url) None)) =
    nl ++ str "nemo-screenshot (workspace): " ++ url ++ nl.
Proof.
  intros Hu. unfold stack_output. cbn [get_imageUrl get_archivedImageUrl imageUrl archivedImageUrl].
  rewrite Hu. cbn [orb truthy]. by rewrite app_nil_r.
Qed.

Lemma stack_output_workspace_witness :
  stack_output (VImage (mkImage (str "x.png") (str "/r/x.png") (Some (str "http://ci/x")) None)) =
    nl ++ str "nemo-screenshot (workspace): " ++ str "http://ci/x" ++ nl.
Proof. apply stack_output_workspace. vm_compute. reflexivity. Defined.

(** a capture without URLs is reported as JSON, with its name and path
    and no other member. *)
Theorem stack_output_json n p :
  stack_output (VImage (mkImage n p None None)) =
    nl ++ str "nemo-screenshot::"
       ++ str "{" ++ json_quote (str "imageName") ++ str ":" ++ json_quote n
       ++ str "," ++ json_quote (str "imagePath") ++ str ":" ++ json_quote p ++ str "}"
       ++ str "::nemo-screenshot".
Proof.
  unfold stack_output, json_stringify, json_object, json_member.
  cbn [get_imageUrl get_archivedImageUrl imageUrl archivedImageUrl imageName imagePath
       truthy orb to_str app join_with].
  by rewrite <- !app_assoc.
Qed.
