(* ===== verification/Path.v ===== *)
(** * Paths: the interface the capture service uses and its POSIX instance

    [snap] and [source] compute the path of the file they write with
    [path.resolve], [path.join] and [path.dirname] ([src/index.js]:157-161,
    275-276, 289-293).  [PathOps] is that interface; the capture service is
    written and proved against it and its law [PathLaws].  [posix_path]
    implements it as Node's [path.posix] does, on strings of code units. *)

From S2P Require Import Prelude JsString.

#[local] Open Scope N_scope.

(** The operations of the [path] module the source calls.  [path_resolve]
    takes the current working directory, which [path.resolve] reads from the
    process. *)
Class PathOps : Type := {
  path_resolve : jsstring -> jsstring -> jsstring;
  path_join : jsstring -> jsstring -> jsstring;
  path_dirname : jsstring -> jsstring;
  path_absolute : jsstring -> bool;
  path_root : jsstring;
  path_sep : N;
}.

(** A canonical path is one [path_resolve] leaves as it is: absolute and
    normalised. *)
Definition canonical `{PathOps} (p : jsstring) : Prop :=
  path_resolve path_root p = p.

(** What the capture service and the file-system operations need of the
    path functions: the paths they build are canonical, and walking up from a
    canonical path ends at the root, because the parent of a canonical path
    is shorter unless the path is the root.  The separator is [/] or [\]:
    not a letter, a digit or an underscore. *)
Class PathLaws `{PathOps} : Prop := {
  root_absolute : path_absolute path_root = true;
  resolve_canonical cwd p :
    path_absolute cwd = true -> canonical (path_resolve cwd p);
  resolve_id cwd p : canonical p -> path_resolve cwd p = p;
  join_canonical d n c :
    canonical d -> c <> path_sep -> canonical (path_join d (n ++ [c]));
  dirname_canonical p : canonical p -> canonical (path_dirname p);
  dirname_root : path_dirname path_root = path_root;
  dirname_shorter p :
    canonical p -> p <> path_root -> (length (path_dirname p) < length p)%nat;
  sep_not_word : is_word path_sep = false;
}.

(** ** Node's [path.posix] *)

Definition slash : N := 47.
Definition dot : N := 46.

Definition is_slash (c : N) : bool := c =? slash.

(** The segments between slashes, empty ones included. *)
Fixpoint split_slash (s : jsstring) : list jsstring :=
  match s with
  | [] => [[]]
  | c :: s' =>
    if is_slash c then [] :: split_slash s'
    else match split_slash s' with
         | seg :: segs => (c :: seg) :: segs
         | [] => [[c]]
         end
  end.

Fixpoint join_slash (segs : list jsstring) : jsstring :=
  match segs with
  | [] => []
  | [seg] => seg
  | seg :: segs' => seg ++ slash :: join_slash segs'
  end.

(** [normalizeString]: [acc] holds the segments kept so far, last first.  An
    empty segment and [.] are dropped; [..] removes the last kept segment,
    and is kept itself when there is none to remove (or only [..]) and the
    path may climb above its start. *)
Fixpoint normalize_segments (allowAboveRoot : bool) (acc segs : list jsstring)
  : list jsstring :=
  match segs with
  | [] => reverse acc
  | seg :: segs' =>
    if bool_decide (seg = []) || bool_decide (seg = [dot]) then
      normalize_segments allowAboveRoot acc segs'
    else if bool_decide (seg = [dot; dot]) then
      match acc with
      | last :: acc' =>
        if bool_decide (last = [dot; dot])
        then normalize_segments allowAboveRoot (seg :: acc) segs'
        else normalize_segments allowAboveRoot acc' segs'
      | [] =>
        if allowAboveRoot
        then normalize_segments allowAboveRoot [seg] segs'
        else normalize_segments allowAboveRoot [] segs'
      end
    else normalize_segments allowAboveRoot (seg :: acc) segs'
  end.

Definition normalizeString (s : jsstring) (allowAboveRoot : bool) : jsstring :=
  join_slash (normalize_segments allowAboveRoot [] (split_slash s)).

Definition isAbsolute (s : jsstring) : bool :=
  match s with
  | c :: _ => is_slash c
  | [] => false
  end.

Definition ends_with_slash (s : jsstring) : bool :=
  match reverse s with
  | c :: _ => is_slash c
  | [] => false
  end.

(** [path.posix.normalize] *)
Definition posix_normalize (s : jsstring) : jsstring :=
  match s with
  | [] => [dot]
  | _ =>
    let body := normalizeString s (negb (isAbsolute s)) in
    let body :=
      match body with
      | [] => if isAbsolute s then [] else if ends_with_slash s then [dot; slash] else [dot]
      | _ => if ends_with_slash s then body ++ [slash] else body
      end in
    if isAbsolute s then slash :: body else body
  end.

(** [path.posix.resolve(p)] with one argument, in a process whose working
    directory is [cwd] (an absolute path). *)
Definition posix_resolve (cwd p : jsstring) : jsstring :=
  let full :=
    match p with
    | [] => cwd
    | _ => if isAbsolute p then p else cwd ++ slash :: p
    end in
  if isAbsolute full then slash :: normalizeString full false
  else match normalizeString full true with
       | [] => [dot]
       | r => r
       end.

(** [path.posix.join(a, b)] *)
Definition posix_join (a b : jsstring) : jsstring :=
  match a, b with
  | [], [] => [dot]
  | [], _ => posix_normalize b
  | _, [] => posix_normalize a
  | _, _ => posix_normalize (a ++ slash :: b)
  end.

(** [path.posix.dirname]: scanning from the end, trailing slashes and then
    the last segment are skipped; what precedes the slash found is the
    result.  The first code unit is never scanned. *)
Definition posix_dirname (s : jsstring) : jsstring :=
  match s with
  | [] => [dot]
  | c :: body =>
    let scanned := drop_while (fun x => negb (is_slash x))
                     (drop_while is_slash (reverse body)) in
    match scanned with
    | [] => if is_slash c then [slash] else [dot]
    | _ :: before =>
      match before with
      | [] => if is_slash c then [slash; slash] else [c]
      | _ => c :: reverse before
      end
    end
  end.

#[export] Instance posix_path : PathOps := {
  path_resolve := posix_resolve;
  path_join := posix_join;
  path_dirname := posix_dirname;
  path_absolute := isAbsolute;
  path_root := [slash];
  path_sep := slash;
}.

(** ** Canonical paths of [path.posix]

    A canonical POSIX path is a slash followed by clean segments joined by
    slashes: no segment is empty, [.] or [..], and none holds a slash. *)

Definition slash_free (seg : jsstring) : Prop := Forall (fun c => is_slash c = false) seg.

Definition clean_seg (seg : jsstring) : Prop :=
  seg <> [] /\ seg <> [dot] /\ seg <> [dot; dot] /\ slash_free seg.

Definition canon_of (segs : list jsstring) : jsstring := slash :: join_slash segs.

(** ** Splitting and joining *)

Lemma split_slash_nonempty s : split_slash s <> [].
Proof.
  destruct s as [|c s]; simpl; [done |].
  destruct (is_slash c); [done |]. by destruct (split_slash s).
Qed.

Lemma split_slash_slash_free s : Forall slash_free (split_slash s).
Proof.
  induction s as [|c s IH]; simpl; [by repeat constructor |].
  destruct (is_slash c) eqn:Hc; [constructor; [constructor | done] |].
  destruct (split_slash s) as [|seg segs]; [by repeat constructor |].
  inversion IH; subst. constructor; [by constructor | done].
Qed.

Lemma join_split_slash s : join_slash (split_slash s) = s.
Proof.
  induction s as [|c s IH]; simpl; [done |].
  destruct (is_slash c) eqn:Hc.
  - apply N.eqb_eq in Hc as ->. pose proof (split_slash_nonempty s).
    destruct (split_slash s); [done |]. simpl in *. by rewrite IH.
  - destruct (split_slash s) as [|seg [|seg' segs]]; simpl in *; by rewrite <- IH.
Qed.

Lemma split_slash_free seg : slash_free seg -> split_slash seg = [seg].
Proof.
  induction 1 as [|c seg Hc _ IH]; simpl; [done |]. by rewrite Hc, IH.
Qed.

Lemma split_slash_app s t : split_slash (s ++ slash :: t) = split_slash s ++ split_slash t.
Proof.
  induction s as [|c s IH]; simpl; [done |].
  destruct (is_slash c); [by rewrite IH |]. rewrite IH.
  pose proof (split_slash_nonempty s). by destruct (split_slash s).
Qed.

Lemma split_join_slash segs :
  segs <> [] -> Forall slash_free segs -> split_slash (join_slash segs) = segs.
Proof.
  intros Hne Hf. induction Hf as [|seg segs Hseg Hf IH]; [done |].
  destruct segs as [|seg' segs]; simpl; [by apply split_slash_free |].
  rewrite split_slash_app, split_slash_free by done. simpl. f_equal. by apply IH.
Qed.

Lemma join_slash_snoc segs seg :
  segs <> [] -> join_slash (segs ++ [seg]) = join_slash segs ++ slash :: seg.
Proof.
  induction segs as [|s segs IH]; [done |]. intros _.
  destruct segs as [|s' segs]; [done |].
  change (join_slash ((s :: s' :: segs) ++ [seg]))
    with (s ++ slash :: join_slash ((s' :: segs) ++ [seg])).
  rewrite IH by done. simpl. by rewrite <- app_assoc.
Qed.

Lemma join_slash_nonempty segs : segs <> [] -> Forall clean_seg segs -> join_slash segs <> [].
Proof.
  destruct 2 as [|seg segs (Hne & _) _]; [done |].
  destruct seg; [done |]. by destruct segs.
Qed.

(** ** Normalisation *)

Lemma clean_seg_tests seg :
  clean_seg seg ->
  bool_decide (seg = []) || bool_decide (seg = [dot]) = false /\
  bool_decide (seg = [dot; dot]) = false.
Proof.
  intros (H1 & H2 & H3 & _). by rewrite !bool_decide_eq_false_2.
Qed.

Lemma normalize_segments_clean b segs : forall acc,
  Forall clean_seg segs -> normalize_segments b acc segs = reverse acc ++ segs.
Proof.
  induction segs as [|seg segs IH]; intros acc Hc; simpl.
  - by rewrite app_nil_r.
  - inversion Hc as [|?? Hseg Hsegs]; subst.
    destruct (clean_seg_tests _ Hseg) as [-> ->].
    rewrite IH by done. by rewrite reverse_cons, <- app_assoc.
Qed.

Lemma normalize_segments_cleans segs : forall acc,
  Forall slash_free segs -> Forall clean_seg acc ->
  Forall clean_seg (normalize_segments false acc segs).
Proof.
  induction segs as [|seg segs IH]; intros acc Hs Ha; simpl.
  - by apply Forall_reverse.
  - inversion Hs as [|?? Hseg Hsegs]; subst.
    destruct (bool_decide (seg = [])) eqn:H1; [by apply IH |].
    destruct (bool_decide (seg = [dot])) eqn:H2; [by apply IH |]. simpl.
    destruct (bool_decide (seg = [dot; dot])) eqn:H3.
    + destruct Ha as [|last acc Hl Ha]; [by apply IH |].
      destruct (clean_seg_tests _ Hl) as [_ ->]. by apply IH.
    + apply IH; [done |]. constructor; [| done].
      apply bool_decide_eq_false in H1, H2, H3. done.
Qed.

Lemma normalizeString_clean s :
  exists segs, Forall clean_seg segs /\ normalizeString s false = join_slash segs.
Proof.
  eexists. split; [| done].
  apply normalize_segments_cleans; [apply split_slash_slash_free | constructor].
Qed.

Lemma normalizeString_canon segs b :
  Forall clean_seg segs -> normalizeString (canon_of segs) b = join_slash segs.
Proof.
  intros Hc. unfold normalizeString, canon_of. f_equal.
  change (slash :: join_slash segs) with ([] ++ slash :: join_slash segs).
  rewrite split_slash_app. simpl.
  destruct segs as [|seg segs]; [done |].
  rewrite split_join_slash; [| done |].
  - by rewrite normalize_segments_clean.
  - eapply Forall_weaken; [| exact Hc]. by intros ? (_ & _ & _ & ?).
Qed.

(** ** [resolve], [join] and [dirname] on canonical paths *)

Lemma posix_resolve_absolute cwd p :
  isAbsolute p = true -> posix_resolve cwd p = slash :: normalizeString p false.
Proof. intros Hp. unfold posix_resolve. destruct p; [done |]. by rewrite !Hp. Qed.

Lemma posix_resolve_form cwd p :
  isAbsolute cwd = true ->
  exists segs, Forall clean_seg segs /\ posix_resolve cwd p = canon_of segs.
Proof.
  intros Hcwd. unfold posix_resolve.
  set (full := match p with [] => cwd | _ => _ end).
  assert (isAbsolute full = true) as ->.
  { unfold full. destruct p as [|c p]; [done |].
    destruct (isAbsolute (c :: p)) eqn:Hp; [done |]. by destruct cwd. }
  destruct (normalizeString_clean full) as (segs & Hc & ->). by exists segs.
Qed.

Lemma posix_resolve_canon cwd segs :
  Forall clean_seg segs -> posix_resolve cwd (canon_of segs) = canon_of segs.
Proof.
  intros Hc. rewrite posix_resolve_absolute by reflexivity.
  by rewrite normalizeString_canon.
Qed.

Lemma posix_canonical_iff p :
  canonical p <-> exists segs, Forall clean_seg segs /\ p = canon_of segs.
Proof.
  unfold canonical. simpl. split.
  - intros <-. by apply posix_resolve_form.
  - intros (segs & Hc & ->). by apply posix_resolve_canon.
Qed.

Lemma posix_join_form d n c :
  isAbsolute d = true -> c <> slash ->
  exists segs, Forall clean_seg segs /\ posix_join d (n ++ [c]) = canon_of segs.
Proof.
  intros Hd Hc. destruct d as [|x d]; [done |]. unfold posix_join.
  destruct (n ++ [c]) as [|y b] eqn:Hb; [by destruct n |]. rewrite <- Hb.
  unfold posix_normalize. simpl app. simpl isAbsolute. simpl in Hd. rewrite Hd. simpl negb.
  assert (ends_with_slash (x :: d ++ slash :: n ++ [c]) = false) as ->.
  { unfold ends_with_slash.
    replace (x :: d ++ slash :: n ++ [c]) with ((x :: d ++ slash :: n) ++ [c])
      by (simpl; by rewrite <- app_assoc).
    rewrite reverse_snoc. unfold is_slash. by apply N.eqb_neq. }
  destruct (normalizeString_clean (x :: d ++ slash :: n ++ [c])) as (segs & Hcl & ->).
  exists segs. split; [done |]. unfold canon_of. by destruct (join_slash segs).
Qed.

Lemma clean_seg_reverse seg :
  clean_seg seg -> exists c r, reverse seg = c :: r /\ is_slash c = false /\
                               Forall (fun x => negb (is_slash x) = true) (reverse seg).
Proof.
  intros (Hne & _ & _ & Hf).
  assert (Forall (fun x => is_slash x = false) (reverse seg)) as Hr by by apply Forall_reverse.
  destruct (reverse seg) as [|c r] eqn:Hrev.
  - apply (f_equal reverse) in Hrev. by rewrite reverse_involutive in Hrev.
  - exists c, r. inversion Hr; subst. split; [done |]. split; [done |].
    eapply Forall_weaken; [| exact Hr]. by intros ? ->.
Qed.

Lemma posix_dirname_snoc segs seg :
  Forall clean_seg segs -> clean_seg seg ->
  posix_dirname (canon_of (segs ++ [seg])) = canon_of segs.
Proof.
  intros Hs Hseg. unfold posix_dirname, canon_of.
  destruct (clean_seg_reverse _ Hseg) as (c & r & Hrev & Hc & Hall).
  destruct segs as [|s0 segs].
  - simpl join_slash. rewrite Hrev. simpl. rewrite Hc.
    by rewrite <- Hrev, drop_while_all.
  - rewrite join_slash_snoc, reverse_app, reverse_cons, <- app_assoc by done.
    assert (Hd1 : forall X, drop_while is_slash (reverse seg ++ X) = reverse seg ++ X).
    { intros X. apply drop_while_id. rewrite Hrev. simpl. by rewrite Hc. }
    rewrite Hd1, drop_while_app_all by done.
    cbn [app drop_while]. change (is_slash slash) with true. cbn [negb].
    pose proof (join_slash_nonempty (s0 :: segs)) as Hne.
    destruct (reverse (join_slash (s0 :: segs))) as [|y before] eqn:Hb.
    + apply (f_equal reverse) in Hb. rewrite reverse_involutive in Hb.
      by destruct Hne.
    + rewrite <- Hb. by rewrite reverse_involutive.
Qed.

Lemma canon_of_length_snoc segs seg :
  clean_seg seg -> (length (canon_of segs) < length (canon_of (segs ++ [seg])))%nat.
Proof.
  intros (Hne & _). unfold canon_of. simpl. destruct segs as [|s0 segs].
  - destruct seg; [done |]. simpl. lia.
  - rewrite join_slash_snoc by done. rewrite length_app. simpl. lia.
Qed.

(** ** [join] with a clean name *)

Lemma ends_with_slash_snoc s c : ends_with_slash (s ++ [c]) = is_slash c.
Proof. unfold ends_with_slash. by rewrite reverse_snoc. Qed.

Lemma clean_seg_snoc seg : clean_seg seg -> exists r c, seg = r ++ [c] /\ is_slash c = false.
Proof.
  intros (Hne & _ & _ & Hf). destruct seg as [|x seg _] using rev_ind; [done |].
  exists seg, x. split; [done |]. apply Forall_app in Hf as [_ Hx]. by inversion Hx.
Qed.

Lemma canon_of_snoc segs seg :
  canon_of (segs ++ [seg]) =
  match segs with [] => slash :: seg | _ => canon_of segs ++ slash :: seg end.
Proof.
  unfold canon_of. destruct segs as [|s segs]; [done |].
  by rewrite join_slash_snoc.
Qed.

Lemma posix_normalize_canon segs seg :
  Forall clean_seg segs -> clean_seg seg ->
  posix_normalize (canon_of (segs ++ [seg])) = canon_of (segs ++ [seg]).
Proof.
  intros Hs Hseg. unfold posix_normalize.
  assert (Forall clean_seg (segs ++ [seg])) as Hall by (apply Forall_app; auto).
  change (isAbsolute (canon_of (segs ++ [seg]))) with true. cbn [negb].
  rewrite normalizeString_canon by done.
  assert (ends_with_slash (canon_of (segs ++ [seg])) = false) as ->.
  { destruct (clean_seg_snoc _ Hseg) as (r & c & -> & Hc). rewrite canon_of_snoc.
    destruct segs; rewrite ?app_comm_cons, ?app_assoc; by rewrite ends_with_slash_snoc. }
  pose proof (join_slash_nonempty (segs ++ [seg])) as Hne.
  unfold canon_of. destruct (join_slash (segs ++ [seg])) eqn:Hj; [| done].
  destruct Hne; [by destruct segs | done | done].
Qed.

Lemma normalize_segments_empty b acc segs :
  normalize_segments b acc ([] :: segs) = normalize_segments b acc segs.
Proof. done. Qed.

(** Joining a clean name to a canonical directory appends it as the last
    segment. *)
Lemma posix_join_clean segs seg :
  Forall clean_seg segs -> clean_seg seg ->
  posix_join (canon_of segs) seg = canon_of (segs ++ [seg]).
Proof.
  intros Hs Hseg. assert (Hne := proj1 Hseg).
  destruct seg as [|x seg]; [done |].
  change (posix_join (canon_of segs) (x :: seg))
    with (posix_normalize (canon_of segs ++ slash :: x :: seg)).
  destruct segs as [|s segs].
  - change (canon_of [] ++ slash :: x :: seg) with (slash :: slash :: x :: seg).
    unfold posix_normalize. cbn [isAbsolute].
    change (is_slash slash) with true. cbn [negb].
    assert (normalizeString (slash :: slash :: x :: seg) false = x :: seg) as ->.
    { unfold normalizeString.
      change (slash :: slash :: x :: seg) with ([] ++ slash :: [] ++ slash :: x :: seg).
      rewrite !split_slash_app, (split_slash_free (x :: seg)) by apply Hseg.
      cbn [split_slash app]. rewrite !normalize_segments_empty.
      by rewrite normalize_segments_clean by by constructor. }
    destruct (clean_seg_snoc _ Hseg) as (r & c & Hr & Hc).
    by rewrite Hr, !app_comm_cons, ends_with_slash_snoc, Hc.
  - rewrite <- (posix_normalize_canon (s :: segs) (x :: seg)) by done.
    by rewrite canon_of_snoc.
Qed.

(** A name without a slash, with an extension that starts with a dot and
    goes on, is a clean segment. *)
Lemma clean_seg_ext f c ext :
  slash_free f -> slash_free (dot :: c :: ext) -> c <> dot ->
  clean_seg (f ++ dot :: c :: ext).
Proof.
  intros Hf He Hc. split; [by destruct f |]. split; [by destruct f as [|? [|]] |].
  split; [| by apply Forall_app].
  destruct f as [|? [|? [|]]]; try done. by intros [= -> ->].
Qed.

#[export] Instance posix_path_laws : PathLaws.
Proof.
  split.
  - done.
  - intros cwd p Hcwd. apply posix_canonical_iff. by apply posix_resolve_form.
  - intros cwd p (segs & Hc & ->)%posix_canonical_iff. by apply posix_resolve_canon.
  - intros d n c (segs & Hc & ->)%posix_canonical_iff Hne.
    apply posix_canonical_iff. by apply posix_join_form.
  - intros p (segs & Hc & ->)%posix_canonical_iff. apply posix_canonical_iff.
    destruct segs as [|seg segs _] using rev_ind; [by exists [] |].
    apply Forall_app in Hc as [Hs Hseg]. inversion Hseg; subst.
    exists segs. split; [done |]. by apply posix_dirname_snoc.
  - done.
  - intros p (segs & Hc & ->)%posix_canonical_iff Hr.
    destruct segs as [|seg segs _] using rev_ind; [done |].
    apply Forall_app in Hc as [Hs Hseg]. inversion Hseg; subst.
    cbn [path_dirname posix_path]. rewrite posix_dirname_snoc by done.
    by apply canon_of_length_snoc.
  - done.
Qed.
