(* ===== verification/Fs.v ===== *)
(** * The file system and the directory-ensure step

    [snap] and [source] create the directory of the file they are about to
    write with [mkdirp.sync] and write the file with [fs.writeFile]
    ([src/index.js]:161, 176, 278, 293, 299).  This file models the file
    system they act on: a finite map from canonical paths to nodes, the
    system calls [mkdir] and [stat], the recursion of [mkdirp.sync] over
    them, and the effect of a completed [writeFile].  The recursion of
    [mkdirp.sync] consumes call stack: its fuel is the stack depth left, and
    running out of it is a stack overflow. *)

From stdpp Require Import gmap.
From S2P Require Import Prelude JsString Path.

(** How [writeFile] decodes its data: [{encoding: 'base64'}] at line 177,
    the default UTF-8 at lines 278 and 299.  A file keeps the text written
    and its encoding; the bytes on disk are that text decoded. *)
Inductive encoding : Type := Utf8 | Base64.

Inductive fnode : Type :=
| Dir
| File (enc : encoding) (data : jsstring).

#[export] Instance encoding_eq_dec : EqDecision encoding.
Proof. solve_decision. Defined.
#[export] Instance fnode_eq_dec : EqDecision fnode.
Proof. solve_decision. Defined.

(** The nodes by path, and the paths at which the system refuses to create
    or write (a permission the process lacks). *)
Record Fs : Type := mkFs {
  fs_nodes : gmap (list N) fnode;
  fs_denied : gset (list N);
}.

Inductive fs_error : Type := ENOENT | ENOTDIR | EEXIST | EACCES | EISDIR.

#[export] Instance fs_error_eq_dec : EqDecision fs_error.
Proof. solve_decision. Defined.

(** Why [mkdirp.sync] threw: a system call failed, or the stack ran out. *)
Inductive mkdirp_error : Type :=
| SysError (code : fs_error) (path : jsstring)
| StackOverflow.

Definition is_dir (fs : Fs) (p : jsstring) : bool :=
  bool_decide (fs_nodes fs !! p = Some Dir).

Definition add_node (p : jsstring) (n : fnode) (fs : Fs) : Fs :=
  {| fs_nodes := <[p := n]> (fs_nodes fs); fs_denied := fs_denied fs |}.

Section FsOps.
Context `{PathOps}.

(** The check every call makes on the parent directory of the path. *)
Definition check_parent (fs : Fs) (p : jsstring) : option fs_error :=
  match fs_nodes fs !! path_dirname p with
  | None => Some ENOENT
  | Some (File _ _) => Some ENOTDIR
  | Some Dir => None
  end.

(** [fs.mkdirSync(p)] *)
Definition mkdirSync (p : jsstring) (fs : Fs) : fs_error + Fs :=
  match check_parent fs p with
  | Some e => inl e
  | None =>
    match fs_nodes fs !! p with
    | Some _ => inl EEXIST
    | None =>
      if bool_decide (p ∈ fs_denied fs) then inl EACCES
      else inr (add_node p Dir fs)
    end
  end.

(** [mkdirp.sync(p0)]: try [mkdir]; when a parent is missing, make the
    parent and try again; on any other failure succeed if the path is a
    directory already, and fail with the first error otherwise. *)
Fixpoint mkdirp_sync (depth : nat) (cwd p0 : jsstring) (fs : Fs) : mkdirp_error + Fs :=
  let p := path_resolve cwd p0 in
  match mkdirSync p fs with
  | inr fs' => inr fs'
  | inl ENOENT =>
    match depth with
    | O => inl StackOverflow
    | S depth' =>
      match mkdirp_sync depth' cwd (path_dirname p) fs with
      | inr fs1 => mkdirp_sync depth' cwd p fs1
      | inl e => inl e
      end
    end
  | inl err0 => if is_dir fs p then inr fs else inl (SysError err0 p)
  end.

(** A directory [mkdirp.sync] can make with [depth] frames of stack: it
    exists, or it is absent, the system does not refuse it, and its parent
    can be made with one frame less. *)
Fixpoint makeable (depth : nat) (fs : Fs) (p : jsstring) : bool :=
  is_dir fs p ||
  (bool_decide (fs_nodes fs !! p = None) && bool_decide (p ∉ fs_denied fs) &&
   match depth with
   | O => false
   | S depth' => makeable depth' fs (path_dirname p)
   end).

(** What a completed [fs.writeFile(p, data, {encoding})] does: the file is
    created or replaced, unless the path is a directory, its parent is not
    one, or the system refuses. *)
Definition fs_write (p : jsstring) (enc : encoding) (data : jsstring) (fs : Fs)
  : fs_error + Fs :=
  if is_dir fs p then inl EISDIR
  else match check_parent fs p with
       | Some e => inl e
       | None =>
         if bool_decide (p ∈ fs_denied fs) then inl EACCES
         else inr (add_node p (File enc data) fs)
       end.

(** ** Well-formed file systems *)

(** The root is a directory and every other node lies in a directory. *)
Definition fs_wf (fs : Fs) : Prop :=
  fs_nodes fs !! path_root = Some Dir /\
  forall p n, fs_nodes fs !! p = Some n -> p <> path_root ->
              fs_nodes fs !! path_dirname p = Some Dir.

(** [fs'] has every node of [fs], and what it has more are directories. *)
Definition fs_grows (fs fs' : Fs) : Prop :=
  fs_denied fs' = fs_denied fs /\
  forall p, match fs_nodes fs !! p with
            | Some n => fs_nodes fs' !! p = Some n
            | None => fs_nodes fs' !! p = None \/ fs_nodes fs' !! p = Some Dir
            end.

End FsOps.

(** Well-formedness can be decided, so it can be checked on a given file
    system by computation. *)
#[export] Instance fs_wf_dec `{PathOps} (fs : Fs) : Decision (fs_wf fs).
Proof.
  unfold fs_wf. apply and_dec; [apply _ |].
  apply (map_Forall_dec (fun p (n : fnode) =>
           p <> path_root -> fs_nodes fs !! path_dirname p = Some Dir)).
Defined.

(** A file system with the directories of a home directory. *)
Definition home_fs : Fs :=
  {| fs_nodes := {[ str "/" := Dir; str "/home" := Dir; str "/home/u" := Dir ]};
     fs_denied := ∅ |}.

(** ** Lemmas on the system calls *)

Section FsLemmas.
Context `{PathLaws}.

Lemma is_dir_true fs p : is_dir fs p = true <-> fs_nodes fs !! p = Some Dir.
Proof. unfold is_dir. by rewrite bool_decide_eq_true. Qed.

Lemma check_parent_None fs p :
  check_parent fs p = None <-> fs_nodes fs !! path_dirname p = Some Dir.
Proof.
  unfold check_parent. destruct (fs_nodes fs !! path_dirname p) as [[]|]; naive_solver.
Qed.

Lemma check_parent_ENOENT fs p :
  check_parent fs p = Some ENOENT <-> fs_nodes fs !! path_dirname p = None.
Proof.
  unfold check_parent. destruct (fs_nodes fs !! path_dirname p) as [[]|]; naive_solver.
Qed.

Lemma mkdirSync_inr p fs fs' :
  mkdirSync p fs = inr fs' ->
  fs' = add_node p Dir fs /\ fs_nodes fs !! p = None /\
  fs_nodes fs !! path_dirname p = Some Dir /\ p ∉ fs_denied fs.
Proof.
  unfold mkdirSync. destruct (check_parent fs p) eqn:Hc; [done |].
  apply check_parent_None in Hc.
  destruct (fs_nodes fs !! p); [done |]. case_bool_decide; [done |].
  by intros [= <-].
Qed.

Lemma mkdirSync_ENOENT p fs :
  mkdirSync p fs = inl ENOENT <-> fs_nodes fs !! path_dirname p = None.
Proof.
  rewrite <- check_parent_ENOENT. unfold mkdirSync.
  destruct (check_parent fs p) as [e|]; [naive_solver |].
  destruct (fs_nodes fs !! p); [naive_solver |]. case_bool_decide; naive_solver.
Qed.

Lemma fs_grows_refl fs : fs_grows fs fs.
Proof. split; [done |]. intros p. destruct (fs_nodes fs !! p); auto. Qed.

Lemma fs_grows_trans fs1 fs2 fs3 : fs_grows fs1 fs2 -> fs_grows fs2 fs3 -> fs_grows fs1 fs3.
Proof.
  intros [Hd1 H1] [Hd2 H2]. split; [congruence |]. intros p.
  specialize (H1 p). specialize (H2 p).
  destruct (fs_nodes fs1 !! p); [by rewrite H1 in H2 |].
  destruct H1 as [H1|H1]; rewrite H1 in H2; auto.
Qed.

Lemma fs_grows_add_dir fs p : fs_nodes fs !! p = None -> fs_grows fs (add_node p Dir fs).
Proof.
  intros Hp. split; [done |]. intros q. simpl.
  destruct (decide (p = q)) as [<-|Hne].
  - rewrite Hp, lookup_insert_eq. auto.
  - rewrite lookup_insert_ne by done. destruct (fs_nodes fs !! q); auto.
Qed.

Lemma fs_grows_dir fs fs' p : fs_grows fs fs' -> is_dir fs p = true -> is_dir fs' p = true.
Proof.
  rewrite !is_dir_true. intros [_ Hg] Hp. specialize (Hg p). by rewrite Hp in Hg.
Qed.

Lemma fs_wf_add fs p n :
  fs_wf fs -> p <> path_root -> fs_nodes fs !! path_dirname p = Some Dir ->
  (forall q, q <> path_root -> path_dirname q = p -> fs_nodes fs !! q <> None -> n = Dir) ->
  fs_wf (add_node p n fs).
Proof.
  intros [Hroot Hwf] Hp Hpar Hn. split; simpl.
  - by rewrite lookup_insert_ne.
  - intros q m Hq Hqr. destruct (decide (p = path_dirname q)) as [Heq|Hne].
    + rewrite <- Heq, lookup_insert_eq. f_equal.
      destruct (decide (p = q)) as [<-|Hpq].
      * rewrite <- Heq in Hpar. destruct (decide (n = Dir)) as [|Hnd]; [done |].
        apply (Hn p); [done.. |]. by rewrite Hpar.
      * rewrite lookup_insert_ne in Hq by done. apply (Hn q); [done.. |]. by rewrite Hq.
    + rewrite lookup_insert_ne by done.
      destruct (decide (p = q)) as [<-|Hpq]; [done |].
      rewrite lookup_insert_ne in Hq by done. eauto.
Qed.

Lemma fs_wf_add_dir fs p :
  fs_wf fs -> fs_nodes fs !! p = None -> fs_nodes fs !! path_dirname p = Some Dir ->
  fs_wf (add_node p Dir fs).
Proof.
  intros Hwf Hp Hpar. apply fs_wf_add; auto.
  intros ->. destruct Hwf as [Hr _]. congruence.
Qed.

Lemma fs_wf_root_parent fs : fs_wf fs -> check_parent fs path_root = None.
Proof. intros [Hr _]. apply check_parent_None. by rewrite dirname_root. Qed.

Lemma fs_wf_parent fs p n :
  fs_wf fs -> fs_nodes fs !! p = Some n -> check_parent fs p = None.
Proof.
  intros Hwf Hp. destruct (decide (p = path_root)) as [->|Hne].
  - by apply fs_wf_root_parent.
  - apply check_parent_None. destruct Hwf as [_ Hwf]. eauto.
Qed.

End FsLemmas.

(** ** [mkdirp.sync] and [writeFile] *)

Section Mkdirp.
Context `{PathLaws}.
Context (cwd : jsstring) (Hcwd : path_absolute cwd = true).

Lemma resolve_resolved p0 : path_resolve cwd (path_resolve cwd p0) = path_resolve cwd p0.
Proof. apply resolve_id. by apply resolve_canonical. Qed.

Lemma resolve_dirname p0 :
  path_resolve cwd (path_dirname (path_resolve cwd p0)) = path_dirname (path_resolve cwd p0).
Proof. apply resolve_id, dirname_canonical. by apply resolve_canonical. Qed.

(** What a successful [mkdirp.sync] leaves: the directory exists, nothing
    was removed or replaced, only directories were added, and the file
    system is still well formed. *)
Lemma mkdirp_sync_inr depth : forall p0 fs fs',
  fs_wf fs -> mkdirp_sync depth cwd p0 fs = inr fs' ->
  is_dir fs' (path_resolve cwd p0) = true /\ fs_grows fs fs' /\ fs_wf fs'.
Proof.
  induction depth as [|d IH]; intros p0 fs fs' Hwf; simpl;
    destruct (mkdirSync (path_resolve cwd p0) fs) as [[]|fs0] eqn:Hm;
    try (case_match; [intros [= <-]; auto using fs_grows_refl | done]);
    try done.
  1,3: apply mkdirSync_inr in Hm as (-> & Hn & Hp & _); intros [= <-];
    split; [apply is_dir_true; simpl; apply lookup_insert_eq |];
    auto using fs_grows_add_dir, fs_wf_add_dir.
  destruct (mkdirp_sync d cwd _ fs) as [|fs1] eqn:H1; [done |]. intros H2.
  apply IH in H1 as (_ & Hg1 & Hwf1); [| done].
  apply IH in H2 as (Hd & Hg2 & Hwf2); [| done].
  rewrite resolve_resolved in Hd. eauto using fs_grows_trans.
Qed.

(** On a directory that exists, [mkdirp.sync] succeeds and changes nothing. *)
Lemma mkdirp_sync_exists depth p0 fs :
  fs_wf fs -> is_dir fs (path_resolve cwd p0) = true ->
  mkdirp_sync depth cwd p0 fs = inr fs.
Proof.
  intros Hwf Hd. pose proof Hd as Hn. apply is_dir_true in Hn.
  assert (mkdirSync (path_resolve cwd p0) fs = inl EEXIST) as Hm.
  { unfold mkdirSync. by rewrite (fs_wf_parent _ _ _ Hwf Hn), Hn. }
  destruct depth; simpl; by rewrite Hm, Hd.
Qed.

(** With its parent in place, [mkdirp.sync] does not recurse. *)
Lemma mkdirp_sync_parent depth p0 fs :
  check_parent fs (path_resolve cwd p0) = None ->
  mkdirp_sync depth cwd p0 fs <> inl StackOverflow.
Proof.
  intros Hc. destruct depth; simpl; unfold mkdirSync; rewrite Hc;
    repeat case_match; done.
Qed.

Lemma mkdirp_sync_depth depth : forall p0 fs,
  fs_wf fs -> length (path_resolve cwd p0) <= depth ->
  mkdirp_sync depth cwd p0 fs <> inl StackOverflow.
Proof.
  induction depth as [|d IH]; intros p0 fs Hwf Hlen.
  - destruct (path_resolve cwd p0) eqn:Hp; [| simpl in Hlen; lia].
    assert (Hc : canonical (path_resolve cwd p0)) by by apply resolve_canonical.
    destruct (decide (path_resolve cwd p0 = path_root)) as [Hr|Hr].
    + apply mkdirp_sync_parent. rewrite Hr. by apply fs_wf_root_parent.
    + apply dirname_shorter in Hr; [| done]. rewrite Hp in Hr. simpl in Hr. lia.
  - simpl. destruct (mkdirSync (path_resolve cwd p0) fs) as [[]|] eqn:Hm;
      try (case_match; done); try done.
    apply mkdirSync_ENOENT in Hm.
    assert (path_resolve cwd p0 <> path_root) as Hr.
    { intros Heq. rewrite Heq, dirname_root in Hm. destruct Hwf. congruence. }
    apply dirname_shorter in Hr; [| by apply resolve_canonical].
    destruct (mkdirp_sync d cwd (path_dirname _) fs) as [e|fs1] eqn:H1.
    + intros [= ->]. revert H1. apply IH; [done |]. rewrite resolve_dirname. lia.
    + apply mkdirp_sync_inr in H1 as (Hd & _ & _); [| done].
      apply mkdirp_sync_parent. rewrite resolve_resolved, resolve_dirname in *.
      by apply check_parent_None, is_dir_true.
Qed.

Lemma makeable_cases depth fs p :
  makeable depth fs p = true ->
  is_dir fs p = true \/
  (fs_nodes fs !! p = None /\ (p ∉ fs_denied fs) /\
   exists d, depth = S d /\ makeable d fs (path_dirname p) = true).
Proof.
  destruct depth; cbn [makeable]; intros [Hd|Hr]%orb_true_iff; auto; right.
  - by rewrite andb_false_r in Hr.
  - apply andb_true_iff in Hr as [[Hn Hden]%andb_true_iff Hp].
    apply bool_decide_eq_true in Hn, Hden. eauto.
Qed.

Lemma makeable_lookup depth fs p :
  makeable depth fs p = true -> fs_nodes fs !! p = None \/ fs_nodes fs !! p = Some Dir.
Proof.
  intros [Hd|(? & _)]%makeable_cases; [right; by apply is_dir_true | by left].
Qed.

(** With its parent in place, a directory that is absent and not refused is
    made by the first [mkdir]. *)
Lemma mkdirp_sync_new depth p0 fs :
  is_dir fs (path_dirname (path_resolve cwd p0)) = true ->
  fs_nodes fs !! path_resolve cwd p0 = None -> path_resolve cwd p0 ∉ fs_denied fs ->
  mkdirp_sync depth cwd p0 fs = inr (add_node (path_resolve cwd p0) Dir fs).
Proof.
  intros Hpar Hn Hden.
  assert (mkdirSync (path_resolve cwd p0) fs = inr (add_node (path_resolve cwd p0) Dir fs))
    as Hm.
  { unfold mkdirSync. rewrite (proj2 (check_parent_None _ _)) by by apply is_dir_true.
    by rewrite Hn, bool_decide_eq_false_2. }
  destruct depth; simpl; by rewrite Hm.
Qed.

(** A directory that can be made is made. *)
Lemma mkdirp_sync_makeable depth : forall p0 fs,
  fs_wf fs -> makeable depth fs (path_resolve cwd p0) = true ->
  exists fs', mkdirp_sync depth cwd p0 fs = inr fs'.
Proof.
  induction depth as [|d IH]; intros p0 fs Hwf Hmk;
    apply makeable_cases in Hmk as [Hd|(Hn & Hden & d' & Hdep & Hpar)];
    try (eexists; by apply mkdirp_sync_exists).
  injection Hdep as <-. set (p := path_resolve cwd p0) in *.
  destruct (IH (path_dirname p) fs Hwf) as [fs1 H1]; [by unfold p; rewrite resolve_dirname |].
  pose proof H1 as (Hd1 & (Hden1 & Hg) & Hwf1)%mkdirp_sync_inr; [| done..].
  unfold p in Hd1. rewrite resolve_dirname in Hd1 by done. fold p in Hd1.
  simpl. fold p. unfold mkdirSync, check_parent.
  apply makeable_lookup in Hpar as [Hp|Hp]; rewrite Hp.
  - rewrite H1. specialize (Hg p). rewrite Hn in Hg. destruct Hg as [Hg|Hg].
    + eexists. apply mkdirp_sync_new; unfold p; rewrite ?resolve_resolved; try done.
      by rewrite Hden1.
    + eexists. apply mkdirp_sync_exists; [done.. |]. unfold p.
      rewrite resolve_resolved by done. by apply is_dir_true.
  - rewrite Hn, bool_decide_eq_false_2 by done. eauto.
Qed.

Lemma dirname_length p : canonical p -> length (path_dirname p) <= length p.
Proof.
  intros Hc. destruct (decide (p = path_root)) as [->|Hr]; [by rewrite dirname_root |].
  apply dirname_shorter in Hr; [lia | done].
Qed.

(** The nodes [mkdirp.sync] changes are no longer than the path it is given:
    nothing below the directory is touched. *)
Lemma mkdirp_sync_changes depth : forall p0 fs fs' q,
  mkdirp_sync depth cwd p0 fs = inr fs' -> fs_nodes fs' !! q <> fs_nodes fs !! q ->
  length q <= length (path_resolve cwd p0).
Proof.
  induction depth as [|d IH]; intros p0 fs fs' q; simpl;
    destruct (mkdirSync (path_resolve cwd p0) fs) as [[]|fs0] eqn:Hm;
    try (case_match; [by intros [= <-] | done]); try done.
  1,3: apply mkdirSync_inr in Hm as (-> & _); intros [= <-] Hq;
    destruct (decide (q = path_resolve cwd p0)) as [->|Hne]; [done |];
    cbn [fs_nodes add_node] in Hq; by rewrite lookup_insert_ne in Hq.
  destruct (mkdirp_sync d cwd _ fs) as [|fs1] eqn:H1; [done |]. intros H2 Hq.
  destruct (decide (fs_nodes fs1 !! q = fs_nodes fs !! q)) as [Heq|Hne].
  - rewrite <- Heq in Hq. apply (IH _ _ _ q) in H2; [| done].
    by rewrite resolve_resolved in H2.
  - apply (IH _ _ _ q) in H1; [| done]. rewrite resolve_dirname in H1.
    pose proof (dirname_length (path_resolve cwd p0) (resolve_canonical _ _ Hcwd)). lia.
Qed.

Lemma fs_write_inr p enc data fs fs' :
  fs_write p enc data fs = inr fs' ->
  fs' = add_node p (File enc data) fs /\ is_dir fs p = false /\
  is_dir fs (path_dirname p) = true /\ p ∉ fs_denied fs.
Proof.
  unfold fs_write. destruct (is_dir fs p) eqn:Hd; [done |].
  destruct (check_parent fs p) eqn:Hc; [done |]. apply check_parent_None in Hc.
  case_bool_decide; [done |]. intros [= <-]. by rewrite is_dir_true.
Qed.

Lemma fs_write_ok p enc data fs :
  is_dir fs (path_dirname p) = true -> is_dir fs p = false -> p ∉ fs_denied fs ->
  fs_write p enc data fs = inr (add_node p (File enc data) fs).
Proof.
  intros Hpar Hd Hden. unfold fs_write. rewrite Hd.
  rewrite (proj2 (check_parent_None _ _)) by by apply is_dir_true.
  by rewrite bool_decide_eq_false_2.
Qed.

(** A file that has been written can be written again. *)
Lemma fs_write_again p enc data enc' data' fs :
  fs_write p enc data fs = inr (add_node p (File enc data) fs) ->
  fs_write p enc' data' (add_node p (File enc data) fs)
  = inr (add_node p (File enc' data') (add_node p (File enc data) fs)).
Proof.
  clear cwd Hcwd. intros (_ & Hd & Hpar & Hden)%fs_write_inr.
  assert (path_dirname p <> p) as Hne by (intros Heq; congruence).
  apply fs_write_ok; [| | done].
  - apply is_dir_true. simpl. rewrite lookup_insert_ne by done. by apply is_dir_true.
  - apply bool_decide_eq_false. simpl. by rewrite lookup_insert_eq.
Qed.

(** A write keeps the file system well formed. *)
Lemma fs_write_wf p enc data fs fs' :
  fs_wf fs -> fs_write p enc data fs = inr fs' -> fs_wf fs'.
Proof.
  intros Hwf (-> & Hd & Hpar & _)%fs_write_inr.
  apply is_dir_true in Hpar. apply bool_decide_eq_false in Hd.
  apply fs_wf_add; [done | | done |].
  - intros ->. by destruct Hwf as [Hroot _].
  - intros q Hq <- Hn. destruct Hwf as [_ Hwf].
    destruct (fs_nodes fs !! q) as [n|] eqn:Hqn; [| done]. by apply Hwf in Hqn.
Qed.

Lemma fs_grows_lookup fs fs' p n :
  fs_grows fs fs' -> fs_nodes fs !! p = Some n -> fs_nodes fs' !! p = Some n.
Proof. intros [_ Hg] Hp. specialize (Hg p). by rewrite Hp in Hg. Qed.

(** [mkdirp.sync] on the directory of a file does not make the file a
    directory. *)
Lemma mkdirp_sync_below depth file fs fs1 :
  canonical file -> fs_wf fs -> is_dir fs file = false ->
  mkdirp_sync depth cwd (path_dirname file) fs = inr fs1 -> is_dir fs1 file = false.
Proof.
  intros Hc Hwf Hd Hm. apply not_true_is_false. intros Hd1.
  assert (file <> path_root) as Hr.
  { intros ->. destruct Hwf as [Hroot%is_dir_true _]. congruence. }
  apply dirname_shorter in Hr; [| done].
  apply (mkdirp_sync_changes _ _ _ _ file) in Hm.
  - rewrite resolve_id in Hm by by apply dirname_canonical. lia.
  - apply is_dir_true in Hd1. rewrite Hd1. intros Heq. symmetry in Heq.
    apply is_dir_true in Heq. congruence.
Qed.

(** The two steps of a capture, on a file system where the directory of the
    file can be made and the file is neither a directory nor refused: the
    directory is made and the file written. *)
Lemma mkdirp_then_write depth file enc data fs :
  canonical file -> fs_wf fs -> makeable depth fs (path_dirname file) = true ->
  is_dir fs file = false -> file ∉ fs_denied fs ->
  exists fs1, mkdirp_sync depth cwd (path_dirname file) fs = inr fs1 /\
    fs_write file enc data fs1 = inr (add_node file (File enc data) fs1) /\
    fs_grows fs fs1 /\ fs_wf (add_node file (File enc data) fs1).
Proof.
  intros Hc Hwf Hmk Hd Hden.
  assert (path_resolve cwd (path_dirname file) = path_dirname file) as Hres
    by by apply resolve_id, dirname_canonical.
  destruct (mkdirp_sync_makeable depth (path_dirname file) fs Hwf) as [fs1 Hm];
    [by rewrite Hres |].
  exists fs1. pose proof Hm as (Hd1 & Hg & Hwf1)%mkdirp_sync_inr; [| done..].
  rewrite Hres in Hd1.
  assert (fs_write file enc data fs1 = inr (add_node file (File enc data) fs1)) as Hw.
  { apply fs_write_ok; [done | by apply (mkdirp_sync_below depth _ fs) |].
    by destruct Hg as [-> _]. }
  eauto using fs_write_wf.
Qed.

End Mkdirp.

(** ** Properties of the directory-ensure step *)

Section MkdirpProperties.
Context `{PathLaws}.

(** when [mkdirp.sync] returns, the directory exists, every node that was
    there is still there unchanged, every node added is a directory, and a
    well-formed file system stays well formed. *)
Theorem mkdirp_sync_ensures depth cwd p0 fs fs' :
  path_absolute cwd = true -> fs_wf fs ->
  mkdirp_sync depth cwd p0 fs = inr fs' ->
  is_dir fs' (path_resolve cwd p0) = true /\ fs_grows fs fs' /\ fs_wf fs'.
Proof. intros. by eapply mkdirp_sync_inr. Qed.

(** the directory-ensure step is idempotent: once it has succeeded for a
    path, a second call for the same path succeeds and changes nothing,
    whatever stack it is given. *)
Theorem mkdirp_sync_idempotent depth depth' cwd p0 fs fs' :
  path_absolute cwd = true -> fs_wf fs ->
  mkdirp_sync depth cwd p0 fs = inr fs' ->
  mkdirp_sync depth' cwd p0 fs' = inr fs'.
Proof.
  intros Hcwd Hwf Hm. apply mkdirp_sync_inr in Hm as (Hd & _ & Hwf'); [| done..].
  by apply mkdirp_sync_exists.
Qed.

(** the recursion of [mkdirp.sync] ends: on a well-formed file system a
    stack as deep as the path is long is enough, so the call returns or
    throws a system error, never a stack overflow. *)
Theorem mkdirp_sync_terminates depth cwd p0 fs :
  path_absolute cwd = true -> fs_wf fs ->
  length (path_resolve cwd p0) <= depth ->
  mkdirp_sync depth cwd p0 fs <> inl StackOverflow.
Proof. intros. by apply mkdirp_sync_depth. Qed.

End MkdirpProperties.

Lemma home_fs_wf : fs_wf home_fs.
Proof. apply (bool_decide_unpack _). vm_compute. reflexivity. Qed.

Lemma mkdirp_sync_ensures_witness :
  exists fs', is_dir fs' (path_resolve (str "/home/u") (str "report/a")) = true /\
              fs_grows home_fs fs' /\ fs_wf fs'.
Proof.
  eexists. eapply (mkdirp_sync_ensures 64 (str "/home/u") (str "report/a") home_fs).
  - reflexivity.
  - apply (bool_decide_unpack _). vm_compute. reflexivity.
  - vm_compute. reflexivity.
Defined.

Lemma mkdirp_sync_idempotent_witness :
  exists fs', mkdirp_sync 1 (str "/home/u") (str "report/a") fs' = inr fs'.
Proof.
  eexists. eapply (mkdirp_sync_idempotent 64 1 (str "/home/u") (str "report/a") home_fs).
  - reflexivity.
  - apply (bool_decide_unpack _). vm_compute. reflexivity.
  - vm_compute. reflexivity.
Defined.

Lemma mkdirp_sync_terminates_witness :
  mkdirp_sync 16 (str "/home/u") (str "report/a") home_fs <> inl StackOverflow.
Proof.
  apply (mkdirp_sync_terminates 16 (str "/home/u") (str "report/a") home_fs).
  - reflexivity.
  - apply (bool_decide_unpack _). vm_compute. reflexivity.
  - vm_compute. lia.
Defined.
