(* ===== verification/World.v ===== *)
(** * The world the plugin runs in

    The state of everything [src/index.js] acts on, and the operations of the
    host environment it calls:

    - promises (the driver's deferreds and native promises alike): a table of
      cells, each pending or settled, with the reactions registered by
      [then]; settling a cell once moves its reactions to the job queue, and
      settling it again does nothing;
    - the driver's command queue ([w_flow]): commands complete in the order
      they were issued, each settling the promise it returned;
    - outstanding [fs.writeFile] requests ([w_io]), which complete in any
      order;
    - the file system, the heap of error objects, the console, a trace of the
      calls made to functions of the embedding test (completion callbacks,
      other listeners), and the plugin's own state: the object
      [nemo.screenshot] with its [_currentTestTitle], the [click] method of
      the element prototype, and the listeners of the uncaught-exception
      event.

    The function values the source creates at run time are represented by
    the constructor they are built with and the variables they capture
    ([on_fulfilled], [on_rejected], [on_written]); the code of each is in the
    file of its component.  Operations are computations of the monad
    [St World eref]: the exception type is a reference to the error thrown. *)

From stdpp Require Import gmap.
From S2P Require Import Prelude JsString Values Jenkins Path Fs.

#[local] Open Scope st_scope.

Abbreviation pid := nat (only parsing).

(** ** The driver *)

(** The commands the program issues: [takeScreenshot] (line 154),
    [getPageSource] (line 286), [executeScript] of the one script of lines
    214-270, and the [click] of an element (line 338). *)
Inductive command : Type :=
| TakeScreenshot
| GetPageSource
| ExecuteInvisiScript
| Click (element : N).

(** What the driver answers to a command. *)
Inductive reply : Type :=
| Done (v : value)
| Failed (e : errObj).

(** What [driver.getSession()] returns: a promise of the session (as
    selenium-webdriver does) or the session itself.  The source uses its
    result in both ways (lines 149 and 349). *)
Inductive gs_mode : Type := GsPromise | GsValue.

(** The result of an expression that is a value or a promise object. *)
Inductive jsref : Type :=
| RVal (v : value)
| RPromise (p : pid).

(** ** Promises *)

(** The object [p] returns (line 34): the promise and the two functions
    that settle it, each represented by the promise it settles. *)
Record deferred : Type := mkDeferred {
  d_promise : pid;
  d_fulfill : pid;
  d_reject : pid;
}.

Inductive settled : Type :=
| Fulfilled (v : value)
| Rejected (r : eref).

Inductive pstate : Type :=
| Pending
| Settled (s : settled).

Inductive pkind : Type := Native | Managed.

(** ** The function values of the source *)

(** Handlers of a fulfilment: the first argument of a [then]. *)
Inductive on_fulfilled : Type :=
| OkSnapShot (screenShotPath filename : jsstring) (d : deferred)
| OkSourceScript (screenShotPath filename : jsstring)
| OkSourcePage (screenShotPath filename : jsstring) (d : deferred)
| OkDone (done : N) (err : option eref)
| OkExcSession (options : list jsstring) (exception : eref)
| OkExcSnap (exception : eref).

(** Handlers of a rejection: the second argument of a [then], or the
    argument of a [catch]. *)
Inductive on_rejected : Type :=
| ErrReject (d : deferred)
| ErrDone (done : N)
| ErrExcCatch (exception : eref).

(** Completion callbacks of [fs.writeFile]. *)
Inductive on_written : Type :=
| CbSnapWritten (d : deferred) (imageObj : imageObj)
| CbScriptWritten
| CbSourceWritten (d : deferred) (sourceObj : sourceObj).

Record reaction : Type := mkReaction {
  rx_ok : option on_fulfilled;
  rx_err : option on_rejected;
  rx_derived : pid;
}.

Record pcell : Type := mkCell {
  pc_kind : pkind;
  pc_state : pstate;
  pc_reactions : list reaction;
}.

(** A reaction whose promise has settled, waiting to run. *)
Record job : Type := mkJob {
  j_reaction : reaction;
  j_result : settled;
}.

Record io_req : Type := mkIo {
  io_path : jsstring;
  io_data : jsstring;
  io_enc : encoding;
  io_cb : on_written;
}.

(** ** The plugin's own state *)

(** The object [nemo.screenshot] (line 132): the directory its methods
    captured and the title [setCurrentTestTitle] stored on it. *)
Record Plugin : Type := mkPlugin {
  pl_path : jsstring;
  pl_title : option jsstring;
}.

(** [WebElement.prototype.click]: the driver's own, or the wrapper of line
    331 around the method it replaced. *)
Inductive clickImpl : Type :=
| ClickOriginal
| ClickWrapped (options : list jsstring) (oclick : clickImpl).

(** A listener of the uncaught-exception event: the plugin's (line 343) or
    one of the embedding test, which returns or throws the exception on. *)
Inductive listener : Type :=
| LPlugin (options : list jsstring)
| LExternal (id : N) (rethrows : bool).

(** Calls the plugin makes to functions it was given, and commands the
    driver ran. *)
Inductive event : Type :=
| EvCallback (cb : N) (err : option eref)
| EvListener (id : N) (exception : eref)
| EvCommand (c : command).

(** ** The world *)

(** What does not change during a run. *)
Record Config : Type := mkConfig {
  c_env : Env;
  c_pid : N;
  c_cwd : jsstring;
  c_native : bool;
  c_stack : nat;
  c_gs : gs_mode;
  c_session : value;
  c_reply : nat -> command -> reply;
}.

Record World : Type := mkWorld {
  w_cfg : Config;
  w_now : N;
  w_fs : Fs;
  w_proms : list pcell;
  w_flow : list (command * pid);
  w_ncmd : nat;
  w_io : list io_req;
  w_jobs : list job;
  w_heap : heap;
  w_console : console;
  w_trace : list event;
  w_screenshot : option Plugin;
  w_click : clickImpl;
  w_listeners : list listener;
}.

Definition upd_now (f : N -> N) (w : World) : World :=
  {| w_cfg := w_cfg w; w_now := f (w_now w); w_fs := w_fs w; w_proms := w_proms w;
     w_flow := w_flow w; w_ncmd := w_ncmd w; w_io := w_io w; w_jobs := w_jobs w;
     w_heap := w_heap w; w_console := w_console w; w_trace := w_trace w;
     w_screenshot := w_screenshot w; w_click := w_click w; w_listeners := w_listeners w |}.

Definition upd_fs (f : Fs -> Fs) (w : World) : World :=
  {| w_cfg := w_cfg w; w_now := w_now w; w_fs := f (w_fs w); w_proms := w_proms w;
     w_flow := w_flow w; w_ncmd := w_ncmd w; w_io := w_io w; w_jobs := w_jobs w;
     w_heap := w_heap w; w_console := w_console w; w_trace := w_trace w;
     w_screenshot := w_screenshot w; w_click := w_click w; w_listeners := w_listeners w |}.

Definition upd_proms (f : list pcell -> list pcell) (w : World) : World :=
  {| w_cfg := w_cfg w; w_now := w_now w; w_fs := w_fs w; w_proms := f (w_proms w);
     w_flow := w_flow w; w_ncmd := w_ncmd w; w_io := w_io w; w_jobs := w_jobs w;
     w_heap := w_heap w; w_console := w_console w; w_trace := w_trace w;
     w_screenshot := w_screenshot w; w_click := w_click w; w_listeners := w_listeners w |}.

Definition upd_flow (f : list (command * pid) -> list (command * pid)) (w : World) : World :=
  {| w_cfg := w_cfg w; w_now := w_now w; w_fs := w_fs w; w_proms := w_proms w;
     w_flow := f (w_flow w); w_ncmd := w_ncmd w; w_io := w_io w; w_jobs := w_jobs w;
     w_heap := w_heap w; w_console := w_console w; w_trace := w_trace w;
     w_screenshot := w_screenshot w; w_click := w_click w; w_listeners := w_listeners w |}.

Definition upd_ncmd (f : nat -> nat) (w : World) : World :=
  {| w_cfg := w_cfg w; w_now := w_now w; w_fs := w_fs w; w_proms := w_proms w;
     w_flow := w_flow w; w_ncmd := f (w_ncmd w); w_io := w_io w; w_jobs := w_jobs w;
     w_heap := w_heap w; w_console := w_console w; w_trace := w_trace w;
     w_screenshot := w_screenshot w; w_click := w_click w; w_listeners := w_listeners w |}.

Definition upd_io (f : list io_req -> list io_req) (w : World) : World :=
  {| w_cfg := w_cfg w; w_now := w_now w; w_fs := w_fs w; w_proms := w_proms w;
     w_flow := w_flow w; w_ncmd := w_ncmd w; w_io := f (w_io w); w_jobs := w_jobs w;
     w_heap := w_heap w; w_console := w_console w; w_trace := w_trace w;
     w_screenshot := w_screenshot w; w_click := w_click w; w_listeners := w_listeners w |}.

Definition upd_jobs (f : list job -> list job) (w : World) : World :=
  {| w_cfg := w_cfg w; w_now := w_now w; w_fs := w_fs w; w_proms := w_proms w;
     w_flow := w_flow w; w_ncmd := w_ncmd w; w_io := w_io w; w_jobs := f (w_jobs w);
     w_heap := w_heap w; w_console := w_console w; w_trace := w_trace w;
     w_screenshot := w_screenshot w; w_click := w_click w; w_listeners := w_listeners w |}.

Definition upd_heap (f : heap -> heap) (w : World) : World :=
  {| w_cfg := w_cfg w; w_now := w_now w; w_fs := w_fs w; w_proms := w_proms w;
     w_flow := w_flow w; w_ncmd := w_ncmd w; w_io := w_io w; w_jobs := w_jobs w;
     w_heap := f (w_heap w); w_console := w_console w; w_trace := w_trace w;
     w_screenshot := w_screenshot w; w_click := w_click w; w_listeners := w_listeners w |}.

Definition upd_console (f : console -> console) (w : World) : World :=
  {| w_cfg := w_cfg w; w_now := w_now w; w_fs := w_fs w; w_proms := w_proms w;
     w_flow := w_flow w; w_ncmd := w_ncmd w; w_io := w_io w; w_jobs := w_jobs w;
     w_heap := w_heap w; w_console := f (w_console w); w_trace := w_trace w;
     w_screenshot := w_screenshot w; w_click := w_click w; w_listeners := w_listeners w |}.

Definition upd_trace (f : list event -> list event) (w : World) : World :=
  {| w_cfg := w_cfg w; w_now := w_now w; w_fs := w_fs w; w_proms := w_proms w;
     w_flow := w_flow w; w_ncmd := w_ncmd w; w_io := w_io w; w_jobs := w_jobs w;
     w_heap := w_heap w; w_console := w_console w; w_trace := f (w_trace w);
     w_screenshot := w_screenshot w; w_click := w_click w; w_listeners := w_listeners w |}.

Definition upd_screenshot (f : option Plugin -> option Plugin) (w : World) : World :=
  {| w_cfg := w_cfg w; w_now := w_now w; w_fs := w_fs w; w_proms := w_proms w;
     w_flow := w_flow w; w_ncmd := w_ncmd w; w_io := w_io w; w_jobs := w_jobs w;
     w_heap := w_heap w; w_console := w_console w; w_trace := w_trace w;
     w_screenshot := f (w_screenshot w); w_click := w_click w;
     w_listeners := w_listeners w |}.

Definition upd_click (f : clickImpl -> clickImpl) (w : World) : World :=
  {| w_cfg := w_cfg w; w_now := w_now w; w_fs := w_fs w; w_proms := w_proms w;
     w_flow := w_flow w; w_ncmd := w_ncmd w; w_io := w_io w; w_jobs := w_jobs w;
     w_heap := w_heap w; w_console := w_console w; w_trace := w_trace w;
     w_screenshot := w_screenshot w; w_click := f (w_click w);
     w_listeners := w_listeners w |}.

Definition upd_listeners (f : list listener -> list listener) (w : World) : World :=
  {| w_cfg := w_cfg w; w_now := w_now w; w_fs := w_fs w; w_proms := w_proms w;
     w_flow := w_flow w; w_ncmd := w_ncmd w; w_io := w_io w; w_jobs := w_jobs w;
     w_heap := w_heap w; w_console := w_console w; w_trace := w_trace w;
     w_screenshot := w_screenshot w; w_click := w_click w;
     w_listeners := f (w_listeners w) |}.

(** ** Access to the parts of the world *)

Definition zoom_heap {A} (c : St heap eref A) : St World eref A :=
  st_zoom w_heap (fun h => upd_heap (fun _ => h)) c.

Definition zoom_console {A} (c : St console eref A) : St World eref A :=
  st_zoom w_console (fun l => upd_console (fun _ => l)) c.

Definition cfg {A} (f : Config -> A) : St World eref A := st_gets (fun w => f (w_cfg w)).

(** [throw new TypeError(msg)] *)
Definition type_error {A} (msg : string) : St World eref A :=
  zoom_heap (throw_TypeError msg).

(** A call of a function of the embedding test: it is recorded and returns. *)
Definition call_callback (cb : N) (err : option eref) : St World eref unit :=
  st_modify (upd_trace (fun t => t ++ [EvCallback cb err])).

(** ** Promises *)

Definition new_promise (k : pkind) : St World eref pid :=
  fun w => (Ret (length (w_proms w)),
            upd_proms (fun ps => ps ++ [mkCell k Pending []]) w).

(** Settle a promise: the first call fixes its state and queues its
    reactions; a call on a settled promise does nothing. *)
Definition settle (p : pid) (s : settled) : St World eref unit :=
  fun w =>
    match w_proms w !! p with
    | Some (mkCell k Pending rs) =>
      (Ret tt,
       upd_jobs (fun q => q ++ ((fun r => mkJob r s) <$> rs))
         (upd_proms (fun ps => <[p := mkCell k (Settled s) []]> ps) w))
    | _ => (Ret tt, w)
    end.

Definition add_reaction (r : reaction) (c : pcell) : pcell :=
  mkCell (pc_kind c) (pc_state c) (pc_reactions c ++ [r]).

(** [promise.then(ok, err)]: the derived promise is returned; the reaction
    waits on a pending promise and is queued at once on a settled one. *)
Definition then_ (p : pid) (ok : option on_fulfilled) (err : option on_rejected)
  : St World eref pid :=
  w <- st_get ;;
  match w_proms w !! p with
  | Some c =>
    d <- new_promise (pc_kind c) ;;
    let r := mkReaction ok err d in
    match pc_state c with
    | Pending => st_modify (upd_proms (alter (add_reaction r) p))
    | Settled s => st_modify (upd_jobs (fun q => q ++ [mkJob r s]))
    end ;;
    st_ret d
  | None => type_error "then is not a function"
  end.

(** ** The driver *)

(** Issue a command: it joins the queue and its promise is returned. *)
Definition schedule (c : command) : St World eref pid :=
  p <- new_promise Managed ;;
  st_modify (upd_flow (fun q => q ++ [(c, p)])) ;;
  st_ret p.

(** [driver.getSession()] *)
Definition driver_getSession : St World eref jsref :=
  mode <- cfg c_gs ;;
  session <- cfg c_session ;;
  match mode with
  | GsValue => st_ret (RVal session)
  | GsPromise =>
    p <- new_promise Managed ;;
    settle p (Fulfilled session) ;;
    st_ret (RPromise p)
  end.

Definition jsref_truthy (r : jsref) : bool :=
  match r with
  | RVal v => value_truthy v
  | RPromise _ => true
  end.

(** [r.then(ok, err)] on the result of an expression. *)
Definition jsref_then (r : jsref) (ok : option on_fulfilled) (err : option on_rejected)
  : St World eref pid :=
  match r with
  | RPromise p => then_ p ok err
  | RVal _ => type_error "then is not a function"
  end.

(** The driver completes the command at the head of its queue. *)
Definition complete_command : St World eref unit :=
  w <- st_get ;;
  match w_flow w with
  | [] => st_ret tt
  | (c, p) :: rest =>
    st_modify (upd_flow (fun _ => rest)) ;;
    st_modify (upd_ncmd S) ;;
    st_modify (upd_trace (fun t => t ++ [EvCommand c])) ;;
    match c_reply (w_cfg w) (w_ncmd w) c with
    | Done v => settle p (Fulfilled v)
    | Failed e => r <- zoom_heap (heap_alloc e) ;; settle p (Rejected r)
    end
  end.

(** ** The file system *)

Definition fs_error_name (e : fs_error) : jsstring :=
  match e with
  | ENOENT => str "ENOENT"
  | ENOTDIR => str "ENOTDIR"
  | EEXIST => str "EEXIST"
  | EACCES => str "EACCES"
  | EISDIR => str "EISDIR"
  end.

(** The error object of a failed system call. *)
Definition fs_error_obj (e : fs_error) (syscall : string) (p : jsstring) : errObj :=
  new_error (str "Error")
    (fs_error_name e ++ str ", " ++ str syscall ++ str " '" ++ p ++ str "'").

Definition mkdirp_error_obj (e : mkdirp_error) : errObj :=
  match e with
  | SysError code p => fs_error_obj code "mkdir" p
  | StackOverflow => new_error (str "RangeError") (str "Maximum call stack size exceeded")
  end.

Section WithPath.
Context `{PathOps}.

(** [mkdirp.sync(p)], throwing its error as an exception. *)
Definition mkdirp (p : jsstring) : St World eref unit :=
  w <- st_get ;;
  match mkdirp_sync (c_stack (w_cfg w)) (c_cwd (w_cfg w)) p (w_fs w) with
  | inr fs' => st_modify (upd_fs (fun _ => fs'))
  | inl e => r <- zoom_heap (heap_alloc (mkdirp_error_obj e)) ;; st_throw r
  end.

(** [fs.writeFile(path, data, {encoding}, cb)]: the request is outstanding
    until the system completes it. *)
Definition fs_writeFile (p data : jsstring) (enc : encoding) (cb : on_written)
  : St World eref unit :=
  st_modify (upd_io (fun q => q ++ [mkIo p data enc cb])).

(** The system completes a write: the file system changes or an error object
    is made; the result is what the callback is called with. *)
Definition perform_write (rq : io_req) : St World eref (option eref) :=
  w <- st_get ;;
  match fs_write (io_path rq) (io_enc rq) (io_data rq) (w_fs w) with
  | inr fs' => st_modify (upd_fs (fun _ => fs')) ;; st_ret None
  | inl e => r <- zoom_heap (heap_alloc (fs_error_obj e "open" (io_path rq))) ;;
             st_ret (Some r)
  end.

End WithPath.

(** [String(v)], the text [writeFile] writes for a value. *)
Definition value_to_str (v : value) : jsstring :=
  match v with
  | VUndefined => str "undefined"
  | VNull => str "null"
  | VBool true => str "true"
  | VBool false => str "false"
  | VStr s => s
  | VImage _ | VSource _ | VHost _ => str "[object Object]"
  end.

(** The state of a promise, if it exists. *)
Definition promise_state (w : World) (p : pid) : option pstate :=
  pc_state <$> w_proms w !! p.

(** ** Sample worlds

    A host with native promises, the working directory [/home/u] and nothing
    queued.  In [sample_world] the driver's [getSession] returns a promise,
    there is a session, and the driver answers a screenshot with the text
    [iVBORw0KGgo=], the page source with a small page and every other
    command with [undefined]. *)
Definition sample_reply (n : nat) (c : command) : reply :=
  match c with
  | TakeScreenshot => Done (VStr (str "iVBORw0KGgo="))
  | GetPageSource => Done (VStr (str "<html></html>"))
  | ExecuteInvisiScript => Done (VStr (str "[null]"))
  | Click _ => Done VUndefined
  end.

(** A driver that fails every command. *)
Definition sample_failure : errObj :=
  new_error (str "WebDriverError") (str "no such window").

Definition failing_reply (n : nat) (c : command) : reply := Failed sample_failure.

(** A driver that fails the script and answers the other commands. *)
Definition script_failing_reply (n : nat) (c : command) : reply :=
  match c with
  | ExecuteInvisiScript => Failed sample_failure
  | _ => sample_reply n c
  end.

Definition sample_cfg (gs : gs_mode) (session : value) (reply : nat -> command -> reply)
  : Config :=
  {| c_env := mkEnv None None None None; c_pid := 4242; c_cwd := str "/home/u";
     c_native := true; c_stack := 64; c_gs := gs; c_session := session;
     c_reply := reply |}.

Definition sample_config : Config := sample_cfg GsPromise (VHost (str "{}")) sample_reply.

Definition sample_fs : Fs := home_fs.

(** The same with a file where the capture directory would be, and with a
    capture file the system refuses to write. *)
Definition blocked_fs : Fs := add_node (str "/home/u/report") (File Utf8 []) sample_fs.

Definition denied_fs : Fs :=
  {| fs_nodes := fs_nodes sample_fs; fs_denied := {[ str "/home/u/report/shot.png" ]} |}.

Definition world_of (c : Config) (fs : Fs) : World :=
  {| w_cfg := c; w_now := 1000; w_fs := fs; w_proms := [];
     w_flow := []; w_ncmd := 0; w_io := []; w_jobs := []; w_heap := [];
     w_console := []; w_trace := []; w_screenshot := None; w_click := ClickOriginal;
     w_listeners := [] |}.

Definition sample_world : World := world_of sample_config sample_fs.

(** ** Symbolic execution

    [wstep] runs the operations of the world on a world given by its fields:
    it unfolds the operations registered in the database [world_unfold],
    reduces the projections and the list operations, and brings lookups and
    updates of the tables to the form [prefix ++ cells]. *)
#[export] Hint Unfold settle then_ new_promise schedule driver_getSession cfg type_error
  complete_command zoom_heap zoom_console call_callback jsref_then throw_TypeError heap_alloc
  console_log console_error add_reaction
  upd_now upd_fs upd_proms upd_flow upd_ncmd upd_io upd_jobs upd_heap upd_console upd_trace
  upd_screenshot upd_click upd_listeners : world_unfold.

Ltac wcbn :=
  cbn [negb andb orb fst snd
       w_cfg w_now w_fs w_proms w_flow w_ncmd w_io w_jobs w_heap w_console w_trace
       w_screenshot w_click w_listeners
       c_env c_pid c_cwd c_native c_stack c_gs c_session c_reply
       length app Nat.add lookup list_lookup insert list_insert alter list_alter
       delete list_delete fmap list_fmap option_fmap option_map
       pc_kind pc_state pc_reactions jsref_truthy has_properties value_truthy
       d_promise d_fulfill d_reject rx_ok rx_err rx_derived j_reaction j_result
       io_path io_data io_enc io_cb pl_path pl_title].

(** Tables are kept in the form [prefix ++ cells]; an index of the prefix
    is known by a hypothesis that says what is there. *)
Ltac wlist_old :=
  repeat match goal with
  | H : ?l !! ?i = Some ?x |- context [(?l ++ ?l2) !! ?i] =>
    rewrite (lookup_app_l_Some l _ i x H)
  | H : ?l !! ?i = Some _ |- context [(<[?i := ?x]> ?l ++ ?l2) !! ?i] =>
    rewrite (lookup_app_insert_old l _ i x _ H)
  | H : ?l !! ?i = Some _ |- context [(alter ?g ?i ?l ++ ?l2) !! ?i] =>
    rewrite (lookup_app_alter_old l _ i g _ H)
  | H : ?l !! ?i = Some _ |- context [<[?i := ?x]> (?l ++ ?l2)] =>
    rewrite (insert_app_old l _ i x _ H)
  | H : ?l !! ?i = Some _ |- context [alter ?g ?i (?l ++ ?l2)] =>
    rewrite (alter_app_old l _ i g _ H)
  | H : ?l !! ?i = Some _ |- context [<[?i := ?x]> (alter ?g ?i ?l ++ ?l2)] =>
    rewrite (insert_alter_app_old l _ i g x _ H)
  end.

(** The length of a prefix whose cells have been updated in place. *)
Ltac wlen := rewrite ?length_insert, ?length_alter; reflexivity.

Ltac wlist_new :=
  repeat match goal with
  | |- context [(?l1 ++ ?l2) !! (length ?l0 + ?k)] =>
    rewrite (lookup_app_at l1 _ (length l0) k) by wlen
  | |- context [(?l1 ++ ?l2) !! length ?l0] =>
    rewrite (lookup_app_at0 l1 _ (length l0)) by wlen
  | |- context [<[length ?l0 + ?k := ?x]> (?l1 ++ ?l2)] =>
    rewrite (insert_app_at l1 _ (length l0) k x) by wlen
  | |- context [<[length ?l0 := ?x]> (?l1 ++ ?l2)] =>
    rewrite (insert_app_at0 l1 _ (length l0) x) by wlen
  | |- context [alter ?g (length ?l0 + ?k) (?l1 ++ ?l2)] =>
    rewrite (alter_app_at l1 _ (length l0) k g) by wlen
  | |- context [alter ?g (length ?l0) (?l1 ++ ?l2)] =>
    rewrite (alter_app_at0 l1 _ (length l0) g) by wlen
  end.

(** The tables and queues of the world are brought to the form
    [prefix ++ cells]; strings are left as they are. *)
Ltac wassoc :=
  rewrite <- ?(@app_assoc pcell), <- ?(@app_assoc errObj), <- ?(@app_assoc event),
    <- ?(@app_assoc console_entry), <- ?(@app_assoc job), <- ?(@app_assoc io_req),
    <- ?(@app_assoc (command * nat)),
    ?(@app_nil_r pcell), ?(@app_nil_r errObj), ?(@app_nil_r event),
    ?(@app_nil_r console_entry), ?(@app_nil_r job), ?(@app_nil_r io_req),
    ?(@app_nil_r (command * nat)).

Ltac wlist :=
  wassoc;
  rewrite ?(@length_app pcell), ?(@length_app errObj), ?length_insert, ?length_alter,
    <- ?Nat.add_assoc, ?Nat.add_0_r;
  wlist_new; wlist_old.

(** Rewriting with the equations of the components, set by their files. *)
Ltac wextra := idtac.

Ltac wstep :=
  try autounfold with world_unfold; st_unfold; wcbn; wlist; wextra; wcbn.

#[export] Hint Unfold mkdirp fs_writeFile perform_write : world_unfold.

(** Rewrite with the hypotheses that say what the environment answers. *)
Ltac wrewrite :=
  repeat match goal with
  | H : mkdirp_sync _ _ _ _ = _ |- _ => rewrite H
  | H : fs_write _ _ _ _ = _ |- _ => rewrite H
  | H : _ = Done _ |- _ => rewrite H
  | H : _ = Failed _ |- _ => rewrite H
  | H : value_truthy _ = _ |- _ => rewrite H
  | H : truthy _ = _ |- _ => rewrite H
  | H : _ !! _ = _ |- _ => rewrite H
  | H : ?b = true |- context [if ?b then _ else _] => rewrite H
  | H : ?b = false |- context [if ?b then _ else _] => rewrite H
  end.

(** Make a call: the result and the world after it are computed. *)
Ltac wcall := eexists _, _; split; [repeat (wstep; wrewrite); reflexivity |].

(** Replace a world by its fields. *)
Ltac wdestruct w :=
  let c := fresh "c" in
  destruct w as [c ? ? ? ? ? ? ? ? ? ? ? ? ?]; destruct c;
  cbn [w_cfg w_now w_fs w_proms w_flow w_ncmd w_io w_jobs w_heap w_console w_trace
       w_screenshot w_click w_listeners
       c_env c_pid c_cwd c_native c_stack c_gs c_session c_reply] in *;
  subst.

(** ** Lemmas on promises *)

Lemma settle_Ret p s w : (settle p s w).1 = Ret tt.
Proof. unfold settle. by repeat case_match. Qed.

Lemma settle_pending p s w k rs :
  w_proms w !! p = Some (mkCell k Pending rs) ->
  settle p s w =
    (Ret tt, upd_jobs (fun q => q ++ ((fun r => mkJob r s) <$> rs))
               (upd_proms (fun ps => <[p := mkCell k (Settled s) []]> ps) w)).
Proof. intros Hp. unfold settle. by rewrite Hp. Qed.

Lemma settle_not_pending p s w :
  promise_state w p <> Some Pending -> settle p s w = (Ret tt, w).
Proof.
  unfold promise_state, settle. destruct (w_proms w !! p) as [[k [] rs]|]; naive_solver.
Qed.

Lemma settle_state p s w :
  promise_state (settle p s w).2 p =
    match promise_state w p with
    | Some Pending => Some (Settled s)
    | o => o
    end.
Proof.
  unfold promise_state, settle.
  destruct (w_proms w !! p) as [[k [|s0] rs]|] eqn:Hp; simpl; rewrite ?Hp; try done.
  rewrite list_lookup_insert_eq by eauto using lookup_lt_Some. done.
Qed.

Lemma settle_other p q s w :
  p <> q -> w_proms (settle p s w).2 !! q = w_proms w !! q.
Proof.
  intros Hne. unfold settle.
  destruct (w_proms w !! p) as [[k [|s0] rs]|]; simpl; try done.
  by rewrite list_lookup_insert_ne.
Qed.

Lemma settle_length p s w : length (w_proms (settle p s w).2) = length (w_proms w).
Proof.
  unfold settle. destruct (w_proms w !! p) as [[k [|s0] rs]|]; simpl; try done.
  by rewrite length_insert.
Qed.

Lemma new_promise_state k w :
  promise_state (new_promise k w).2 (length (w_proms w)) = Some Pending.
Proof.
  unfold promise_state. simpl. rewrite lookup_app_r by lia.
  by rewrite Nat.sub_diag.
Qed.

Lemma new_promise_old k w q c :
  w_proms w !! q = Some c -> w_proms (new_promise k w).2 !! q = Some c.
Proof. intros Hq. simpl. by apply lookup_app_l_Some. Qed.

Lemma then_pending p ok err w k rs :
  w_proms w !! p = Some (mkCell k Pending rs) ->
  then_ p ok err w =
    (Ret (length (w_proms w)),
     upd_proms (alter (add_reaction (mkReaction ok err (length (w_proms w)))) p)
       (upd_proms (fun ps => ps ++ [mkCell k Pending []]) w)).
Proof. intros Hp. unfold then_, new_promise. st_run. by rewrite Hp. Qed.

Lemma then_settled p ok err w k s rs :
  w_proms w !! p = Some (mkCell k (Settled s) rs) ->
  then_ p ok err w =
    (Ret (length (w_proms w)),
     upd_jobs (fun q => q ++ [mkJob (mkReaction ok err (length (w_proms w))) s])
       (upd_proms (fun ps => ps ++ [mkCell k Pending []]) w)).
Proof. intros Hp. unfold then_, new_promise. st_run. by rewrite Hp. Qed.

Lemma then_throws p ok err w :
  w_proms w !! p = None ->
  exists r w', then_ p ok err w = (Throw r, w').
Proof. intros Hp. unfold then_, type_error. st_run. rewrite Hp. eauto. Qed.

(** ** The directory-ensure step *)

Section MkdirpCall.
Context `{PathLaws}.
Context (w : World).
Context (Hcwd : path_absolute (c_cwd (w_cfg w)) = true) (Hwf : fs_wf (w_fs w)).

(** C22: the call of line 161 (and 293): when [mkdirp.sync(dir)] returns, the
    directory exists, every node that was there is still there unchanged,
    every node added is a directory, the file system is still well formed,
    and nothing else of the world has changed. *)
Theorem mkdirp_ensures dir w1 :
  mkdirp dir w = (Ret tt, w1) ->
  is_dir (w_fs w1) (path_resolve (c_cwd (w_cfg w)) dir) = true /\
  fs_grows (w_fs w) (w_fs w1) /\ fs_wf (w_fs w1) /\
  w1 = upd_fs (fun _ => w_fs w1) w.
Proof.
  unfold mkdirp. st_run. destruct (mkdirp_sync _ _ _ _) as [e|fs'] eqn:Hm; [done |].
  intros [= <-]. by apply mkdirp_sync_inr in Hm as (? & ? & ?).
Qed.

(** C21: the directory-ensure step is idempotent: once it has returned for a
    directory, a second call for the same directory returns as well and
    changes nothing. *)
Theorem mkdirp_idempotent dir w1 :
  mkdirp dir w = (Ret tt, w1) -> mkdirp dir w1 = (Ret tt, w1).
Proof.
  unfold mkdirp. st_run. destruct (mkdirp_sync _ _ _ _) as [e|fs'] eqn:Hm; [done |].
  intros [= <-]. apply mkdirp_sync_inr in Hm as (Hd & _ & Hwf'); [| done..].
  cbn [w_cfg w_fs upd_fs]. by rewrite mkdirp_sync_exists.
Qed.

(** the recursion of [mkdirp.sync] ends within the stack: when the stack
    is as deep as the resolved path is long, the call returns with the
    directory in place or throws the error of a system call, never a
    [RangeError]. *)
Theorem mkdirp_terminates dir :
  length (path_resolve (c_cwd (w_cfg w)) dir) <= c_stack (w_cfg w) ->
  match mkdirp dir w with
  | (Ret _, w1) => is_dir (w_fs w1) (path_resolve (c_cwd (w_cfg w)) dir) = true
  | (Throw r, w1) =>
    exists code path, w_heap w1 !! r = Some (fs_error_obj code "mkdir" path)
  end.
Proof.
  intros Hlen. pose proof (mkdirp_sync_depth _ Hcwd _ dir _ Hwf Hlen) as Hso.
  unfold mkdirp. st_run. destruct (mkdirp_sync _ _ _ _) as [[code path|]|fs'] eqn:Hm;
    [| done |].
  - exists code, path. unfold zoom_heap, st_zoom, heap_alloc. cbn.
    by rewrite lookup_app_r, Nat.sub_diag.
  - by apply mkdirp_sync_inr in Hm as (? & ? & ?).
Qed.

(** the directory-ensure step succeeds whenever the directory can be made:
    when every missing directory on the way is one the system lets be made
    and the stack is deep enough for them, [mkdirp.sync(dir)] returns, the
    directory exists, and only the file system has changed. *)
Theorem mkdirp_succeeds dir :
  makeable (c_stack (w_cfg w)) (w_fs w) (path_resolve (c_cwd (w_cfg w)) dir) = true ->
  exists fs1, mkdirp dir w = (Ret tt, upd_fs (fun _ => fs1) w) /\
    is_dir fs1 (path_resolve (c_cwd (w_cfg w)) dir) = true /\
    fs_grows (w_fs w) fs1 /\ fs_wf fs1.
Proof.
  intros Hmk. destruct (mkdirp_sync_makeable _ Hcwd _ dir _ Hwf Hmk) as [fs1 Hm].
  exists fs1. unfold mkdirp. st_run. rewrite Hm. split; [done |].
  by eapply mkdirp_sync_inr.
Qed.

End MkdirpCall.

Lemma mkdirp_ensures_witness :
  is_dir (w_fs (mkdirp (str "report/shots") sample_world).2)
    (path_resolve (c_cwd (w_cfg sample_world)) (str "report/shots")) = true /\
  fs_grows (w_fs sample_world) (w_fs (mkdirp (str "report/shots") sample_world).2) /\
  fs_wf (w_fs (mkdirp (str "report/shots") sample_world).2) /\
  (mkdirp (str "report/shots") sample_world).2
  = upd_fs (fun _ => w_fs (mkdirp (str "report/shots") sample_world).2) sample_world.
Proof.
  apply (mkdirp_ensures sample_world); [vm_compute; reflexivity | apply home_fs_wf |].
  vm_compute. reflexivity.
Defined.

Lemma mkdirp_idempotent_witness :
  mkdirp (str "report/shots") (mkdirp (str "report/shots") sample_world).2
  = (Ret tt, (mkdirp (str "report/shots") sample_world).2).
Proof.
  apply (mkdirp_idempotent sample_world); [vm_compute; reflexivity | apply home_fs_wf |].
  vm_compute. reflexivity.
Defined.

Lemma mkdirp_terminates_witness :
  match mkdirp (str "report/shots") sample_world with
  | (Ret _, w1) =>
    is_dir (w_fs w1) (path_resolve (c_cwd (w_cfg sample_world)) (str "report/shots")) = true
  | (Throw r, w1) =>
    exists code path, w_heap w1 !! r = Some (fs_error_obj code "mkdir" path)
  end.
Proof.
  apply (mkdirp_terminates sample_world); [vm_compute; reflexivity | apply home_fs_wf |].
  vm_compute. lia.
Defined.

Lemma mkdirp_succeeds_witness :
  exists fs1, mkdirp (str "report/shots") sample_world
              = (Ret tt, upd_fs (fun _ => fs1) sample_world) /\
    is_dir fs1 (path_resolve (c_cwd (w_cfg sample_world)) (str "report/shots")) = true /\
    fs_grows (w_fs sample_world) fs1 /\ fs_wf fs1.
Proof.
  apply (mkdirp_succeeds sample_world); [vm_compute; reflexivity | apply home_fs_wf |].
  vm_compute. reflexivity.
Defined.
