(* ===== verification/Bridge.v ===== *)
(** * The awaitable bridge

    [p] ([src/index.js]:21-35) gives the capture service one kind of deferred
    result whether or not the host has native promises: it always creates a
    deferred of the driver's promise library, and when [global.Promise]
    exists it creates a native promise as well and hands out that one, with
    the two functions its executor received.

    The abstract contract is [awaitable_spec]: the state of the promise is
    decided by the first call of [fulfill] or [reject]; later calls do
    nothing. *)

From S2P Require Import Prelude JsString Values World.

#[local] Open Scope st_scope.

Definition p : St World eref deferred :=
  wdPromiz <- new_promise Managed ;;
  native <- cfg c_native ;;
  if native then
    promiz <- new_promise Native ;;
    st_ret {| d_promise := promiz; d_fulfill := promiz; d_reject := promiz |}
  else
    st_ret {| d_promise := wdPromiz; d_fulfill := wdPromiz; d_reject := wdPromiz |}.

(** [deferred.fulfill(v)] and [deferred.reject(err)] *)
Definition fulfill (d : deferred) (v : value) : St World eref unit :=
  settle (d_fulfill d) (Fulfilled v).

Definition reject (d : deferred) (r : eref) : St World eref unit :=
  settle (d_reject d) (Rejected r).

(** ** The abstract contract *)

(** A call of one of the two settling functions. *)
Definition settle_call (d : deferred) (s : settled) : St World eref unit :=
  match s with
  | Fulfilled v => fulfill d v
  | Rejected r => reject d r
  end.

Fixpoint settle_calls (d : deferred) (calls : list settled) : St World eref unit :=
  match calls with
  | [] => st_ret tt
  | s :: calls' => settle_call d s ;; settle_calls d calls'
  end.

(** The first call decides. *)
Definition awaitable_spec (calls : list settled) : pstate :=
  match calls with
  | [] => Pending
  | s :: _ => Settled s
  end.

#[export] Hint Unfold p fulfill reject settle_call : world_unfold.

(** ** Helper lemmas *)

Lemma p_run w :
  p w =
    if c_native (w_cfg w) then
      (Ret (mkDeferred (S (length (w_proms w))) (S (length (w_proms w)))
              (S (length (w_proms w)))),
       upd_proms (fun ps => ps ++ [mkCell Native Pending []])
         (upd_proms (fun ps => ps ++ [mkCell Managed Pending []]) w))
    else
      (Ret (mkDeferred (length (w_proms w)) (length (w_proms w)) (length (w_proms w))),
       upd_proms (fun ps => ps ++ [mkCell Managed Pending []]) w).
Proof.
  unfold p, cfg, new_promise. st_run. cbn [w_cfg upd_proms].
  destruct (c_native (w_cfg w)); cbn [w_proms upd_proms]; [| done].
  by rewrite length_app, Nat.add_1_r.
Qed.

Lemma settle_call_state d s w :
  d_fulfill d = d_promise d -> d_reject d = d_promise d ->
  promise_state (settle_call d s w).2 (d_promise d) =
    match promise_state w (d_promise d) with
    | Some Pending => Some (Settled s)
    | o => o
    end.
Proof.
  intros Hf Hr. destruct s; unfold settle_call, fulfill, reject;
    rewrite ?Hf, ?Hr; apply settle_state.
Qed.

Lemma settle_call_Ret d s w : (settle_call d s w).1 = Ret tt.
Proof. destruct s; apply settle_Ret. Qed.

Lemma settle_calls_state d calls : forall w,
  d_fulfill d = d_promise d -> d_reject d = d_promise d ->
  promise_state (settle_calls d calls w).2 (d_promise d) =
    match promise_state w (d_promise d) with
    | Some Pending => Some (awaitable_spec calls)
    | o => o
    end.
Proof.
  induction calls as [|s calls IH]; intros w Hf Hr; simpl.
  - by destruct (promise_state w (d_promise d)) as [[]|].
  - pose proof (settle_call_Ret d s w) as HR. pose proof (settle_call_state d s w Hf Hr) as HS.
    unfold st_bind. destruct (settle_call d s w) as [[[]|e] w1]; [| done].
    simpl in HS. rewrite IH, HS by done.
    by destruct (promise_state w (d_promise d)) as [[]|].
Qed.

(** ** Properties *)

(** [p] returns a deferred whose two settling functions settle the
    promise it hands out, and that promise is a new one, pending, without
    reactions, native exactly when the host has native promises; no existing
    promise is touched. *)
Theorem p_fresh w :
  exists d w', p w = (Ret d, w') /\
    d_fulfill d = d_promise d /\ d_reject d = d_promise d /\
    length (w_proms w) <= d_promise d /\
    w_proms w' !! d_promise d =
      Some (mkCell (if c_native (w_cfg w) then Native else Managed) Pending []) /\
    (forall q c, w_proms w !! q = Some c -> w_proms w' !! q = Some c) /\
    w' = upd_proms (fun _ => w_proms w') w.
Proof.
  rewrite p_run. destruct (c_native (w_cfg w)); eexists _, _; (split; [done |]);
    cbn [d_fulfill d_reject d_promise w_proms upd_proms]; repeat split; try lia.
  - rewrite lookup_app_r by (rewrite length_app; simpl; lia).
    rewrite length_app. simpl. by replace (_ - _) with 0 by lia.
  - intros q c Hq. by do 2 apply lookup_app_l_Some.
  - rewrite lookup_app_r by lia. by rewrite Nat.sub_diag.
  - intros q c Hq. by apply lookup_app_l_Some.
Qed.

(** C5: the bridge implements the awaitable contract with either promise
    library: after any sequence of calls of [fulfill] and [reject] on the
    deferred [p] returned, the promise is pending if there was no call and
    is settled as the first call said otherwise. *)
Theorem p_refines_awaitable w calls :
  exists d w1, p w = (Ret d, w1) /\
    promise_state (settle_calls d calls w1).2 (d_promise d) = Some (awaitable_spec calls).
Proof.
  destruct (p_fresh w) as (d & w1 & Hp & Hf & Hr & _ & Hcell & _).
  exists d, w1. split; [done |].
  rewrite settle_calls_state by done. unfold promise_state. by rewrite Hcell.
Qed.

(** a second call of a settling function is a no-op on the whole world:
    no state changes and no reaction is queued again. *)
Theorem settle_call_once d s1 s2 w :
  d_fulfill d = d_promise d -> d_reject d = d_promise d ->
  promise_state w (d_promise d) = Some Pending ->
  settle_call d s2 (settle_call d s1 w).2 = (Ret tt, (settle_call d s1 w).2).
Proof.
  intros Hf Hr Hp.
  assert (promise_state (settle_call d s1 w).2 (d_promise d) = Some (Settled s1)) as Hs
    by by rewrite settle_call_state, Hp.
  destruct s2; unfold settle_call at 1, fulfill, reject; rewrite ?Hf, ?Hr;
    apply settle_not_pending; by rewrite Hs.
Qed.

Lemma settle_call_once_witness :
  settle_call (mkDeferred 0 0 0) (Rejected 0)
    (settle_call (mkDeferred 0 0 0) (Fulfilled VNull) (new_promise Managed sample_world).2).2
  = (Ret tt,
     (settle_call (mkDeferred 0 0 0) (Fulfilled VNull) (new_promise Managed sample_world).2).2).
Proof.
  apply (settle_call_once (mkDeferred 0 0 0) (Fulfilled VNull) (Rejected 0)
           (new_promise Managed sample_world).2); reflexivity.
Defined.

(** a reaction registered on the promise of a fresh deferred is queued
    exactly once, with the result of the first settling call, however many
    calls follow. *)
Theorem p_reaction_once w ok err s calls :
  exists d w1 d' w2,
    p w = (Ret d, w1) /\ then_ (d_promise d) ok err w1 = (Ret d', w2) /\
    w_jobs (settle_calls d (s :: calls) w2).2 =
      w_jobs w ++ [mkJob (mkReaction ok err d') s].
Proof.
  destruct (p_fresh w) as (d & w1 & Hp & Hf & Hr & _ & Hcell & _ & Hw1).
  exists d, w1. rewrite (then_pending _ _ _ _ _ _ Hcell). eexists _, _.
  do 2 (split; [done |]).
  set (w2 := upd_proms _ _).
  assert (w_proms w2 !! d_promise d =
          Some (mkCell (if c_native (w_cfg w) then Native else Managed) Pending
                  [mkReaction ok err (length (w_proms w1))])) as Hc2.
  { unfold w2. cbn [w_proms upd_proms]. rewrite list_lookup_alter_eq.
    by rewrite (lookup_app_l_Some _ _ _ _ Hcell). }
  cbn [settle_calls]. unfold st_bind.
  assert (settle_call d s w2 = settle (d_promise d) s w2) as ->
    by (destruct s; unfold settle_call, fulfill, reject; by rewrite ?Hf, ?Hr).
  rewrite (settle_pending _ _ _ _ _ Hc2).
  set (w3 := upd_jobs _ _).
  assert (promise_state w3 (d_promise d) = Some (Settled s)) as Hs3.
  { unfold promise_state, w3. cbn [w_proms upd_jobs upd_proms].
    rewrite list_lookup_insert_eq; [done |]. eauto using lookup_lt_Some. }
  assert (forall cs, (settle_calls d cs w3).2 = w3) as ->.
  { induction cs as [|c cs IH]; [done |]. cbn [settle_calls]. unfold st_bind.
    assert (settle_call d c w3 = (Ret tt, w3)) as ->; [| done].
    destruct c; unfold settle_call, fulfill, reject; rewrite ?Hf, ?Hr;
      apply settle_not_pending; by rewrite Hs3. }
  unfold w3, w2. cbn [w_jobs upd_jobs upd_proms]. rewrite Hw1. done.
Qed.
