(* ===== verification/Capture.v ===== *)
(** * The capture service: [snap], [source], [done], [setCurrentTestTitle]

    The four methods of the object [setup] installs as [nemo.screenshot]
    ([src/index.js]:132-326), and the function values they pass to [then] and
    to [fs.writeFile].  Each method and each callback is one definition,
    parameterised by the variables it captures: [screenShotPath] (the
    argument of [setup]) and, for a callback, the file name and the deferred
    of the call it belongs to. *)

From S2P Require Import Prelude JsString Values Jenkins StackTrace Path Fs World Bridge.

#[local] Open Scope st_scope.

Section Capture.
Context `{PathOps}.

(** ** [snap] (lines 145-190) *)

Definition snap (screenShotPath filename : jsstring) : St World eref pid :=
  deferred <- p ;;
  session <- driver_getSession ;;
  if negb (jsref_truthy session) then
    fulfill deferred (VBool true) ;;
    st_ret (d_promise deferred)
  else
    shot <- schedule TakeScreenshot ;;
    then_ shot (Some (OkSnapShot screenShotPath filename deferred))
      (Some (ErrReject deferred)) ;;
    st_ret (d_promise deferred).

(** The Jenkins URLs of an image, looked up only when [JENKINS_URL] is set
    (lines 167-173). *)
Definition jenkins_urls (screenShotPath imageName : jsstring)
  : St World eref (option imageUrls) :=
  env <- cfg c_env ;;
  if truthy (JENKINS_URL env)
  then zoom_console (formatJenkinsImageUrls env screenShotPath imageName)
  else st_ret None.

Definition with_urls (imageName imageFullPath : jsstring) (urls : option imageUrls) : imageObj :=
  match urls with
  | Some u => mkImage imageName imageFullPath (u_imageUrl u) (u_archivedImageUrl u)
  | None => mkImage imageName imageFullPath None None
  end.

(** The function given to [takeScreenshot().then] (lines 154-185). *)
Definition snap_onScreenshot (screenShotPath filename : jsstring) (deferred : deferred)
    (screenImg : value) : St World eref value :=
  let imageName := filename ++ str ".png" in
  cwd <- cfg c_cwd ;;
  let imageDir := path_resolve cwd screenShotPath in
  let imageFullPath := path_join imageDir imageName in
  mkdirp (path_dirname imageFullPath) ;;
  imageUrls <- jenkins_urls screenShotPath imageName ;;
  let imageObj := with_urls imageName imageFullPath imageUrls in
  fs_writeFile imageFullPath (value_to_str screenImg) Base64
    (CbSnapWritten deferred imageObj) ;;
  st_ret VUndefined.

(** The callback of [fs.writeFile] in [snap] (lines 178-184). *)
Definition snap_onWritten (deferred : deferred) (imageObj : imageObj) (err : option eref)
  : St World eref unit :=
  match err with
  | Some r => reject deferred r
  | None => fulfill deferred (VImage imageObj)
  end.

(** [function (err) { deferred.reject(err); }] (lines 185-187, 306-308) *)
Definition reject_with (deferred : deferred) (err : eref) : St World eref value :=
  reject deferred err ;;
  st_ret VUndefined.

(** ** [source] (lines 202-311) *)

Definition source (screenShotPath filename : jsstring) : St World eref pid :=
  deferred <- p ;;
  session <- driver_getSession ;;
  if negb (jsref_truthy session) then
    fulfill deferred (VBool true) ;;
    st_ret (d_promise deferred)
  else
    script <- schedule ExecuteInvisiScript ;;
    then_ script (Some (OkSourceScript screenShotPath filename)) None ;;
    page <- schedule GetPageSource ;;
    then_ page (Some (OkSourcePage screenShotPath filename deferred))
      (Some (ErrReject deferred)) ;;
    st_ret (d_promise deferred).

(** The function given to [executeScript(script).then] (lines 272-283). *)
Definition source_onScript (screenShotPath filename : jsstring)
    (bin_str_invisiNodes : value) : St World eref value :=
  let invisinodeName := filename ++ str ".txt" in
  cwd <- cfg c_cwd ;;
  let folderPath := path_resolve cwd screenShotPath in
  let filePath := path_join folderPath invisinodeName in
  fs_writeFile filePath (value_to_str bin_str_invisiNodes) Utf8 CbScriptWritten ;;
  st_ret VUndefined.

(** The callback of that [fs.writeFile] (lines 278-282). *)
Definition source_onScriptWritten (err : option eref) : St World eref unit :=
  match err with
  | Some r => zoom_console (console_error r)
  | None => st_ret tt
  end.

(** The function given to [getPageSource().then] (lines 286-306). *)
Definition source_onPage (screenShotPath filename : jsstring) (deferred : deferred)
    (src : value) : St World eref value :=
  let sourceName := filename ++ str ".html" in
  cwd <- cfg c_cwd ;;
  let sourceDir := path_resolve cwd screenShotPath in
  let sourceFullPath := path_join sourceDir sourceName in
  mkdirp (path_dirname sourceFullPath) ;;
  let sourceObj := mkSource sourceName sourceFullPath in
  fs_writeFile sourceFullPath (value_to_str src) Utf8
    (CbSourceWritten deferred sourceObj) ;;
  st_ret VUndefined.

(** The callback of [fs.writeFile] in [source] (lines 299-305). *)
Definition source_onWritten (deferred : deferred) (sourceObj : sourceObj) (err : option eref)
  : St World eref unit :=
  match err with
  | Some r => reject deferred r
  | None => fulfill deferred (VSource sourceObj)
  end.

(** ** [done] (lines 313-321) *)

Definition done (screenShotPath filename : jsstring) (done : N) (err : option eref)
  : St World eref unit :=
  shot <- snap screenShotPath filename ;;
  then_ shot (Some (OkDone done err)) (Some (ErrDone done)) ;;
  st_ret tt.

(** [function (imageObject) { ... }] (lines 314-317) *)
Definition done_onSnap (done : N) (err : option eref) (imageObject : value)
  : St World eref value :=
  zoom_heap (appendImageUrlToStackTrace imageObject err) ;;
  call_callback done err ;;
  st_ret VUndefined.

(** [function (scerror) { ... }] (lines 317-320) *)
Definition done_onError (done : N) (scerror : eref) : St World eref value :=
  h <- st_gets w_heap ;;
  match h !! scerror with
  | Some e =>
    zoom_console
      (console_log (str "nemo-screenshot encountered some error. " ++ err_toString e)) ;;
    call_callback done (Some scerror) ;;
    st_ret VUndefined
  | None => type_error "Cannot read property 'toString' of undefined"
  end.

(** ** [setCurrentTestTitle] (lines 323-325) *)

Definition setCurrentTestTitle (title : option jsstring) : St World eref unit :=
  st_modify (upd_screenshot (fmap (fun pl => mkPlugin (pl_path pl) title))).

(** ** Calls through [nemo.screenshot]

    The hooks call [nemo.screenshot.snap] and [nemo.screenshot.source] (lines
    335-337, 359-362): the object is looked up when the call is made. *)
Definition nemo_snap (filename : jsstring) : St World eref pid :=
  pl <- st_gets w_screenshot ;;
  match pl with
  | Some pl => snap (pl_path pl) filename
  | None => type_error "Cannot read property 'snap' of undefined"
  end.

Definition nemo_source (filename : jsstring) : St World eref pid :=
  pl <- st_gets w_screenshot ;;
  match pl with
  | Some pl => source (pl_path pl) filename
  | None => type_error "Cannot read property 'source' of undefined"
  end.

(** ** What the operations promise

    The session guard of [snap] and [source] lets a call through when
    [getSession()] returned something truthy: a promise always is. *)
Definition session_present (c : Config) : bool :=
  match c_gs c with
  | GsPromise => true
  | GsValue => value_truthy (c_session c)
  end.

(** The promises a call of [snap] or [source] creates before it issues its
    first command: the driver's deferred, the native promise when the host
    has one, and the promise [getSession] returned; and the one of them the
    call returns. *)
Definition entry_cells (c : Config) : list pcell :=
  (if c_native c then [mkCell Managed Pending []; mkCell Native Pending []]
   else [mkCell Managed Pending []])
  ++ match c_gs c with
     | GsPromise => [mkCell Managed (Settled (Fulfilled (c_session c))) []]
     | GsValue => []
     end.

Definition entry_deferred (w : World) : pid :=
  length (w_proms w) + (if c_native (w_cfg w) then 1 else 0).

(** The file a capture named [f] is written to, the URLs its result carries
    and the diagnostics printed on the way. *)
Definition capture_file (cwd screenShotPath f : jsstring) (ext : string) : jsstring :=
  path_join (path_resolve cwd screenShotPath) (f ++ str ext).

Definition snap_urls (env : Env) (screenShotPath imageName : jsstring) : option imageUrls :=
  if truthy (JENKINS_URL env)
  then jenkins_spec env (jenkins_rel env screenShotPath) imageName
  else None.

Definition snap_log (env : Env) : console :=
  if truthy (JENKINS_URL env) then jenkins_diag env else [].

(** The object a successful [snap] resolves with. *)
Definition snap_image (c : Config) (screenShotPath f : jsstring) : imageObj :=
  with_urls (f ++ str ".png") (capture_file (c_cwd c) screenShotPath f ".png")
    (snap_urls (c_env c) screenShotPath (f ++ str ".png")).

(** The heap after [done] has annotated the error it was given. *)
Definition annotated (err : option eref) (v : value) (h : heap) : heap :=
  match err with
  | Some r => alter (append_stack (stack_output v)) r h
  | None => h
  end.

(** The object a successful [source] resolves with. *)
Definition source_result (c : Config) (screenShotPath f : jsstring) : sourceObj :=
  mkSource (f ++ str ".html") (capture_file (c_cwd c) screenShotPath f ".html").

End Capture.

#[export] Hint Unfold entry_cells entry_deferred snap_onScreenshot snap_onWritten reject_with
  source_onScript source_onScriptWritten source_onPage source_onWritten
  done_onSnap done_onError setCurrentTestTitle nemo_snap nemo_source : world_unfold.

(** ** Lemmas *)

Section CaptureLemmas.
Context `{PathOps}.

Lemma jenkins_urls_run screenShotPath imageName w :
  jenkins_urls screenShotPath imageName w =
    (Ret (snap_urls (c_env (w_cfg w)) screenShotPath imageName),
     upd_console (fun c => c ++ snap_log (c_env (w_cfg w))) w).
Proof.
  unfold jenkins_urls, cfg, zoom_console, snap_urls, snap_log. st_run.
  destruct (truthy _).
  - by rewrite format_run.
  - destruct w. unfold upd_console. cbn. by rewrite app_nil_r.
Qed.

Lemma session_present_truthy w :
  exists r w', driver_getSession w = (Ret r, w') /\
    jsref_truthy r = session_present (w_cfg w).
Proof.
  unfold driver_getSession, session_present, cfg, new_promise. st_run.
  destruct (c_gs (w_cfg w)); [| by eexists _, _].
  destruct (settle _ _ _) as [[[]|] w'] eqn:Hs; [by eexists _, _ |].
  pose proof (settle_Ret (length (w_proms w)) (Fulfilled (c_session (w_cfg w)))
                (upd_proms (fun ps => ps ++ [mkCell Managed Pending []]) w)) as HR.
  by rewrite Hs in HR.
Qed.

(** What a call of [snap] leaves when there is a session: the cells of the
    bridge and of [getSession], the screenshot command at the end of the
    driver's queue, and on its promise the two callbacks of lines 154-187. *)
Lemma snap_run_cells screenShotPath f w :
  session_present (w_cfg w) = true ->
  let ps := w_proms w ++ entry_cells (w_cfg w) in
  let d := entry_deferred w in
  snap screenShotPath f w =
    (Ret d,
     upd_flow (fun q => q ++ [(TakeScreenshot, length ps)])
       (upd_proms (fun _ =>
          ps ++ [mkCell Managed Pending
                   [mkReaction (Some (OkSnapShot screenShotPath f (mkDeferred d d d)))
                      (Some (ErrReject (mkDeferred d d d))) (length ps + 1)];
                 mkCell Managed Pending []]) w)).
Proof.
  unfold session_present, entry_cells, entry_deferred, snap. intros Hs. wdestruct w.
  destruct c_native, c_gs; repeat (wstep; wrewrite); reflexivity.
Qed.

Lemma entry_deferred_pending w :
  exists k, (w_proms w ++ entry_cells (w_cfg w)) !! entry_deferred w =
            Some (mkCell k Pending []).
Proof.
  unfold entry_cells, entry_deferred.
  destruct (c_native (w_cfg w)), (c_gs (w_cfg w)); eexists; by wstep.
Qed.

(** The deferred among the cells of an entry, whatever the cells are. *)
Lemma entry_cells_deferred c :
  exists k, entry_cells c !! (if c_native c then 1 else 0) = Some (mkCell k Pending []).
Proof. unfold entry_cells. destruct (c_native c); by eexists. Qed.

(** The same for a client that does not look into the bridge: the deferred
    [d] is among the promises, pending and without reactions, and no promise
    that existed has changed. *)
Lemma snap_run screenShotPath f w :
  session_present (w_cfg w) = true ->
  exists d ps k,
    w_proms w `prefix_of` ps /\ ps !! d = Some (mkCell k Pending []) /\
    snap screenShotPath f w =
      (Ret d,
       upd_flow (fun q => q ++ [(TakeScreenshot, length ps)])
         (upd_proms (fun _ =>
            ps ++ [mkCell Managed Pending
                     [mkReaction (Some (OkSnapShot screenShotPath f (mkDeferred d d d)))
                        (Some (ErrReject (mkDeferred d d d))) (length ps + 1)];
                   mkCell Managed Pending []]) w)).
Proof.
  intros Hs. destruct (entry_deferred_pending w) as [k Hk].
  exists (entry_deferred w), (w_proms w ++ entry_cells (w_cfg w)), k.
  split; [by eexists |]. split; [done |]. by apply snap_run_cells.
Qed.

Lemma source_run_cells screenShotPath f w :
  session_present (w_cfg w) = true ->
  let ps := w_proms w ++ entry_cells (w_cfg w) in
  let d := entry_deferred w in
  source screenShotPath f w =
    (Ret d,
     upd_flow (fun q => q ++ [(ExecuteInvisiScript, length ps); (GetPageSource, length ps + 2)])
       (upd_proms (fun _ =>
          ps ++ [mkCell Managed Pending
                   [mkReaction (Some (OkSourceScript screenShotPath f)) None (length ps + 1)];
                 mkCell Managed Pending [];
                 mkCell Managed Pending
                   [mkReaction (Some (OkSourcePage screenShotPath f (mkDeferred d d d)))
                      (Some (ErrReject (mkDeferred d d d))) (length ps + 3)];
                 mkCell Managed Pending []]) w)).
Proof.
  unfold session_present, entry_cells, entry_deferred, source. intros Hs. wdestruct w.
  destruct c_native, c_gs; repeat (wstep; wrewrite); reflexivity.
Qed.

(** The same with the world written out by its fields: a call made on a
    world given by its fields leaves one. *)
Lemma snap_run_fields screenShotPath f w :
  session_present (w_cfg w) = true ->
  let ps := w_proms w ++ entry_cells (w_cfg w) in
  let d := entry_deferred w in
  snap screenShotPath f w =
    (Ret d,
     {| w_cfg := w_cfg w; w_now := w_now w; w_fs := w_fs w;
        w_proms :=
          ps ++ [mkCell Managed Pending
                   [mkReaction (Some (OkSnapShot screenShotPath f (mkDeferred d d d)))
                      (Some (ErrReject (mkDeferred d d d))) (length ps + 1)];
                 mkCell Managed Pending []];
        w_flow := w_flow w ++ [(TakeScreenshot, length ps)];
        w_ncmd := w_ncmd w; w_io := w_io w; w_jobs := w_jobs w; w_heap := w_heap w;
        w_console := w_console w; w_trace := w_trace w; w_screenshot := w_screenshot w;
        w_click := w_click w; w_listeners := w_listeners w |}).
Proof. apply snap_run_cells. Qed.

Lemma source_run_fields screenShotPath f w :
  session_present (w_cfg w) = true ->
  let ps := w_proms w ++ entry_cells (w_cfg w) in
  let d := entry_deferred w in
  source screenShotPath f w =
    (Ret d,
     {| w_cfg := w_cfg w; w_now := w_now w; w_fs := w_fs w;
        w_proms :=
          ps ++ [mkCell Managed Pending
                   [mkReaction (Some (OkSourceScript screenShotPath f)) None (length ps + 1)];
                 mkCell Managed Pending [];
                 mkCell Managed Pending
                   [mkReaction (Some (OkSourcePage screenShotPath f (mkDeferred d d d)))
                      (Some (ErrReject (mkDeferred d d d))) (length ps + 3)];
                 mkCell Managed Pending []];
        w_flow := w_flow w ++ [(ExecuteInvisiScript, length ps);
                               (GetPageSource, length ps + 2)];
        w_ncmd := w_ncmd w; w_io := w_io w; w_jobs := w_jobs w; w_heap := w_heap w;
        w_console := w_console w; w_trace := w_trace w; w_screenshot := w_screenshot w;
        w_click := w_click w; w_listeners := w_listeners w |}).
Proof. apply source_run_cells. Qed.

Lemma source_run screenShotPath f w :
  session_present (w_cfg w) = true ->
  exists d ps k,
    w_proms w `prefix_of` ps /\ ps !! d = Some (mkCell k Pending []) /\
    source screenShotPath f w =
      (Ret d,
       upd_flow (fun q => q ++ [(ExecuteInvisiScript, length ps);
                                (GetPageSource, length ps + 2)])
         (upd_proms (fun _ =>
            ps ++ [mkCell Managed Pending
                     [mkReaction (Some (OkSourceScript screenShotPath f)) None
                        (length ps + 1)];
                   mkCell Managed Pending [];
                   mkCell Managed Pending
                     [mkReaction (Some (OkSourcePage screenShotPath f (mkDeferred d d d)))
                        (Some (ErrReject (mkDeferred d d d))) (length ps + 3)];
                   mkCell Managed Pending []]) w)).
Proof.
  intros Hs. destruct (entry_deferred_pending w) as [k Hk].
  exists (entry_deferred w), (w_proms w ++ entry_cells (w_cfg w)), k.
  split; [by eexists |]. split; [done |]. by apply source_run_cells.
Qed.

End CaptureLemmas.

(** Replace the call of [snap] or [source] in the goal by what it leaves:
    the deferred [d], pending in the table [ps]. *)
Ltac wsnap Hs :=
  match goal with
  | |- context [snap ?path ?f ?w] =>
    let d := fresh "d" in let ps := fresh "ps" in let k := fresh "k" in
    let Hd := fresh "Hd" in
    destruct (snap_run path f w Hs) as (d & ps & k & _ & Hd & ->)
  end.

Ltac wsource Hs :=
  match goal with
  | |- context [source ?path ?f ?w] =>
    let d := fresh "d" in let ps := fresh "ps" in let k := fresh "k" in
    let Hd := fresh "Hd" in
    destruct (source_run path f w Hs) as (d & ps & k & _ & Hd & ->)
  end.

(** Forget what the cells of an entry are: a list [E] with the deferred,
    pending, at an index [i].  What a call leaves is then the same for
    every promise library and every way of asking for the session. *)
Ltac wentry :=
  unfold entry_deferred; cbn [w_cfg w_proms upd_flow upd_proms]; wcbn;
  match goal with
  | |- context [entry_cells ?c] =>
    let k := fresh "k" in let Hk := fresh "Hk" in
    let E := fresh "E" in let i := fresh "i" in
    destruct (entry_cells_deferred c) as [k Hk]; cbn [c_native] in Hk;
    set (E := entry_cells c) in *; clearbody E;
    match type of Hk with
    | _ !! ?j = _ => set (i := j) in *; clearbody i
    end
  end.

(** The session guard on a world given by its fields. *)
Ltac wsession := unfold session_present; wcbn; first [reflexivity | assumption].

Ltac wextra ::=
  rewrite ?jenkins_urls_run;
  try (rewrite snap_run_fields by wsession; wentry);
  try (rewrite source_run_fields by wsession; wentry).

(** ** Properties of the calls *)

Section CaptureProperties.
Context `{PathOps}.
Context (screenShotPath f : jsstring) (w : World).

(** C2: without a session [snap] is a no-op that succeeds: it returns a
    promise already fulfilled with [true], issues no command to the driver,
    starts no write and leaves the file system, the heap, the console and
    the queued reactions as they were. *)
Theorem snap_no_session :
  session_present (w_cfg w) = false ->
  exists d w1, snap screenShotPath f w = (Ret d, w1) /\
    promise_state w1 d = Some (Settled (Fulfilled (VBool true))) /\
    w_fs w1 = w_fs w /\ w_flow w1 = w_flow w /\ w_io w1 = w_io w /\
    w_jobs w1 = w_jobs w /\ w_heap w1 = w_heap w /\ w_console w1 = w_console w /\
    w_trace w1 = w_trace w.
Proof.
  unfold session_present, snap. intros Hs. wdestruct w. destruct c_gs; [done |].
  destruct c_native; wcall;
    unfold promise_state; by wstep.
Qed.

(** with a session [snap] issues one [takeScreenshot] command, after the
    commands already queued, and returns a pending promise; nothing is
    written and no reaction runs before the driver answers. *)
Theorem snap_issues_screenshot :
  session_present (w_cfg w) = true ->
  exists d shot w1, snap screenShotPath f w = (Ret d, w1) /\
    w_flow w1 = w_flow w ++ [(TakeScreenshot, shot)] /\
    promise_state w1 d = Some Pending /\ promise_state w1 shot = Some Pending /\
    d <> shot /\
    w_fs w1 = w_fs w /\ w_io w1 = w_io w /\ w_jobs w1 = w_jobs w.
Proof.
  unfold session_present, snap. intros Hs. wdestruct w.
  destruct c_native, c_gs; eexists _; wcall;
    unfold promise_state; (split; [by wstep |]); wstep; repeat split; (done || lia).
Qed.

(** C24: with a driver whose [getSession] returns a promise, the session
    guard of line 149 never fires: [snap] issues the screenshot command even
    when there is no session. *)
Theorem snap_guard_promise :
  c_gs (w_cfg w) = GsPromise -> c_session (w_cfg w) = VNull ->
  exists d shot w1, snap screenShotPath f w = (Ret d, w1) /\
    w_flow w1 = w_flow w ++ [(TakeScreenshot, shot)] /\
    promise_state w1 d = Some Pending.
Proof.
  unfold snap. intros Hgs Hnull. wdestruct w.
  destruct c_native; eexists _; wcall;
    unfold promise_state; (split; [by wstep |]); by wstep.
Qed.

(** [source] has the same guard: without a session it returns a promise
    fulfilled with [true] and issues no command. *)
Theorem source_no_session :
  session_present (w_cfg w) = false ->
  exists d w1, source screenShotPath f w = (Ret d, w1) /\
    promise_state w1 d = Some (Settled (Fulfilled (VBool true))) /\
    w_fs w1 = w_fs w /\ w_flow w1 = w_flow w /\ w_io w1 = w_io w /\
    w_jobs w1 = w_jobs w.
Proof.
  unfold session_present, source. intros Hs. wdestruct w. destruct c_gs; [done |].
  destruct c_native; wcall;
    unfold promise_state; by wstep.
Qed.

(** with a session [source] issues the script and then the page-source
    command, in this order, and registers no rejection handler on the
    script's promise. *)
Theorem source_issues_commands :
  session_present (w_cfg w) = true ->
  exists d script page w1, source screenShotPath f w = (Ret d, w1) /\
    w_flow w1 = w_flow w ++ [(ExecuteInvisiScript, script); (GetPageSource, page)] /\
    (exists k dd, w_proms w1 !! script =
       Some (mkCell k Pending [mkReaction (Some (OkSourceScript screenShotPath f)) None dd])) /\
    promise_state w1 d = Some Pending.
Proof.
  unfold session_present, source. intros Hs. wdestruct w.
  destruct c_native, c_gs; eexists _, _; wcall;
    unfold promise_state; (split; [by wstep |]); wstep; eauto.
Qed.

End CaptureProperties.

(** ** Where the files go, with POSIX paths *)

(** The file of a capture is a canonical path. *)
Lemma capture_file_canonical `{PathLaws} cwd screenShotPath f :
  path_absolute cwd = true -> canonical (capture_file cwd screenShotPath f ".png").
Proof.
  intros Hcwd. unfold capture_file.
  replace (f ++ str ".png") with ((f ++ str ".pn") ++ [103%N]) by by rewrite <- app_assoc.
  apply join_canonical; [by apply resolve_canonical |].
  intros Hsep. pose proof sep_not_word as Hw. by rewrite <- Hsep in Hw.
Qed.

Section CapturePaths.
Context (cwd screenShotPath f : jsstring).

(** C39: a capture whose name holds no slash is written directly into the
    capture directory: the directory of the file is
    [path.resolve(screenShotPath)] and the last segment of its path is the
    name followed by [.png]. *)
Theorem capture_file_in_directory :
  isAbsolute cwd = true -> slash_free f ->
  path_dirname (capture_file cwd screenShotPath f ".png") = path_resolve cwd screenShotPath /\
  exists segs, path_resolve cwd screenShotPath = canon_of segs /\
               capture_file cwd screenShotPath f ".png" = canon_of (segs ++ [f ++ str ".png"]).
Proof.
  intros Hcwd Hf. unfold capture_file. cbn [path_resolve path_join path_dirname posix_path].
  destruct (posix_resolve_form cwd screenShotPath Hcwd) as (segs & Hsegs & ->).
  assert (clean_seg (f ++ str ".png")) as Hname.
  { rewrite str_cons, str_cons. apply clean_seg_ext; [done | | done].
    rewrite <- !str_cons. apply Forall_forall. intros c Hin. by vm_compute in Hin |- *;
      repeat (destruct Hin as [<- | Hin]; [done |]). }
  rewrite posix_join_clean by done. split; [by apply posix_dirname_snoc | eauto].
Qed.

End CapturePaths.

(** a name with [..] segments leaves the capture directory: the file of
    the capture named [../../etc/cron] under [/w/report] is [/etc/cron.png]. *)
Theorem capture_file_escapes :
  capture_file (str "/w") (str "report") (str "../../etc/cron") ".png" = str "/etc/cron.png".
Proof. vm_compute. reflexivity. Qed.

Lemma capture_file_in_directory_witness :
  path_dirname (capture_file (str "/home/u") (str "report") (str "shot") ".png")
    = path_resolve (str "/home/u") (str "report") /\
  exists segs, path_resolve (str "/home/u") (str "report") = canon_of segs /\
               capture_file (str "/home/u") (str "report") (str "shot") ".png"
                 = canon_of (segs ++ [str "shot" ++ str ".png"]).
Proof.
  apply (capture_file_in_directory (str "/home/u") (str "report") (str "shot")).
  - reflexivity.
  - vm_compute. repeat constructor.
Defined.

(** ** The properties on sample worlds *)

Lemma snap_no_session_witness :
  exists d w1,
    snap (str "report") (str "shot") (world_of (sample_cfg GsValue VNull sample_reply) sample_fs)
      = (Ret d, w1) /\
    promise_state w1 d = Some (Settled (Fulfilled (VBool true))) /\
    w_fs w1 = sample_fs /\ w_flow w1 = [] /\ w_io w1 = [] /\
    w_jobs w1 = [] /\ w_heap w1 = [] /\ w_console w1 = [] /\ w_trace w1 = [].
Proof.
  apply (snap_no_session (str "report") (str "shot")
           (world_of (sample_cfg GsValue VNull sample_reply) sample_fs)).
  reflexivity.
Defined.

Lemma snap_issues_screenshot_witness :
  exists d shot w1, snap (str "report") (str "shot") sample_world = (Ret d, w1) /\
    w_flow w1 = [] ++ [(TakeScreenshot, shot)] /\
    promise_state w1 d = Some Pending /\ promise_state w1 shot = Some Pending /\
    d <> shot /\
    w_fs w1 = sample_fs /\ w_io w1 = [] /\ w_jobs w1 = [].
Proof. apply (snap_issues_screenshot (str "report") (str "shot") sample_world). reflexivity. Defined.

Lemma snap_guard_promise_witness :
  exists d shot w1,
    snap (str "report") (str "shot") (world_of (sample_cfg GsPromise VNull sample_reply) sample_fs)
      = (Ret d, w1) /\
    w_flow w1 = [] ++ [(TakeScreenshot, shot)] /\
    promise_state w1 d = Some Pending.
Proof.
  apply (snap_guard_promise (str "report") (str "shot")
           (world_of (sample_cfg GsPromise VNull sample_reply) sample_fs)); reflexivity.
Defined.

Lemma source_no_session_witness :
  exists d w1,
    source (str "report") (str "page")
      (world_of (sample_cfg GsValue VNull sample_reply) sample_fs) = (Ret d, w1) /\
    promise_state w1 d = Some (Settled (Fulfilled (VBool true))) /\
    w_fs w1 = sample_fs /\ w_flow w1 = [] /\ w_io w1 = [] /\ w_jobs w1 = [].
Proof.
  apply (source_no_session (str "report") (str "page")
           (world_of (sample_cfg GsValue VNull sample_reply) sample_fs)).
  reflexivity.
Defined.

Lemma source_issues_commands_witness :
  exists d script page w1, source (str "report") (str "page") sample_world = (Ret d, w1) /\
    w_flow w1 = [] ++ [(ExecuteInvisiScript, script); (GetPageSource, page)] /\
    (exists k dd, w_proms w1 !! script =
       Some (mkCell k Pending
               [mkReaction (Some (OkSourceScript (str "report") (str "page"))) None dd])) /\
    promise_state w1 d = Some Pending.
Proof. apply (source_issues_commands (str "report") (str "page") sample_world). reflexivity. Defined.
