(* ===== verification/Hooks.v ===== *)
(** * [setup] and the automatic-capture hooks

    [setup] ([src/index.js]:109-377) installs the capture service and, as its
    options ask, two hooks: a wrapper around the [click] method of elements
    (lines 329-340) and a listener of the command queue's uncaught-exception
    event (lines 342-374).

    The event emitter calls its listeners synchronously, one after the other,
    and the plugin's listener emits the event itself: the two functions call
    each other.  [emit] recurses on the call stack left ([depth]); when the
    stack is exhausted a [RangeError] is thrown, as the JavaScript engine
    does. *)

From S2P Require Import Prelude JsString Values TitleSlug StackTrace Path Fs World Bridge Capture.

#[local] Open Scope st_scope.

(** [autoCaptureOptions.indexOf(o) !== -1] *)
Definition has_option (o : string) (options : list jsstring) : bool :=
  bool_decide (str o ∈ options).

(** The arguments [setup] is called with: its body reads them by position
    when there are three or four (lines 113-124) and leaves its variables
    undefined otherwise. *)
Inductive setup_args : Type :=
| Args3 (screenShotPath : jsstring) (callback : N)
| Args4 (screenShotPath : jsstring) (autoCaptureOptions : list jsstring) (callback : N)
| ArgsOther.

Definition range_error {A} : St World eref A :=
  r <- zoom_heap (heap_alloc (new_error (str "RangeError")
                                (str "Maximum call stack size exceeded"))) ;;
  st_throw r.

(** [exception._nemoScreenshotHandled] and its assignment. *)
Definition is_handled (exception : eref) : St World eref bool :=
  h <- st_gets w_heap ;;
  st_ret (match h !! exception with Some e => e_handled e | None => false end).

Definition mark_handled (exception : eref) : St World eref unit :=
  st_modify (upd_heap (alter (set_handled true) exception)).

Section Hooks.
Context `{PathOps}.

(** The name of an automatic capture: a prefix, the process id and the time
    in milliseconds (lines 332, 351). *)
Definition auto_name (prefix : string) : St World eref jsstring :=
  pid <- cfg c_pid ;;
  now <- st_gets w_now ;;
  st_ret (str prefix ++ str_of_N pid ++ str "-" ++ str_of_N now).

(** ** The click hook (lines 331-339)

    [element_click impl e] is a call of [e.click()] when the prototype's
    method is [impl]. *)
Fixpoint element_click (impl : clickImpl) (element : N) : St World eref pid :=
  match impl with
  | ClickOriginal => schedule (Click element)
  | ClickWrapped options oclick =>
    filename <- auto_name "ScreenShot_onClick-" ;;
    (if has_option "source" options
     then nemo_source filename ;; st_ret tt
     else st_ret tt) ;;
    shot <- nemo_snap filename ;;
    element_click oclick element ;;
    then_ shot None None
  end.

(** ** The exception hook (lines 343-373) *)

(** The listener, given the [emit] it calls (line 345). *)
Definition onUncaughtException (emit : eref -> St World eref unit)
    (options : list jsstring) (exception : eref) : St World eref unit :=
  handled <- is_handled exception ;;
  (if handled then emit exception else st_ret tt) ;;
  mark_handled exception ;;
  session <- driver_getSession ;;
  captured <- jsref_then session (Some (OkExcSession options exception)) None ;;
  then_ captured None (Some (ErrExcCatch exception)) ;;
  st_ret tt.

Definition call_listener (emit : eref -> St World eref unit) (l : listener)
    (exception : eref) : St World eref unit :=
  match l with
  | LPlugin options => onUncaughtException emit options exception
  | LExternal id rethrows =>
    st_modify (upd_trace (fun t => t ++ [EvListener id exception])) ;;
    if rethrows then st_throw exception else st_ret tt
  end.

Fixpoint call_listeners (emit : eref -> St World eref unit) (ls : list listener)
    (exception : eref) : St World eref unit :=
  match ls with
  | [] => st_ret tt
  | l :: ls' => call_listener emit l exception ;; call_listeners emit ls' exception
  end.

(** [flow.emit(uncaughtException, exception)] with [depth] frames of stack
    left: the listeners registered when the call is made are called in
    order. *)
Fixpoint emit (depth : nat) (exception : eref) : St World eref unit :=
  match depth with
  | O => range_error
  | S depth' =>
    ls <- st_gets w_listeners ;;
    call_listeners (emit depth') ls exception
  end.

(** An emission from a fresh task, with the whole stack. *)
Definition flow_emit (exception : eref) : St World eref unit :=
  depth <- cfg c_stack ;;
  emit depth exception.

(** The function given to [getSession().then] (lines 349-368). *)
Definition exc_onSession (options : list jsstring) (exception : eref) (session : value)
  : St World eref value :=
  if value_truthy session then
    filename <- auto_name "ScreenShot_onException-" ;;
    pl <- st_gets w_screenshot ;;
    match pl with
    | None => type_error "Cannot read property '_currentTestTitle' of undefined"
    | Some pl =>
      let testTitle := pl_title pl in
      let filename := if truthy testTitle then titleSlug testTitle else filename in
      (if has_option "source" options
       then nemo_source filename ;; st_ret tt
       else st_ret tt) ;;
      shot <- nemo_snap filename ;;
      then_ shot (Some (OkExcSnap exception)) None ;;
      st_ret VUndefined
    end
  else st_throw exception.

(** The function given to [snap(filename).then] (lines 362-365). *)
Definition exc_onSnap (exception : eref) (imageObject : value) : St World eref value :=
  zoom_heap (appendImageUrlToStackTrace imageObject (Some exception)) ;;
  flow_emit exception ;;
  st_ret VUndefined.

(** The function given to [catch] (lines 369-372). *)
Definition exc_onCatch (exception : eref) (e : eref) : St World eref value :=
  mark_handled e ;;
  flow_emit exception ;;
  st_ret VUndefined.

(** ** [setup] *)

Definition install (screenShotPath : jsstring) (autoCaptureOptions : list jsstring)
    (callback : N) : St World eref unit :=
  st_modify (upd_screenshot (fun _ => Some (mkPlugin screenShotPath None))) ;;
  (if has_option "click" autoCaptureOptions
   then st_modify (upd_click (ClickWrapped autoCaptureOptions))
   else st_ret tt) ;;
  (if has_option "exception" autoCaptureOptions
   then st_modify (upd_listeners (fun ls => ls ++ [LPlugin autoCaptureOptions]))
   else st_ret tt) ;;
  call_callback callback None.

Definition setup (args : setup_args) : St World eref unit :=
  match args with
  | Args3 screenShotPath callback => install screenShotPath [] callback
  | Args4 screenShotPath autoCaptureOptions callback =>
    install screenShotPath autoCaptureOptions callback
  | ArgsOther => type_error "Cannot read property 'driver' of undefined"
  end.

End Hooks.

(** ** What an emission leaves in the trace

    The listeners of the embedding test are observed by the calls made to
    them. *)
Definition listener_events (exception : eref) (ls : list listener) : list event :=
  omap (fun l => match l with
                 | LExternal id _ => Some (EvListener id exception)
                 | LPlugin _ => None
                 end) ls.

(** The calls made while the plugin's listener and [emit] call each other
    [depth] times, [pre] being the listeners registered before the plugin's. *)
Fixpoint overflow_events (depth : nat) (exception : eref) (pre : list listener) : list event :=
  match depth with
  | O => []
  | S depth' => listener_events exception pre ++ overflow_events depth' exception pre
  end.

Definition range_error_obj : errObj :=
  new_error (str "RangeError") (str "Maximum call stack size exceeded").

(** A listener that returns normally. *)
Definition returning (l : listener) : bool :=
  match l with
  | LExternal _ false => true
  | _ => false
  end.

#[export] Hint Unfold range_error is_handled mark_handled auto_name onUncaughtException
  call_listener flow_emit exc_onSession exc_onSnap exc_onCatch install setup : world_unfold.

(** ** A sample world with the hooks installed

    [setup] was called with the options [click] and [exception], a title
    was set, and one error object is in the heap. *)
Definition sample_exception : errObj :=
  new_error (str "AssertionError") (str "expected true").

Definition hooked_world : World :=
  upd_heap (fun _ => [sample_exception])
    ((setup (Args4 (str "report") [str "click"; str "exception"] 7) ;;
      setCurrentTestTitle (Some (str "My Test: Case #1")))%st sample_world).2.

(** Symbolic execution through the listeners and the click wrappers. *)
Ltac hstep :=
  repeat (cbn [emit call_listeners call_listener element_click]; repeat (wstep; wrewrite)).

(** ** Lemmas *)

Section HookLemmas.
Context `{PathOps}.

Lemma upd_trace_app evs1 evs2 w :
  upd_trace (fun t => t ++ evs2) (upd_trace (fun t => t ++ evs1) w) =
  upd_trace (fun t => t ++ evs1 ++ evs2) w.
Proof. destruct w. unfold upd_trace. cbn. by rewrite app_assoc. Qed.

Lemma upd_trace_nil w : upd_trace (fun t => t ++ []) w = w.
Proof. destruct w. unfold upd_trace. cbn. by rewrite app_nil_r. Qed.

Lemma overflow_events_nil depth exception : overflow_events depth exception [] = [].
Proof. by induction depth. Qed.

(** Listeners that return are called in order and leave their calls in the
    trace. *)
Lemma call_listeners_returning emit0 exception pre : forall ls w,
  forallb returning pre = true ->
  call_listeners emit0 (pre ++ ls) exception w =
  call_listeners emit0 ls exception
    (upd_trace (fun t => t ++ listener_events exception pre) w).
Proof.
  induction pre as [|[|id []] pre IH]; intros ls w Hp; try done.
  - by rewrite upd_trace_nil.
  - cbn [app call_listeners call_listener forallb returning andb] in *. st_run.
    rewrite IH by done. by rewrite upd_trace_app.
Qed.

(** An emission of an exception that carries the mark: the plugin's listener
    emits again before anything else, until the stack is exhausted. *)
Lemma emit_handled_run depth exception e opts pre post : forall w,
  w_heap w !! exception = Some e -> e_handled e = true ->
  w_listeners w = pre ++ LPlugin opts :: post ->
  forallb returning pre = true ->
  emit depth exception w =
    (Throw (length (w_heap w)),
     upd_heap (fun h => h ++ [range_error_obj])
       (upd_trace (fun t => t ++ overflow_events depth exception pre) w)).
Proof.
  induction depth as [|n IH]; intros w He Hh Hl Hp.
  - cbn [emit overflow_events]. by rewrite upd_trace_nil.
  - cbn [emit overflow_events]. st_run. rewrite Hl, call_listeners_returning by done.
    cbn [call_listeners call_listener]. unfold onUncaughtException at 1, is_handled. st_run.
    cbn [w_heap upd_trace]. rewrite He, Hh. rewrite IH by done.
    cbn [w_heap upd_trace]. by rewrite upd_trace_app.
Qed.

End HookLemmas.

(** ** Properties *)

Section HookProperties.
Context `{PathOps}.

(** C6: an exception that carries the mark of the plugin cannot be emitted
    again: whatever the depth of the stack, the plugin's listener and [emit]
    call each other until the stack is exhausted and a [RangeError] is
    thrown.  No capture is issued, the listeners registered after the
    plugin's are never called, and those before it are called once for each
    frame of the stack. *)
Theorem reemit_overflows depth exception e opts pre post w :
  w_heap w !! exception = Some e -> e_handled e = true ->
  w_listeners w = pre ++ LPlugin opts :: post ->
  forallb returning pre = true ->
  exists w', emit depth exception w = (Throw (length (w_heap w)), w') /\
    w_heap w' = w_heap w ++ [range_error_obj] /\
    w_trace w' = w_trace w ++ overflow_events depth exception pre /\
    w_flow w' = w_flow w /\ w_jobs w' = w_jobs w /\ w_proms w' = w_proms w /\
    w_io w' = w_io w /\ w_fs w' = w_fs w.
Proof.
  intros He Hh Hl Hp. rewrite (emit_handled_run _ _ _ _ _ _ _ He Hh Hl Hp).
  by eexists.
Qed.

(** on an exception without the mark, the listener sets the mark, asks
    for the session and registers its two callbacks: the capture is left to
    the reaction on the session, and the emission returns to the listeners
    that follow. *)
Theorem listener_first_pass emit0 opts exception e w :
  c_gs (w_cfg w) = GsPromise ->
  w_heap w !! exception = Some e -> e_handled e = false ->
  exists w' captured,
    onUncaughtException emit0 opts exception w = (Ret tt, w') /\
    w_heap w' = <[exception := set_handled true e]> (w_heap w) /\
    w_jobs w' =
      w_jobs w ++ [mkJob (mkReaction (Some (OkExcSession opts exception)) None captured)
                     (Fulfilled (c_session (w_cfg w)))] /\
    (exists k, w_proms w' !! captured =
       Some (mkCell k Pending [mkReaction None (Some (ErrExcCatch exception))
                                 (S captured)])) /\
    w_flow w' = w_flow w /\ w_fs w' = w_fs w.
Proof.
  intros Hgs He Hh. wdestruct w. unfold onUncaughtException. eexists _, _.
  split; [repeat (wstep; wrewrite); reflexivity |]. wstep.
  rewrite (list_alter_lookup _ _ _ _ He). do 2 (split; [done |]). split; [| done].
  exists Managed. wstep. repeat f_equal. lia.
Qed.

(** C25: with a driver whose [getSession] returns the session itself, the
    listener throws a [TypeError] at line 349, after setting the mark on the
    exception: no command is issued, no reaction queued and no promise
    made. *)
Theorem listener_value_session emit0 opts exception e w :
  c_gs (w_cfg w) = GsValue ->
  w_heap w !! exception = Some e -> e_handled e = false ->
  exists w',
    onUncaughtException emit0 opts exception w = (Throw (length (w_heap w)), w') /\
    w_heap w' = <[exception := set_handled true e]> (w_heap w)
                ++ [new_error (str "TypeError") (str "then is not a function")] /\
    w_jobs w' = w_jobs w /\ w_flow w' = w_flow w /\ w_proms w' = w_proms w.
Proof.
  intros Hgs He Hh. wdestruct w. unfold onUncaughtException. eexists.
  split; [repeat (wstep; wrewrite); reflexivity |]. wstep.
  by rewrite (list_alter_lookup _ _ _ _ He).
Qed.

(** C40: [setup] with four arguments installs the capture service with no
    title, wraps [click] exactly when the options have [click], adds its
    listener exactly when they have [exception], and calls the callback
    once, with no error. *)
Theorem setup_installs screenShotPath opts cb w :
  exists w', setup (Args4 screenShotPath opts cb) w = (Ret tt, w') /\
    w_screenshot w' = Some (mkPlugin screenShotPath None) /\
    w_click w' = (if has_option "click" opts then ClickWrapped opts (w_click w)
                  else w_click w) /\
    w_listeners w' = (if has_option "exception" opts then w_listeners w ++ [LPlugin opts]
                      else w_listeners w) /\
    w_trace w' = w_trace w ++ [EvCallback cb None] /\
    w_flow w' = w_flow w /\ w_proms w' = w_proms w /\ w_fs w' = w_fs w.
Proof.
  unfold setup, install.
  destruct (has_option "click" opts), (has_option "exception" opts);
    by (eexists; split; [repeat wstep; reflexivity |]).
Qed.

(** [setup] with three arguments installs the capture service and no
    hook. *)
Theorem setup_three_arguments screenShotPath cb w :
  exists w', setup (Args3 screenShotPath cb) w = (Ret tt, w') /\
    w_screenshot w' = Some (mkPlugin screenShotPath None) /\
    w_click w' = w_click w /\ w_listeners w' = w_listeners w /\
    w_trace w' = w_trace w ++ [EvCallback cb None].
Proof. unfold setup, install. by (eexists; split; [repeat wstep; reflexivity |]). Qed.

(** called with any other number of arguments, [setup] throws a
    [TypeError] at line 126 before it installs anything or calls a
    callback. *)
Theorem setup_other_arity_throws w :
  exists w', setup ArgsOther w = (Throw (length (w_heap w)), w') /\
    w_screenshot w' = w_screenshot w /\ w_click w' = w_click w /\
    w_listeners w' = w_listeners w /\ w_trace w' = w_trace w.
Proof. unfold setup. by (eexists; split; [repeat wstep; reflexivity |]). Qed.

End HookProperties.

(** ** The properties on sample worlds *)

Lemma reemit_overflows_witness :
  exists w',
    emit 3 0 (upd_heap (fun _ => [set_handled true sample_exception]) hooked_world)
      = (Throw 1, w') /\
    w_heap w' = [set_handled true sample_exception] ++ [range_error_obj] /\
    w_trace w' = [EvCallback 7 None] ++ overflow_events 3 0 [] /\
    w_flow w' = [] /\ w_jobs w' = [] /\ w_proms w' = [] /\ w_io w' = [] /\
    w_fs w' = sample_fs.
Proof.
  apply (reemit_overflows 3 0 (set_handled true sample_exception)
           [str "click"; str "exception"] [] []
           (upd_heap (fun _ => [set_handled true sample_exception]) hooked_world));
    reflexivity.
Defined.

Lemma listener_first_pass_witness :
  exists w' captured,
    onUncaughtException (emit 3) [str "exception"] 0 hooked_world = (Ret tt, w') /\
    w_heap w' = <[0 := set_handled true sample_exception]> [sample_exception] /\
    w_jobs w' =
      [] ++ [mkJob (mkReaction (Some (OkExcSession [str "exception"] 0)) None captured)
               (Fulfilled (VHost (str "{}")))] /\
    (exists k, w_proms w' !! captured =
       Some (mkCell k Pending [mkReaction None (Some (ErrExcCatch 0)) (S captured)])) /\
    w_flow w' = [] /\ w_fs w' = sample_fs.
Proof.
  apply (listener_first_pass (emit 3) [str "exception"] 0 sample_exception hooked_world);
    reflexivity.
Defined.

Lemma listener_value_session_witness :
  exists w',
    onUncaughtException (emit 3) [str "exception"] 0
      (upd_heap (fun _ => [sample_exception])
         (world_of (sample_cfg GsValue (VHost (str "{}")) sample_reply) sample_fs))
      = (Throw 1, w') /\
    w_heap w' = <[0 := set_handled true sample_exception]> [sample_exception]
                ++ [new_error (str "TypeError") (str "then is not a function")] /\
    w_jobs w' = [] /\ w_flow w' = [] /\ w_proms w' = [].
Proof.
  apply (listener_value_session (emit 3) [str "exception"] 0 sample_exception
           (upd_heap (fun _ => [sample_exception])
              (world_of (sample_cfg GsValue (VHost (str "{}")) sample_reply) sample_fs)));
    reflexivity.
Defined.
