(* ===== verification/EventLoop.v ===== *)
(** * The event loop: running the plugin's callbacks

    [apply_ok], [apply_err] and [apply_cb] give each function value of the
    source its code.  A step of the loop runs one queued reaction of a
    promise, lets the driver complete the command at the head of its queue,
    lets the system complete an outstanding write, lets time pass, or lets
    the command queue report an uncaught exception.  Reactions run before
    anything else, as microtasks do. *)

From S2P Require Import Prelude JsString Values Path Fs World Bridge Capture Hooks.

#[local] Open Scope st_scope.

Inductive choice : Type :=
| RunJob
| RunCommand
| RunIo (i : nat)
| Tick (dt : N)
| Uncaught (exception : eref).

Section EventLoop.
Context `{PathOps}.

Definition apply_ok (k : on_fulfilled) (v : value) : St World eref value :=
  match k with
  | OkSnapShot screenShotPath filename d => snap_onScreenshot screenShotPath filename d v
  | OkSourceScript screenShotPath filename => source_onScript screenShotPath filename v
  | OkSourcePage screenShotPath filename d => source_onPage screenShotPath filename d v
  | OkDone done err => done_onSnap done err v
  | OkExcSession options exception => exc_onSession options exception v
  | OkExcSnap exception => exc_onSnap exception v
  end.

Definition apply_err (k : on_rejected) (r : eref) : St World eref value :=
  match k with
  | ErrReject d => reject_with d r
  | ErrDone done => done_onError done r
  | ErrExcCatch exception => exc_onCatch exception r
  end.

Definition apply_cb (k : on_written) (err : option eref) : St World eref unit :=
  match k with
  | CbSnapWritten d imageObj => snap_onWritten d imageObj err
  | CbScriptWritten => source_onScriptWritten err
  | CbSourceWritten d sourceObj => source_onWritten d sourceObj err
  end.

(** Settle the promise a [then] returned with what its handler did. *)
Definition settle_with (d : pid) (c : St World eref value) : St World eref unit :=
  fun w =>
    match c w with
    | (Ret v, w') => settle d (Fulfilled v) w'
    | (Throw r, w') => settle d (Rejected r) w'
    end.

(** Run a reaction: with a handler for the result, the derived promise is
    settled by the handler's outcome; without one, it takes the result. *)
Definition run_job (j : job) : St World eref unit :=
  let rx := j_reaction j in
  match j_result j with
  | Fulfilled v =>
    match rx_ok rx with
    | Some k => settle_with (rx_derived rx) (apply_ok k v)
    | None => settle (rx_derived rx) (Fulfilled v)
    end
  | Rejected r =>
    match rx_err rx with
    | Some k => settle_with (rx_derived rx) (apply_err k r)
    | None => settle (rx_derived rx) (Rejected r)
    end
  end.

(** Complete the [i]-th outstanding write and call its callback. *)
Definition run_io (rq : io_req) : St World eref unit :=
  err <- perform_write rq ;;
  apply_cb (io_cb rq) err.

(** One step of the loop; [None] when the choice is not enabled. *)
Definition step (c : choice) (w : World) : option World :=
  match c with
  | RunJob =>
    match w_jobs w with
    | j :: js => Some (run_job j (upd_jobs (fun _ => js) w)).2
    | [] => None
    end
  | RunCommand =>
    match w_jobs w, w_flow w with
    | [], _ :: _ => Some (complete_command w).2
    | _, _ => None
    end
  | RunIo i =>
    match w_jobs w, w_io w !! i with
    | [], Some rq => Some (run_io rq (upd_io (delete i) w)).2
    | _, _ => None
    end
  | Tick dt =>
    match w_jobs w with
    | [] => Some (upd_now (fun t => (t + dt)%N) w)
    | _ => None
    end
  | Uncaught exception =>
    match w_jobs w with
    | [] => Some (flow_emit exception w).2
    | _ => None
    end
  end.

Fixpoint run (cs : list choice) (w : World) : option World :=
  match cs with
  | [] => Some w
  | c :: cs' =>
    match step c w with
    | Some w' => run cs' w'
    | None => None
    end
  end.

(** The loop's own schedule: reactions first, then the driver, then the
    first outstanding write. *)
Definition next_choice (w : World) : option choice :=
  match w_jobs w, w_flow w, w_io w with
  | _ :: _, _, _ => Some RunJob
  | [], _ :: _, _ => Some RunCommand
  | [], [], _ :: _ => Some (RunIo 0)
  | [], [], [] => None
  end.

Fixpoint run_loop (fuel : nat) (w : World) : World :=
  match fuel with
  | O => w
  | S fuel' =>
    match next_choice w with
    | Some c => match step c w with
                | Some w' => run_loop fuel' w'
                | None => w
                end
    | None => w
    end
  end.

(** Nothing is left to run. *)
Definition quiescent (w : World) : Prop :=
  w_jobs w = [] /\ w_flow w = [] /\ w_io w = [].

(** The worlds the loop can reach. *)
Inductive reach : World -> World -> Prop :=
| reach_refl w : reach w w
| reach_step w c w' w'' : step c w = Some w' -> reach w' w'' -> reach w w''.

End EventLoop.

#[export] Hint Unfold apply_ok apply_err apply_cb settle_with run_job run_io : world_unfold.

(** ** Lemmas *)

Section LoopLemmas.
Context `{PathOps}.

Lemma quiescent_next w : quiescent w <-> next_choice w = None.
Proof.
  unfold quiescent, next_choice.
  destruct (w_jobs w), (w_flow w), (w_io w); split; first [done | by intros (? & ? & ?)].
Qed.

Lemma run_loop_quiescent fuel w : quiescent w -> run_loop fuel w = w.
Proof. intros Hq%quiescent_next. destruct fuel; simpl; by rewrite ?Hq. Qed.

(** More fuel does not change where the loop comes to rest. *)
Lemma run_loop_more fuel : forall w k,
  quiescent (run_loop fuel w) -> run_loop (fuel + k) w = run_loop fuel w.
Proof.
  induction fuel as [|n IH]; intros w k Hq; [by apply run_loop_quiescent |].
  simpl in *. destruct (next_choice w); [| done].
  destruct (step c w); [by apply IH | done].
Qed.

(** The loop's schedule, one equation per kind of step. *)
Lemma run_loop_job fuel w j js :
  w_jobs w = j :: js ->
  run_loop (S fuel) w = run_loop fuel (run_job j (upd_jobs (fun _ => js) w)).2.
Proof. intros Hj. cbn [run_loop]. unfold next_choice, step. by rewrite Hj. Qed.

Lemma run_loop_command fuel w c cs :
  w_jobs w = [] -> w_flow w = c :: cs ->
  run_loop (S fuel) w = run_loop fuel (complete_command w).2.
Proof. intros Hj Hf. cbn [run_loop]. unfold next_choice, step. by rewrite Hj, Hf. Qed.

Lemma run_loop_io fuel w rq rqs :
  w_jobs w = [] -> w_flow w = [] -> w_io w = rq :: rqs ->
  run_loop (S fuel) w = run_loop fuel (run_io rq (upd_io (delete 0) w)).2.
Proof.
  intros Hj Hf Hi. cbn [run_loop]. unfold next_choice, step. by rewrite Hj, Hf, Hi.
Qed.

(** The same for a schedule given step by step. *)
Lemma run_job_step cs w j js :
  w_jobs w = j :: js ->
  run (RunJob :: cs) w = run cs (run_job j (upd_jobs (fun _ => js) w)).2.
Proof. intros Hj. cbn [run]. unfold step. by rewrite Hj. Qed.

Lemma run_command_step cs w c q :
  w_jobs w = [] -> w_flow w = c :: q ->
  run (RunCommand :: cs) w = run cs (complete_command w).2.
Proof. intros Hj Hf. cbn [run]. unfold step. by rewrite Hj, Hf. Qed.

Lemma run_io_step cs w i rq :
  w_jobs w = [] -> w_io w !! i = Some rq ->
  run (RunIo i :: cs) w = run cs (run_io rq (upd_io (delete i) w)).2.
Proof. intros Hj Hi. cbn [run]. unfold step. by rewrite Hj, Hi. Qed.

Lemma run_uncaught_step cs w exception :
  w_jobs w = [] ->
  run (Uncaught exception :: cs) w = run cs (flow_emit exception w).2.
Proof. intros Hj. cbn [run]. unfold step. by rewrite Hj. Qed.

Lemma reach_trans w1 w2 w3 : reach w1 w2 -> reach w2 w3 -> reach w1 w3.
Proof. induction 1; eauto using reach. Qed.

Lemma run_reach cs : forall w w', run cs w = Some w' -> reach w w'.
Proof.
  induction cs as [|c cs IH]; simpl; intros w w'; [intros [= <-]; constructor |].
  destruct (step c w) eqn:Hs; [| done]. eauto using reach.
Qed.

Lemma run_loop_reach fuel : forall w, reach w (run_loop fuel w).
Proof.
  induction fuel as [|n IH]; intros w; simpl; [constructor |].
  destruct (next_choice w) as [c|]; [| constructor].
  destruct (step c w) eqn:Hs; [| constructor]. eauto using reach.
Qed.

(** At rest and without listeners, only time passes and emissions fall on
    nobody: the promises, the trace and the file system stay as they are. *)
Lemma rest_step c w w' :
  quiescent w -> w_listeners w = [] -> step c w = Some w' ->
  quiescent w' /\ w_listeners w' = [] /\ w_trace w' = w_trace w /\
  w_proms w' = w_proms w /\ w_fs w' = w_fs w.
Proof.
  intros (Hj & Hf & Hi) Hl. destruct c; simpl; rewrite ?Hj, ?Hf, ?Hi; try done.
  - intros [= <-]. by repeat split.
  - intros [= <-]. unfold flow_emit, cfg. st_run.
    destruct (c_stack (w_cfg w)); cbn [emit]; [by repeat wstep |].
    st_run. rewrite Hl. by repeat wstep.
Qed.

Lemma rest_forever w w' :
  reach w w' -> quiescent w -> w_listeners w = [] ->
  quiescent w' /\ w_trace w' = w_trace w /\ w_proms w' = w_proms w.
Proof.
  induction 1 as [|w c w1 w2 Hs _ IH]; [done |]. intros Hq Hl.
  destruct (rest_step _ _ _ Hq Hl Hs) as (Hq1 & Hl1 & Ht1 & Hp1 & _).
  destruct (IH Hq1 Hl1) as (? & ? & ?). split; [done |]. split; congruence.
Qed.

End LoopLemmas.

(** One step of the loop on a world given by its fields, run to its end. *)
Ltac lstep :=
  first [ erewrite run_loop_job by reflexivity
        | erewrite run_loop_command by reflexivity
        | erewrite run_loop_io by reflexivity ];
  repeat (wstep; wrewrite).

(** One step of a given schedule. *)
Ltac rstep :=
  first [ erewrite run_job_step by reflexivity
        | erewrite run_command_step by reflexivity
        | erewrite run_io_step by reflexivity
        | erewrite run_uncaught_step by reflexivity
        | cbn [run] ];
  repeat (wstep; wrewrite).

Ltac lsteps n :=
  lazymatch n with
  | O => cbn [run_loop]
  | S ?m => lstep; lsteps m
  end.
