(* ===== verification/Invariants.v ===== *)
(** * What no run undoes

    Two preorders on worlds say what the plugin and its host never take
    back.  [world_le]: the configuration is constant; a promise stays in
    the table, keeps its kind and, once settled, its state; an error object
    keeps its name and message, its mark once set, and its stack as a
    prefix of the new one; console and trace only grow; the command counter
    and the clock only advance.  [writes_le]: no node of the file system is
    removed, a directory stays one, and a file that is new or replaced is a
    capture ([is_capture]): written at [path.join(path.resolve(dir), name +
    ext)] for [.png] in base64 and for [.html] and [.txt] as text.

    The interface [HostOrder] lists what an order must grant of the
    operations of the host (promises, the driver's queue, the heap, the
    console, [mkdirp.sync], [fs.writeFile] of a capture, the steps of the
    loop).  Against it the code of the plugin is [extensive] once and for
    all: the bridge, the capture service with all its callbacks, the hooks,
    and so every step of the event loop and every call of the plugin's
    interface.  Both preorders are instances.  The properties are
    statements about all histories ([history]): sequences of calls of the
    interface and steps of the loop, in any order. *)

From stdpp Require Import gmap.
From S2P Require Import Prelude JsString Values Jenkins StackTrace Path Fs World Bridge.
From S2P Require Import Capture Hooks EventLoop.

#[local] Open Scope st_scope.

(** ** The preorder *)

Definition cell_le (c c' : pcell) : Prop :=
  pc_kind c' = pc_kind c /\
  match pc_state c with
  | Settled _ => c' = c
  | Pending => True
  end.

Definition proms_le (ps ps' : list pcell) : Prop :=
  forall q c, ps !! q = Some c -> exists c', ps' !! q = Some c' /\ cell_le c c'.

Definition err_le (e e' : errObj) : Prop :=
  e_name e' = e_name e /\ e_message e' = e_message e /\
  (e_handled e = true -> e_handled e' = true) /\
  (e_stack e' = e_stack e \/ exists more, e_stack e' = Some (to_str (e_stack e) ++ more)).

Definition heap_le (h h' : heap) : Prop :=
  forall r e, h !! r = Some e -> exists e', h' !! r = Some e' /\ err_le e e'.

Record world_le (w w' : World) : Prop := mk_world_le {
  le_cfg : w_cfg w' = w_cfg w;
  le_proms : proms_le (w_proms w) (w_proms w');
  le_heap : heap_le (w_heap w) (w_heap w');
  le_console : w_console w `prefix_of` w_console w';
  le_trace : w_trace w `prefix_of` w_trace w';
  le_ncmd : w_ncmd w <= w_ncmd w';
  le_now : (w_now w <= w_now w')%N;
}.

(** ** The files the plugin writes *)

(** The worlds with the files and the outstanding writes of [w]. *)
Definition same_files (w w' : World) : Prop :=
  w_fs w' = w_fs w /\ w_io w' = w_io w.

(** The extension of a capture decides its encoding (lines 174-176, 278,
    299). *)
Definition capture_kind (ext : string) (enc : encoding) : Prop :=
  (ext = ".png"%string /\ enc = Base64) \/ (ext = ".html"%string /\ enc = Utf8) \/
  (ext = ".txt"%string /\ enc = Utf8).

(** A node may appear as a directory, and a node that is no directory may
    become a capture; nothing else changes. *)
Definition node_le (capture : encoding -> Prop) (n n' : option fnode) : Prop :=
  n' = n \/ (n = None /\ n' = Some Dir) \/
  (n <> Some Dir /\ exists enc data, n' = Some (File enc data) /\ capture enc).

Section WorldOrder.
Context `{PathOps}.

(** [p] is the file of a capture, for some directory and name, and [enc]
    the encoding it is written with. *)
Definition is_capture (p : jsstring) (enc : encoding) : Prop :=
  exists cwd screenShotPath f ext,
    p = capture_file cwd screenShotPath f ext /\ capture_kind ext enc.

Definition files_le (fs fs' : Fs) : Prop :=
  forall p, node_le (is_capture p) (fs_nodes fs !! p) (fs_nodes fs' !! p).

Definition io_ok (io : list io_req) : Prop :=
  Forall (fun rq => is_capture (io_path rq) (io_enc rq)) io.

(** As long as the outstanding writes are captures, they stay so and the
    files change as [files_le] allows. *)
Definition writes_le (w w' : World) : Prop :=
  io_ok (w_io w) -> io_ok (w_io w') /\ files_le (w_fs w) (w_fs w').

(** ** The interface of the host

    What an order on worlds grants of the operations the plugin calls and
    of the steps of the loop. *)
Class HostOrder (R : relation World) : Prop := {
  host_preorder :: PreOrder R;
  host_heap {A} (c : St heap eref A) : extensive heap_le c -> extensive R (zoom_heap c);
  host_console {A} (c : St console eref A) :
    extensive prefix c -> extensive R (zoom_console c);
  host_new_promise k : extensive R (new_promise k);
  host_settle q s : extensive R (settle q s);
  host_then q ok err : extensive R (then_ q ok err);
  host_schedule c : extensive R (schedule c);
  host_complete_command : extensive R complete_command;
  host_mkdirp path : extensive R (mkdirp path);
  host_writeFile path data enc cb :
    is_capture path enc -> extensive R (fs_writeFile path data enc cb);
  host_plugin f : extensive R (st_modify (E:=eref) (upd_screenshot f));
  host_click f : extensive R (st_modify (E:=eref) (upd_click f));
  host_listeners f : extensive R (st_modify (E:=eref) (upd_listeners f));
  host_trace ev : extensive R (st_modify (E:=eref) (upd_trace (fun t => t ++ [ev])));
  host_next_job w js : R w (upd_jobs (fun _ => js) w);
  host_write w i rq :
    w_io w !! i = Some rq -> R w (perform_write rq (upd_io (delete i) w)).2;
  host_tick w dt : R w (upd_now (fun t => (t + dt)%N) w);
}.

(** ** Histories *)

(** A call of the plugin's interface by the embedding test. *)
Inductive call : Type :=
| CallSetup (args : setup_args)
| CallSnap (filename : jsstring)
| CallSource (filename : jsstring)
| CallDone (filename : jsstring) (done : N) (err : option eref)
| CallSetCurrentTestTitle (title : option jsstring)
| CallClick (element : N).

Definition do_call (c : call) : St World eref unit :=
  match c with
  | CallSetup args => setup args
  | CallSnap filename => nemo_snap filename ;; st_ret tt
  | CallSource filename => nemo_source filename ;; st_ret tt
  | CallDone filename cb err =>
    pl <- st_gets w_screenshot ;;
    match pl with
    | Some pl => done (pl_path pl) filename cb err
    | None => type_error "Cannot read property 'done' of undefined"
    end
  | CallSetCurrentTestTitle title => setCurrentTestTitle title
  | CallClick element =>
    impl <- st_gets w_click ;;
    element_click impl element ;; st_ret tt
  end.

(** Calls and steps of the loop, in any order. *)
Inductive history : World -> World -> Prop :=
| history_refl w : history w w
| history_step w c w' w'' : step c w = Some w' -> history w' w'' -> history w w''
| history_call w c w'' : history (do_call c w).2 w'' -> history w w''.

End WorldOrder.

(** ** Sample histories

    [snapped_world]: on the sample host, [setup] and then a call of [snap];
    the promise [getSession] returned, number 2, is settled.
    [after_exception]: on [hooked_world], an uncaught exception is reported
    and the loop runs until the world is at rest. *)
Definition snapped_world : World :=
  (do_call (CallSnap (str "shot"))
     (do_call (CallSetup (Args3 (str "report") 7)) sample_world).2).2.

Definition after_exception : World :=
  match step (Uncaught 0) hooked_world with
  | Some w => run_loop 6 w
  | None => hooked_world
  end.

(** ** The preorder's laws *)

#[export] Instance cell_le_preorder : PreOrder cell_le.
Proof.
  split; [by intros [k [] rs] |].
  intros c1 c2 c3 [Hk1 H1] [Hk2 H2]. split; [congruence |].
  destruct (pc_state c1) eqn:Hs; [done |]. subst c2. by rewrite Hs in H2.
Qed.

#[export] Instance proms_le_preorder : PreOrder proms_le.
Proof.
  split; [intros ps q c Hq; by exists c |].
  intros ps1 ps2 ps3 H1 H2 q c Hq.
  destruct (H1 _ _ Hq) as (c2 & Hq2 & Hc2). destruct (H2 _ _ Hq2) as (c3 & Hq3 & Hc3).
  exists c3. split; [done |]. by etrans.
Qed.

#[export] Instance err_le_preorder : PreOrder err_le.
Proof.
  split; [intros e; repeat split; auto |].
  intros e1 e2 e3 (Hn1 & Hm1 & Hh1 & Hs1) (Hn2 & Hm2 & Hh2 & Hs2).
  repeat split; [congruence | congruence | auto |].
  destruct Hs1 as [Hs1 | [m1 Hs1]], Hs2 as [Hs2 | [m2 Hs2]]; rewrite Hs1 in Hs2; eauto.
  right. exists (m1 ++ m2). by rewrite Hs2, to_str_Some, <- app_assoc.
Qed.

#[export] Instance heap_le_preorder : PreOrder heap_le.
Proof.
  split; [intros h r e Hr; by exists e |].
  intros h1 h2 h3 H1 H2 r e Hr.
  destruct (H1 _ _ Hr) as (e2 & Hr2 & He2). destruct (H2 _ _ Hr2) as (e3 & Hr3 & He3).
  exists e3. split; [done |]. by etrans.
Qed.

Lemma proms_le_app ps cells : proms_le ps (ps ++ cells).
Proof. intros q c Hq. exists c. split; [by apply lookup_app_l_Some | done]. Qed.

(** A pending cell may change its state and its reactions. *)
Lemma proms_le_pending ps p k rs st rs' :
  ps !! p = Some (mkCell k Pending rs) -> proms_le ps (<[p := mkCell k st rs']> ps).
Proof.
  intros Hp q c Hq. destruct (decide (q = p)) as [->|Hne].
  - rewrite list_lookup_insert_eq by eauto using lookup_lt_Some.
    eexists. split; [done |]. by simplify_eq.
  - exists c. by rewrite list_lookup_insert_ne.
Qed.

(** A pending cell may take a reaction. *)
Lemma proms_le_reaction ps q k rs r cells :
  ps !! q = Some (mkCell k Pending rs) ->
  proms_le ps (alter (add_reaction r) q (ps ++ cells)).
Proof.
  intros Hq q' c Hq'. rewrite list_lookup_alter. case_decide as Hd.
  - subst q'. rewrite (lookup_app_l_Some _ _ _ _ Hq). simplify_eq.
    eexists. split; [done |]. by split.
  - exists c. by rewrite (lookup_app_l_Some _ _ _ _ Hq').
Qed.

Lemma heap_le_app (h : heap) es : heap_le h (h ++ es).
Proof. intros r e Hr. exists e. split; [by apply lookup_app_l_Some | done]. Qed.

Lemma heap_le_stack_extends (h h' : heap) : stack_extends h h' -> heap_le h h'.
Proof.
  intros Hext r e Hr. destruct (Hext _ _ Hr) as (e' & Hr' & Hn & Hm & Hh & more & Hs).
  exists e'. split; [done |]. repeat split; [done | done | congruence |].
  destruct Hs as [Hs | [_ ->]]; eauto.
Qed.

Lemma heap_le_handled (h : heap) r : heap_le h (alter (set_handled true) r h).
Proof.
  intros r' e Hr'. rewrite list_lookup_alter. case_decide as Hd; [| by exists e].
  subst r'. rewrite Hr'. eexists. split; [done |]. repeat split; auto.
Qed.

#[export] Instance world_le_preorder : PreOrder world_le.
Proof.
  split; [by intros w; split |].
  intros w1 w2 w3 [c1 p1 h1 co1 t1 n1 no1] [c2 p2 h2 co2 t2 n2 no2].
  split; [congruence | by etrans..].
Qed.

#[export] Instance same_files_preorder : PreOrder same_files.
Proof. split; [done |]. intros w1 w2 w3 [? ?] [? ?]. split; congruence. Qed.

#[export] Instance node_le_preorder capture : PreOrder (node_le capture).
Proof.
  split; [by left |]. intros n1 n2 n3 H1 [-> | [[-> ->] | (Hd & enc & data & -> & Hc)]].
  - done.
  - destruct H1 as [<- | [[_ [=]] | (_ & ? & ? & [=] & _)]]. right. by left.
  - right. right. split; [| by eauto].
    destruct H1 as [<- | [[-> _] | (? & _)]]; done.
Qed.

Section FilesOrder.
Context `{PathOps}.

#[export] Instance files_le_preorder : PreOrder files_le.
Proof.
  split; [intros fs p; reflexivity |].
  intros fs1 fs2 fs3 H1 H2 p. etrans; [apply H1 | apply H2].
Qed.

#[export] Instance writes_le_preorder : PreOrder writes_le.
Proof.
  split; [by intros w Hok |]. intros w1 w2 w3 H1 H2 Hok.
  destruct (H1 Hok) as [Hok2 Hf1]. destruct (H2 Hok2) as [Hok3 Hf2].
  split; [done | by etrans].
Qed.

(** What leaves the files and the outstanding writes alone is below
    [writes_le]. *)
Lemma same_files_writes w w' : same_files w w' -> writes_le w w'.
Proof. intros [Hfs Hio] Hok. by rewrite Hfs, Hio. Qed.

(** [mkdirp.sync] adds directories and nothing else, on every file system. *)
Lemma mkdirp_sync_grows depth cwd : forall p0 fs fs',
  mkdirp_sync depth cwd p0 fs = inr fs' -> fs_grows fs fs'.
Proof.
  induction depth as [|d IH]; intros p0 fs fs'; simpl;
    destruct (mkdirSync (path_resolve cwd p0) fs) as [[]|fs0] eqn:Hm;
    try (case_match; [intros [= <-]; apply fs_grows_refl | done]); try done.
  1,3: apply mkdirSync_inr in Hm as (-> & Hn & _); intros [= <-];
    by apply fs_grows_add_dir.
  destruct (mkdirp_sync d cwd _ fs) as [|fs1] eqn:H1; [done |]. intros H2.
  eauto using fs_grows_trans.
Qed.

Lemma files_le_grows fs fs' : fs_grows fs fs' -> files_le fs fs'.
Proof.
  intros [_ Hg] p. specialize (Hg p). destruct (fs_nodes fs !! p) as [n|].
  - by left.
  - destruct Hg as [-> | ->]; [by left | right; by left].
Qed.

(** A completed write of a capture. *)
Lemma files_le_write p enc data fs fs' :
  is_capture p enc -> fs_write p enc data fs = inr fs' -> files_le fs fs'.
Proof.
  intros Hc (-> & Hd%bool_decide_eq_false & _)%fs_write_inr q. simpl.
  destruct (decide (p = q)) as [<-|Hne]; [| left; by rewrite lookup_insert_ne].
  rewrite lookup_insert_eq. right. right. eauto.
Qed.

End FilesOrder.

(** ** The two orders grant what the interface asks *)

(** A world against itself with some fields updated. *)
Ltac wle :=
  split;
  cbn [w_cfg w_now w_fs w_proms w_flow w_ncmd w_io w_jobs w_heap w_console w_trace
       w_screenshot w_click w_listeners upd_now upd_fs upd_proms upd_flow upd_ncmd upd_io
       upd_jobs upd_heap upd_console upd_trace upd_screenshot upd_click upd_listeners
       fst snd];
  try reflexivity.

Ltac wmod :=
  apply extensive_modify; intros ?; wle;
  try solve [by apply prefix_app_r | lia | by apply heap_le_handled].

#[export] Hint Extern 1 (extensive world_le (st_modify _)) => wmod : extensive.
#[export] Hint Extern 1 (extensive same_files (st_modify _)) => wmod : extensive.

(** *** The heap and the console *)

Lemma heap_alloc_ext e : extensive heap_le (heap_alloc e).
Proof. intros h. apply heap_le_app. Qed.

Lemma throw_TypeError_ext {A} msg : extensive heap_le (throw_TypeError (A:=A) msg).
Proof. unfold throw_TypeError. ext. apply heap_alloc_ext. Qed.

Lemma appendImageUrl_ext v err : extensive heap_le (appendImageUrlToStackTrace v err).
Proof. intros h. apply heap_le_stack_extends, appendImageUrl_extends. Qed.

Lemma mark_ext r : extensive heap_le (st_modify (E:=eref) (alter (set_handled true) r)).
Proof. intros h. apply heap_le_handled. Qed.

Lemma console_log_ext {E} text : extensive prefix (console_log (E:=E) text).
Proof. intros c. apply prefix_app_r. done. Qed.

Lemma console_error_ext {E} r : extensive prefix (console_error (E:=E) r).
Proof. intros c. apply prefix_app_r. done. Qed.

Lemma formatJenkins_ext {E} env path name :
  extensive prefix (formatJenkinsImageUrls (E:=E) env path name).
Proof.
  intros c. destruct (formatJenkins_console (E:=E) env path name c) as (msgs & -> & _).
  by apply prefix_app_r.
Qed.

#[export] Hint Resolve heap_alloc_ext throw_TypeError_ext appendImageUrl_ext mark_ext
  console_log_ext console_error_ext formatJenkins_ext : extensive.

(** *** [world_le] *)

Section WorldLe.
Context `{PathOps}.

Lemma world_le_heap {A} (c : St heap eref A) :
  extensive heap_le c -> extensive world_le (zoom_heap c).
Proof.
  intros Hc w. unfold zoom_heap, st_zoom. specialize (Hc (w_heap w)).
  destruct (c (w_heap w)) as [o h']. by wle.
Qed.

Lemma world_le_console {A} (c : St console eref A) :
  extensive prefix c -> extensive world_le (zoom_console c).
Proof.
  intros Hc w. unfold zoom_console, st_zoom. specialize (Hc (w_console w)).
  destruct (c (w_console w)) as [o l']. by wle.
Qed.

Lemma world_le_new_promise k : extensive world_le (new_promise k).
Proof. intros w. wle. apply proms_le_app. Qed.

Lemma world_le_settle q s : extensive world_le (settle q s).
Proof.
  intros w. unfold settle. destruct (w_proms w !! q) as [[k [|s0] rs]|] eqn:Hq;
    cbn [snd]; try reflexivity.
  wle. by eapply proms_le_pending.
Qed.

Lemma world_le_then q ok err : extensive world_le (then_ q ok err).
Proof.
  intros w. destruct (w_proms w !! q) as [[k [|s] rs]|] eqn:Hq.
  - rewrite (then_pending _ _ _ _ _ _ Hq). wle. by eapply proms_le_reaction.
  - rewrite (then_settled _ _ _ _ _ _ _ Hq). wle. apply proms_le_app.
  - unfold then_. st_run. rewrite Hq. apply world_le_heap, throw_TypeError_ext.
Qed.

Hint Resolve world_le_heap world_le_console world_le_new_promise world_le_settle
  world_le_then : extensive.

Lemma world_le_mkdirp path : extensive world_le (mkdirp path).
Proof. unfold mkdirp. ext. Qed.

Lemma world_le_perform_write rq : extensive world_le (perform_write rq).
Proof. unfold perform_write. ext. Qed.

Lemma world_le_write w i rq : world_le w (perform_write rq (upd_io (delete i) w)).2.
Proof. etrans; [| apply world_le_perform_write]. by wle. Qed.

#[export] Instance world_le_host : HostOrder world_le.
Proof.
  split; try exact _; intros;
    first [ by apply world_le_write
          | by wle
          | wle; lia
          | unfold schedule, complete_command, mkdirp, fs_writeFile; ext ].
Qed.

End WorldLe.

(** *** [writes_le] *)

Section WritesLe.
Context `{PathOps}.

Lemma same_files_heap {A} (c : St heap eref A) : extensive same_files (zoom_heap c).
Proof. intros w. unfold zoom_heap, st_zoom. by destruct (c (w_heap w)). Qed.

Lemma same_files_console {A} (c : St console eref A) : extensive same_files (zoom_console c).
Proof. intros w. unfold zoom_console, st_zoom. by destruct (c (w_console w)). Qed.

Lemma same_files_new_promise k : extensive same_files (new_promise k).
Proof. by intros w. Qed.

Lemma same_files_settle q s : extensive same_files (settle q s).
Proof. intros w. unfold settle. by repeat case_match. Qed.

Hint Resolve same_files_heap same_files_console same_files_new_promise same_files_settle
  : extensive.

(** An operation of the host that leaves the files alone. *)
Lemma same_files_ext {A} (c : St World eref A) :
  extensive same_files c -> extensive writes_le c.
Proof. intros Hc w. apply same_files_writes, Hc. Qed.

Lemma writes_le_mkdirp path : extensive writes_le (mkdirp path).
Proof.
  intros w. unfold mkdirp. st_run. destruct (mkdirp_sync _ _ _ _) as [e|fs'] eqn:Hm.
  - by apply same_files_writes.
  - intros Hok. split; [done |]. by eapply files_le_grows, mkdirp_sync_grows.
Qed.

Lemma writes_le_writeFile path data enc cb :
  is_capture path enc -> extensive writes_le (fs_writeFile path data enc cb).
Proof.
  intros Hc w Hok. split; [| done]. apply Forall_app. split; [done |]. by constructor.
Qed.

(** The system completes an outstanding write: while these are captures,
    the file it leaves is one. *)
Lemma writes_le_write w i rq :
  w_io w !! i = Some rq -> writes_le w (perform_write rq (upd_io (delete i) w)).2.
Proof.
  intros Hrq Hok. pose proof (Forall_lookup_1 _ _ _ _ Hok Hrq) as Hc.
  assert (io_ok (delete i (w_io w))) as Hok' by by apply Forall_delete.
  unfold perform_write. st_run. cbn [w_fs upd_io].
  destruct (fs_write _ _ _ _) as [e|fs'] eqn:Hw.
  - by apply (same_files_writes (upd_io (delete i) w)).
  - split; [done |]. by eapply files_le_write.
Qed.

#[export] Instance writes_le_host : HostOrder writes_le.
Proof.
  split; try exact _; intros;
    first [ by apply writes_le_mkdirp | by apply writes_le_writeFile
          | by apply writes_le_write
          | by apply same_files_writes
          | apply same_files_ext;
            unfold call_callback, then_, type_error, schedule, complete_command; ext ].
Qed.

End WritesLe.

(** ** The plugin is extensive for every order of the host *)

Section Operations.
Context `{PathOps} (R : relation World) `{!HostOrder R}.

Hint Resolve host_heap host_console host_new_promise host_settle host_then host_schedule
  host_complete_command host_mkdirp host_plugin host_click host_listeners host_trace
  : extensive.

(** The three writes of the plugin are writes of captures. *)
Lemma writeFile_ext cwd screenShotPath f ext data enc cb :
  capture_kind ext enc ->
  extensive R (fs_writeFile (path_join (path_resolve cwd screenShotPath) (f ++ str ext))
                 data enc cb).
Proof. intros Hk. apply host_writeFile. by exists cwd, screenShotPath, f, ext. Qed.

Hint Extern 1 (extensive _ (fs_writeFile _ _ _ _)) =>
  (apply writeFile_ext; unfold capture_kind; tauto) : extensive.

Lemma cfg_ext {A} (f : Config -> A) : extensive R (cfg f).
Proof. unfold cfg. ext. Qed.

Lemma type_error_ext {A} msg : extensive R (type_error (A:=A) msg).
Proof. unfold type_error. ext. Qed.

Lemma call_callback_ext cb err : extensive R (call_callback cb err).
Proof. unfold call_callback. ext. Qed.

Hint Resolve cfg_ext type_error_ext call_callback_ext : extensive.

Lemma driver_getSession_ext : extensive R driver_getSession.
Proof. unfold driver_getSession. ext. Qed.

Lemma jsref_then_ext r ok err : extensive R (jsref_then r ok err).
Proof. unfold jsref_then. ext. Qed.

Hint Resolve driver_getSession_ext jsref_then_ext : extensive.

(** *** The bridge and the capture service *)

Lemma p_ext : extensive R p.
Proof. unfold p. ext. Qed.

Lemma fulfill_ext d v : extensive R (fulfill d v).
Proof. unfold fulfill. ext. Qed.

Lemma reject_ext d r : extensive R (reject d r).
Proof. unfold reject. ext. Qed.

Hint Resolve p_ext fulfill_ext reject_ext : extensive.

Lemma snap_ext path f : extensive R (snap path f).
Proof. unfold snap. ext. Qed.

Lemma jenkins_urls_ext path name : extensive R (jenkins_urls path name).
Proof. unfold jenkins_urls. ext. Qed.

Hint Resolve snap_ext jenkins_urls_ext : extensive.

Lemma snap_onScreenshot_ext path f d img : extensive R (snap_onScreenshot path f d img).
Proof. unfold snap_onScreenshot. ext. Qed.

Lemma snap_onWritten_ext d o err : extensive R (snap_onWritten d o err).
Proof. unfold snap_onWritten. ext. Qed.

Lemma reject_with_ext d err : extensive R (reject_with d err).
Proof. unfold reject_with. ext. Qed.

Lemma source_ext path f : extensive R (source path f).
Proof. unfold source. ext. Qed.

Lemma source_onScript_ext path f v : extensive R (source_onScript path f v).
Proof. unfold source_onScript. ext. Qed.

Lemma source_onScriptWritten_ext err : extensive R (source_onScriptWritten err).
Proof. unfold source_onScriptWritten. ext. Qed.

Lemma source_onPage_ext path f d src : extensive R (source_onPage path f d src).
Proof. unfold source_onPage. ext. Qed.

Lemma source_onWritten_ext d o err : extensive R (source_onWritten d o err).
Proof. unfold source_onWritten. ext. Qed.

Lemma done_ext path f cb err : extensive R (done path f cb err).
Proof. unfold done. ext. Qed.

Lemma done_onSnap_ext cb err v : extensive R (done_onSnap cb err v).
Proof. unfold done_onSnap. ext. Qed.

Lemma done_onError_ext cb r : extensive R (done_onError cb r).
Proof. unfold done_onError. ext. Qed.

Lemma setCurrentTestTitle_ext title : extensive R (setCurrentTestTitle title).
Proof. unfold setCurrentTestTitle. ext. Qed.

Hint Resolve snap_onScreenshot_ext snap_onWritten_ext reject_with_ext source_ext
  source_onScript_ext source_onScriptWritten_ext source_onPage_ext source_onWritten_ext
  done_ext done_onSnap_ext done_onError_ext setCurrentTestTitle_ext : extensive.

Lemma nemo_snap_ext f : extensive R (nemo_snap f).
Proof. unfold nemo_snap. ext. Qed.

Lemma nemo_source_ext f : extensive R (nemo_source f).
Proof. unfold nemo_source. ext. Qed.

Hint Resolve nemo_snap_ext nemo_source_ext : extensive.

(** *** The hooks *)

Lemma range_error_ext {A} : extensive R (range_error (A:=A)).
Proof. unfold range_error. ext. Qed.

Lemma is_handled_ext r : extensive R (is_handled r).
Proof. unfold is_handled. ext. Qed.

Lemma mark_handled_ext r : extensive R (mark_handled r).
Proof. exact (host_heap (st_modify (alter (set_handled true) r)) (mark_ext r)). Qed.

Lemma auto_name_ext prefix : extensive R (auto_name prefix).
Proof. unfold auto_name. ext. Qed.

Hint Resolve range_error_ext is_handled_ext mark_handled_ext auto_name_ext : extensive.

Lemma element_click_ext impl element : extensive R (element_click impl element).
Proof. induction impl as [|options oclick IH]; cbn [element_click]; ext. Qed.

Lemma onUncaughtException_ext emit options exception :
  (forall e, extensive R (emit e)) ->
  extensive R (onUncaughtException emit options exception).
Proof. intros Hemit. unfold onUncaughtException. ext. Qed.

Lemma call_listeners_ext emit ls exception :
  (forall e, extensive R (emit e)) ->
  extensive R (call_listeners emit ls exception).
Proof.
  intros Hemit. induction ls as [|l ls IH]; cbn [call_listeners]; ext.
  unfold call_listener. pose proof onUncaughtException_ext. ext.
Qed.

Lemma emit_ext depth : forall exception, extensive R (emit depth exception).
Proof.
  induction depth as [|depth IH]; intros exception; cbn [emit]; ext.
  by apply call_listeners_ext.
Qed.

Lemma flow_emit_ext exception : extensive R (flow_emit exception).
Proof. unfold flow_emit. ext. apply emit_ext. Qed.

Hint Resolve element_click_ext flow_emit_ext : extensive.

Lemma exc_onSession_ext options exception session :
  extensive R (exc_onSession options exception session).
Proof. unfold exc_onSession. ext. Qed.

Lemma exc_onSnap_ext exception v : extensive R (exc_onSnap exception v).
Proof. unfold exc_onSnap. ext. Qed.

Lemma exc_onCatch_ext exception e : extensive R (exc_onCatch exception e).
Proof. unfold exc_onCatch. ext. Qed.

Lemma setup_ext args : extensive R (setup args).
Proof. unfold setup, install. ext. Qed.

Hint Resolve exc_onSession_ext exc_onSnap_ext exc_onCatch_ext setup_ext : extensive.

(** *** The event loop and the interface *)

Lemma settle_with_ext d (c : St World eref value) :
  extensive R c -> extensive R (settle_with d c).
Proof.
  intros Hc w. unfold settle_with. specialize (Hc w).
  destruct (c w) as [[v|r] w1]; (etrans; [exact Hc | apply host_settle]).
Qed.

Lemma apply_ok_ext k v : extensive R (apply_ok k v).
Proof. unfold apply_ok. ext. Qed.

Lemma apply_err_ext k r : extensive R (apply_err k r).
Proof. unfold apply_err. ext. Qed.

Lemma apply_cb_ext k err : extensive R (apply_cb k err).
Proof. unfold apply_cb. ext. Qed.

Hint Resolve settle_with_ext apply_ok_ext apply_err_ext apply_cb_ext : extensive.

Lemma run_job_ext j : extensive R (run_job j).
Proof. unfold run_job. ext. Qed.

Lemma run_io_ext w i rq :
  w_io w !! i = Some rq -> R w (run_io rq (upd_io (delete i) w)).2.
Proof.
  intros Hw%host_write. unfold run_io, st_bind.
  destruct (perform_write rq _) as [[err|e] w1]; [| done].
  etrans; [exact Hw | apply apply_cb_ext].
Qed.

Lemma do_call_ext c : extensive R (do_call c).
Proof. unfold do_call. ext. Qed.

Lemma step_le c w w' : step c w = Some w' -> R w w'.
Proof.
  unfold step. intros Hs. repeat case_match; simplify_eq.
  - etrans; [apply host_next_job | apply run_job_ext].
  - apply host_complete_command.
  - by apply run_io_ext.
  - apply host_tick.
  - apply flow_emit_ext.
Qed.

Lemma history_le w w' : history w w' -> R w w'.
Proof.
  induction 1 as [w | w c w1 w2 Hs _ IH | w c w2 _ IH]; [done | |].
  - etrans; [by eapply step_le | done].
  - etrans; [apply do_call_ext | done].
Qed.

Lemma reach_history w w' : reach w w' -> history w w'.
Proof. induction 1; eauto using history. Qed.

End Operations.

Lemma after_exception_history : history hooked_world after_exception.
Proof.
  unfold after_exception. destruct (step (Uncaught 0) hooked_world) as [w|] eqn:Hs;
    [| constructor].
  eapply history_step; [done |]. apply reach_history, run_loop_reach.
Qed.

(** ** Properties *)

Section Histories.
Context `{PathOps}.

(** no promise is ever removed or replaced by one of the other library,
    in any history. *)
Theorem promises_persist w w' q c :
  history w w' -> w_proms w !! q = Some c ->
  exists c', w_proms w' !! q = Some c' /\ pc_kind c' = pc_kind c.
Proof.
  intros Hh%(history_le world_le) Hq. destruct (le_proms _ _ Hh _ _ Hq) as (c' & Hq' & Hk & _). eauto.
Qed.

(** C23: in every history of calls of the interface and turns of the loop, an
    error object of the heap stays at its reference and keeps its name and
    its message, the text of its stack is a prefix of the later text, and
    the mark of the exception hook, once set, stays set. *)
Theorem errors_keep_identity w w' r e :
  history w w' -> w_heap w !! r = Some e ->
  exists e', w_heap w' !! r = Some e' /\
    e_name e' = e_name e /\ e_message e' = e_message e /\
    to_str (e_stack e) `prefix_of` to_str (e_stack e') /\
    (e_handled e = true -> e_handled e' = true).
Proof.
  intros Hh%(history_le world_le) Hr.
  destruct (le_heap _ _ Hh _ _ Hr) as (e' & Hr' & Hn & Hm & Hd & Hs).
  exists e'. repeat split; [done.. | | done].
  destruct Hs as [-> | [more ->]]; [done | by apply prefix_app_r].
Qed.

(** nothing printed is taken back and no call made to the embedding test
    is forgotten: in every history the console and the trace of calls only
    grow at the end, and the configuration of the host is left alone. *)
Theorem output_only_grows w w' :
  history w w' ->
  w_console w `prefix_of` w_console w' /\ w_trace w `prefix_of` w_trace w' /\
  w_cfg w' = w_cfg w.
Proof. intros [? _ _ ? ? _ _]%(history_le world_le). done. Qed.

(** C13: the plugin writes captures and nothing else.  In every history that
    starts with no outstanding write but writes of captures, a node of the
    file system is what it was, or a directory where there was nothing, or a
    file where there was no directory, and then the file of a capture: its
    path is [path.join(path.resolve(dir), name + ext)] for a directory and a
    name, with [ext] one of [.png], written in base64, and [.html] and
    [.txt], written as text.  No node is removed and no directory
    replaced. *)
Theorem writes_are_captures w w' p :
  history w w' -> io_ok (w_io w) ->
  let n := fs_nodes (w_fs w) !! p in
  let n' := fs_nodes (w_fs w') !! p in
  n' = n \/ (n = None /\ n' = Some Dir) \/
  (n <> Some Dir /\ exists enc data, n' = Some (File enc data) /\ is_capture p enc).
Proof. intros Hh%(history_le writes_le) Hok. destruct (Hh Hok) as [_ Hf]. apply Hf. Qed.

End Histories.

(** ** Witnesses *)

Lemma promises_persist_witness :
  exists c', w_proms (run_loop 3 snapped_world) !! 0 = Some c' /\
    pc_kind c' = pc_kind (mkCell Managed Pending []).
Proof.
  apply (promises_persist snapped_world (run_loop 3 snapped_world) 0 _
           (reach_history _ _ (run_loop_reach 3 snapped_world))).
  vm_compute. reflexivity.
Defined.

Lemma errors_keep_identity_witness :
  exists e', w_heap after_exception !! 0 = Some e' /\
    e_name e' = e_name sample_exception /\ e_message e' = e_message sample_exception /\
    to_str (e_stack sample_exception) `prefix_of` to_str (e_stack e') /\
    (e_handled sample_exception = true -> e_handled e' = true).
Proof.
  apply (errors_keep_identity hooked_world after_exception 0 sample_exception
           after_exception_history).
  vm_compute. reflexivity.
Defined.

Lemma output_only_grows_witness :
  w_console snapped_world `prefix_of` w_console (run_loop 3 snapped_world) /\
  w_trace snapped_world `prefix_of` w_trace (run_loop 3 snapped_world) /\
  w_cfg (run_loop 3 snapped_world) = w_cfg snapped_world.
Proof.
  apply (output_only_grows snapped_world _
           (reach_history _ _ (run_loop_reach 3 snapped_world))).
Defined.

Lemma writes_are_captures_witness :
  let p := str "/home/u/report/shot.png" in
  let n := fs_nodes (w_fs snapped_world) !! p in
  let n' := fs_nodes (w_fs (run_loop 3 snapped_world)) !! p in
  n' = n \/ (n = None /\ n' = Some Dir) \/
  (n <> Some Dir /\ exists enc data, n' = Some (File enc data) /\ is_capture p enc).
Proof.
  apply (writes_are_captures snapped_world (run_loop 3 snapped_world) _
           (reach_history _ _ (run_loop_reach 3 snapped_world))).
  vm_compute. constructor.
Defined.
