(* ===== verification/Runs.v ===== *)
(** * Runs of the capture service

    What a call of [snap], [source] or [done] leads to once the event loop
    has run the callbacks it registered: the file written, the state of the
    promise returned, the calls made to the completion callback.  Each
    theorem starts from a world at rest, makes the call, and runs the loop
    until the world is at rest again ([settles_in], or [ends_in] for a
    schedule other than the loop's own); the proofs execute the model on a
    world given by its fields.  [page_reply] is the driver's answer to the
    script of [source] on a page given by its DOM. *)

From stdpp Require Import gmap.
From S2P Require Import Prelude JsString Values DomScript Jenkins StackTrace Path Fs World.
From S2P Require Import Bridge Capture Hooks EventLoop.

(** ** What a run promises *)

(** With [n] steps of the loop's schedule the world comes to rest, and [P]
    holds of the world at rest, however much longer the loop is run. *)
Definition settles_in `{PathOps} (n : nat) (w : World) (P : World -> Prop) : Prop :=
  forall fuel, n <= fuel -> quiescent (run_loop fuel w) /\ P (run_loop fuel w).

(** The world [w] is at rest and [P] holds of it. *)
Definition at_rest `{PathOps} (P : World -> Prop) (w : World) : Prop :=
  quiescent w /\ P w.

(** The schedule [sched] can be run, it brings the world to rest, and [P]
    holds of the world at rest. *)
Definition ends_in `{PathOps} (sched : list choice) (w : World) (P : World -> Prop) : Prop :=
  exists w', run sched w = Some w' /\ quiescent w' /\ P w'.

(** ** The driver's answer to the script *)

(** The error the driver reports when the script throws. *)
Definition script_error_obj (e : script_error) : errObj :=
  match e with
  | TypeError =>
    new_error (str "JavascriptError")
      (str "javascript error: Cannot read properties of null")
  | ReferenceError =>
    new_error (str "JavascriptError") (str "javascript error: fpti is not defined")
  end.

(** What the driver answers to [executeScript] on the page [pg]: the string
    the script returns, or the error it ends with; a script that does not
    end within [fuel] is reported as timed out. *)
Definition page_reply (fuel : nat) (pg : Page) : reply :=
  match script fuel pg with
  | Some (Ret json, _) => Done (VStr json)
  | Some (Throw e, _) => Failed (script_error_obj e)
  | None => Failed (new_error (str "ScriptTimeoutError") (str "script timeout"))
  end.

(** A driver that runs the script on the page [pg] and answers the other
    commands as [sample_reply] does. *)
Definition page_driver (fuel : nat) (pg : Page) (n : nat) (c : command) : reply :=
  match c with
  | ExecuteInvisiScript => page_reply fuel pg
  | _ => sample_reply n c
  end.

Definition page_world (fuel : nat) (pg : Page) : World :=
  world_of (sample_cfg GsPromise (VHost (str "{}")) (page_driver fuel pg)) sample_fs.

(** A driver that answers its first command with one image and the later
    ones with another. *)
Definition two_shots_reply (n : nat) (c : command) : reply :=
  match n with
  | O => Done (VStr (str "Zmlyc3Q="))
  | S _ => Done (VStr (str "c2Vjb25k"))
  end.

Definition two_shots_world : World :=
  world_of (sample_cfg GsPromise (VHost (str "{}")) two_shots_reply) sample_fs.

Lemma settles_in_intro `{PathOps} n w w' (P : World -> Prop) :
  run_loop n w = w' -> quiescent w' -> P w' -> settles_in n w P.
Proof.
  intros <- Hq HP fuel Hfuel. replace fuel with (n + (fuel - n)) by lia.
  by rewrite run_loop_more.
Qed.

Lemma settles_in_at `{PathOps} n w (P : World -> Prop) :
  at_rest P (run_loop n w) -> settles_in n w P.
Proof. intros [Hq HP]. by apply (settles_in_intro n w (run_loop n w)). Qed.

Lemma sample_rest c fs : quiescent (world_of c fs).
Proof. by repeat split. Qed.

(** Run the loop for [n] steps and show the world is at rest. *)
Ltac wsettle n := apply (settles_in_at n); lsteps n; split; [done | cbn beta].

Section SnapSucceeds.
Context `{PathLaws}.
Context (screenShotPath f : jsstring) (w : World).
Context (Hrest : quiescent w).
Context (Hcwd : path_absolute (c_cwd (w_cfg w)) = true) (Hwf : fs_wf (w_fs w)).

Local Abbreviation file := (capture_file (c_cwd (w_cfg w)) screenShotPath f ".png").

(** C1: [snap] succeeds on every file system that lets it: with a session and
    a driver that answers the screenshot command with an image, on a
    well-formed file system where the capture directory can be made within
    the stack and the file is neither a directory nor refused, the promise
    is fulfilled within three steps of the loop, the file holds the image,
    the file system is still well formed and no other node of it has
    changed or gone. *)
Theorem snap_succeeds img :
  session_present (w_cfg w) = true ->
  c_reply (w_cfg w) (w_ncmd w) TakeScreenshot = Done img ->
  makeable (c_stack (w_cfg w)) (w_fs w) (path_dirname file) = true ->
  is_dir (w_fs w) file = false -> file ∉ fs_denied (w_fs w) ->
  exists d w1, snap screenShotPath f w = (Ret d, w1) /\
    settles_in 3 w1 (fun w' =>
      promise_state w' d =
        Some (Settled (Fulfilled (VImage (snap_image (w_cfg w) screenShotPath f)))) /\
      fs_nodes (w_fs w') !! file = Some (File Base64 (value_to_str img)) /\
      fs_wf (w_fs w') /\
      forall p n, p <> file -> fs_nodes (w_fs w) !! p = Some n ->
                  fs_nodes (w_fs w') !! p = Some n).
Proof.
  intros Hs Hr Hmk Hd Hden.
  destruct (mkdirp_then_write _ Hcwd (c_stack (w_cfg w)) file Base64 (value_to_str img)
              (w_fs w)) as (fs1 & Hm & Hw & Hg & Hwf2);
    [by apply capture_file_canonical | done.. |].
  unfold snap_image, capture_file in *. wsnap Hs.
  eexists _, _. split; [done |]. destruct Hrest as (Hj & Hf & Hi). wdestruct w.
  wsettle 3. unfold promise_state. split; [by wstep |].
  wcbn. cbn [fs_nodes add_node]. split; [apply lookup_insert_eq |]. split; [done |].
  intros p n Hp Hn. rewrite lookup_insert_ne by done. by eapply fs_grows_lookup.
Qed.

Local Abbreviation image := (VImage (snap_image (w_cfg w) screenShotPath f)).

(** C15: two captures of the same name that overlap write the same file: both
    promises are fulfilled with the same object, and the file holds the
    image whose write completed last.  In the order the loop completes the
    writes that is the second image; when the system completes the second
    write first, the file holds the first image. *)
Theorem snap_same_name_race img1 img2 :
  session_present (w_cfg w) = true ->
  c_reply (w_cfg w) (w_ncmd w) TakeScreenshot = Done img1 ->
  c_reply (w_cfg w) (S (w_ncmd w)) TakeScreenshot = Done img2 ->
  makeable (c_stack (w_cfg w)) (w_fs w) (path_dirname file) = true ->
  is_dir (w_fs w) file = false -> file ∉ fs_denied (w_fs w) ->
  exists d1 w1 d2 w2,
    snap screenShotPath f w = (Ret d1, w1) /\ snap screenShotPath f w1 = (Ret d2, w2) /\
    d1 <> d2 /\
    settles_in 6 w2 (fun w' =>
      promise_state w' d1 = Some (Settled (Fulfilled image)) /\
      promise_state w' d2 = Some (Settled (Fulfilled image)) /\
      fs_nodes (w_fs w') !! file = Some (File Base64 (value_to_str img2))) /\
    ends_in [RunCommand; RunJob; RunCommand; RunJob; RunIo 1; RunIo 0] w2 (fun w' =>
      promise_state w' d1 = Some (Settled (Fulfilled image)) /\
      promise_state w' d2 = Some (Settled (Fulfilled image)) /\
      fs_nodes (w_fs w') !! file = Some (File Base64 (value_to_str img1))).
Proof.
  intros Hs Hr1 Hr2 Hmk Hd Hden.
  destruct (mkdirp_then_write _ Hcwd (c_stack (w_cfg w)) file Base64 (value_to_str img1)
              (w_fs w)) as (fs1 & Hm & Hw1 & Hg & Hwf2);
    [by apply capture_file_canonical | done.. |].
  pose proof Hm as (Hd1 & _ & Hwf1)%mkdirp_sync_inr; [| done..].
  assert (mkdirp_sync (c_stack (w_cfg w)) (c_cwd (w_cfg w)) (path_dirname file) fs1 = inr fs1)
    as Hm1 by by apply mkdirp_sync_exists.
  assert (fs_write file Base64 (value_to_str img2) fs1
          = inr (add_node file (File Base64 (value_to_str img2)) fs1)) as Hw2.
  { apply fs_write_inr in Hw1 as (_ & ? & ? & ?). by apply fs_write_ok. }
  pose proof (fs_write_again _ _ _ Base64 (value_to_str img2) _ Hw1) as Hw12.
  pose proof (fs_write_again _ _ _ Base64 (value_to_str img1) _ Hw2) as Hw21.
  unfold snap_image, capture_file in *.
  eexists _, _, _, _. split; [by apply snap_run_cells |].
  split; [by apply snap_run_cells |]. wentry.
  destruct Hrest as (Hj & Hf & Hi). wdestruct w. wstep. split; [lia |].
  split; [wsettle 6 | eexists; split; [do 7 rstep; reflexivity |]; split; [done |]].
  all: unfold promise_state; do 2 wstep; cbn [fs_nodes add_node];
    by rewrite lookup_insert_eq.
Qed.

End SnapSucceeds.

Section SnapRuns.
Context `{PathOps}.
Context (screenShotPath f : jsstring) (w : World).
Context (Hrest : quiescent w).

Local Abbreviation file := (capture_file (c_cwd (w_cfg w)) screenShotPath f ".png").

(** C14: with a session, [snap] produces the file [f.png] in the capture
    directory: when the driver answers the screenshot command with an image,
    the directory of the file can be ensured and the file written, three
    steps of the loop bring the world to rest with the image written to
    [path.join(path.resolve(screenShotPath), f + '.png')], base64-encoded,
    and the promise [snap] returned fulfilled with the object naming it. *)
Theorem snap_captures img fs1 fs2 :
  session_present (w_cfg w) = true ->
  c_reply (w_cfg w) (w_ncmd w) TakeScreenshot = Done img ->
  mkdirp_sync (c_stack (w_cfg w)) (c_cwd (w_cfg w)) (path_dirname file) (w_fs w) = inr fs1 ->
  fs_write file Base64 (value_to_str img) fs1 = inr fs2 ->
  exists d w1, snap screenShotPath f w = (Ret d, w1) /\
    settles_in 3 w1 (fun w' =>
      promise_state w' d =
        Some (Settled (Fulfilled (VImage (snap_image (w_cfg w) screenShotPath f)))) /\
      w_fs w' = fs2 /\
      w_trace w' = w_trace w ++ [EvCommand TakeScreenshot] /\
      w_heap w' = w_heap w).
Proof.
  unfold snap_image, capture_file. intros Hs Hr Hm Hw. wsnap Hs.
  eexists _, _. split; [done |]. destruct Hrest as (Hj & Hf & Hi). wdestruct w.
  wsettle 3. unfold promise_state. by wstep.
Qed.

(** C9: a failure of the screenshot command rejects the promise with the
    driver's error, the very object, and leaves the file system alone: two
    steps of the loop, no directory made, no write started. *)
Theorem snap_rejects_driver_failure e :
  session_present (w_cfg w) = true ->
  c_reply (w_cfg w) (w_ncmd w) TakeScreenshot = Failed e ->
  exists d w1, snap screenShotPath f w = (Ret d, w1) /\
    settles_in 2 w1 (fun w' =>
      promise_state w' d = Some (Settled (Rejected (length (w_heap w)))) /\
      w_heap w' = w_heap w ++ [e] /\
      w_fs w' = w_fs w).
Proof.
  intros Hs Hr. wsnap Hs.
  eexists _, _. split; [done |]. destruct Hrest as (Hj & Hf & Hi). wdestruct w.
  wsettle 2. unfold promise_state. by wstep.
Qed.

(** C10: a failure of the write rejects the promise with the error of the
    write: the directory has been made, the file has not. *)
Theorem snap_rejects_write_failure img fs1 code :
  session_present (w_cfg w) = true ->
  c_reply (w_cfg w) (w_ncmd w) TakeScreenshot = Done img ->
  mkdirp_sync (c_stack (w_cfg w)) (c_cwd (w_cfg w)) (path_dirname file) (w_fs w) = inr fs1 ->
  fs_write file Base64 (value_to_str img) fs1 = inl code ->
  exists d w1, snap screenShotPath f w = (Ret d, w1) /\
    settles_in 3 w1 (fun w' =>
      promise_state w' d = Some (Settled (Rejected (length (w_heap w)))) /\
      w_heap w' = w_heap w ++ [fs_error_obj code "open" file] /\
      w_fs w' = fs1).
Proof.
  unfold capture_file. intros Hs Hr Hm Hw. wsnap Hs.
  eexists _, _. split; [done |]. destruct Hrest as (Hj & Hf & Hi). wdestruct w.
  wsettle 3. unfold promise_state. by wstep.
Qed.

(** C11: when [mkdirp.sync] throws inside the callback of the screenshot, the
    exception goes to the promise [then] returned, which nobody holds: the
    promise [snap] returned is neither fulfilled nor rejected.  With no
    listener of uncaught exceptions installed it stays pending in every
    world that can be reached afterwards. *)
Theorem snap_mkdirp_failure_pending img err :
  session_present (w_cfg w) = true ->
  w_listeners w = [] ->
  c_reply (w_cfg w) (w_ncmd w) TakeScreenshot = Done img ->
  mkdirp_sync (c_stack (w_cfg w)) (c_cwd (w_cfg w)) (path_dirname file) (w_fs w) = inl err ->
  exists d w1, snap screenShotPath f w = (Ret d, w1) /\
    settles_in 2 w1 (fun w' =>
      w_heap w' = w_heap w ++ [mkdirp_error_obj err] /\
      forall w'', reach w' w'' -> promise_state w'' d = Some Pending).
Proof.
  unfold capture_file. intros Hs Hl Hr Hm. wsnap Hs.
  eexists _, _. split; [done |]. destruct Hrest as (Hj & Hf & Hi). wdestruct w.
  wsettle 2. split; [done |].
  intros w'' Hreach. apply rest_forever in Hreach as (_ & _ & Hp); [| done..].
  unfold promise_state. rewrite Hp. by wstep.
Qed.

End SnapRuns.

Lemma snap_captures_witness :
  exists fs2 d w1, snap (str "report") (str "shot") sample_world = (Ret d, w1) /\
    settles_in 3 w1 (fun w' =>
      promise_state w' d =
        Some (Settled (Fulfilled
                (VImage (snap_image sample_config (str "report") (str "shot"))))) /\
      w_fs w' = fs2 /\ w_trace w' = [EvCommand TakeScreenshot] /\ w_heap w' = []).
Proof.
  eexists.
  eapply (snap_captures (str "report") (str "shot") sample_world (sample_rest _ _));
    [reflexivity | reflexivity | vm_compute; reflexivity | vm_compute; reflexivity].
Defined.

Lemma snap_succeeds_witness :
  exists d w1, snap (str "report") (str "shot") sample_world = (Ret d, w1) /\
    settles_in 3 w1 (fun w' =>
      promise_state w' d =
        Some (Settled (Fulfilled
                (VImage (snap_image sample_config (str "report") (str "shot"))))) /\
      fs_nodes (w_fs w') !! capture_file (str "/home/u") (str "report") (str "shot") ".png"
        = Some (File Base64 (str "iVBORw0KGgo=")) /\
      fs_wf (w_fs w') /\
      forall p n, p <> capture_file (str "/home/u") (str "report") (str "shot") ".png" ->
                  fs_nodes home_fs !! p = Some n -> fs_nodes (w_fs w') !! p = Some n).
Proof.
  apply (snap_succeeds (str "report") (str "shot") sample_world (sample_rest _ _))
    with (img := VStr (str "iVBORw0KGgo="));
    [vm_compute; reflexivity | apply home_fs_wf | reflexivity | reflexivity
    | vm_compute; reflexivity | vm_compute; reflexivity | set_solver].
Defined.

Lemma snap_same_name_race_witness :
  exists d1 w1 d2 w2,
    snap (str "report") (str "shot") two_shots_world = (Ret d1, w1) /\
    snap (str "report") (str "shot") w1 = (Ret d2, w2) /\ d1 <> d2 /\
    settles_in 6 w2 (fun w' =>
      promise_state w' d1
        = Some (Settled (Fulfilled
                  (VImage (snap_image sample_config (str "report") (str "shot"))))) /\
      promise_state w' d2
        = Some (Settled (Fulfilled
                  (VImage (snap_image sample_config (str "report") (str "shot"))))) /\
      fs_nodes (w_fs w') !! capture_file (str "/home/u") (str "report") (str "shot") ".png"
        = Some (File Base64 (str "c2Vjb25k"))) /\
    ends_in [RunCommand; RunJob; RunCommand; RunJob; RunIo 1; RunIo 0] w2 (fun w' =>
      promise_state w' d1
        = Some (Settled (Fulfilled
                  (VImage (snap_image sample_config (str "report") (str "shot"))))) /\
      promise_state w' d2
        = Some (Settled (Fulfilled
                  (VImage (snap_image sample_config (str "report") (str "shot"))))) /\
      fs_nodes (w_fs w') !! capture_file (str "/home/u") (str "report") (str "shot") ".png"
        = Some (File Base64 (str "Zmlyc3Q="))).
Proof.
  apply (snap_same_name_race (str "report") (str "shot") two_shots_world (sample_rest _ _))
    with (img1 := VStr (str "Zmlyc3Q=")) (img2 := VStr (str "c2Vjb25k"));
    [vm_compute; reflexivity | apply home_fs_wf | reflexivity | reflexivity | reflexivity
    | vm_compute; reflexivity | vm_compute; reflexivity | set_solver].
Defined.

Lemma snap_rejects_driver_failure_witness :
  exists d w1,
    snap (str "report") (str "shot")
      (world_of (sample_cfg GsPromise VNull failing_reply) sample_fs) = (Ret d, w1) /\
    settles_in 2 w1 (fun w' =>
      promise_state w' d = Some (Settled (Rejected 0)) /\
      w_heap w' = [sample_failure] /\ w_fs w' = sample_fs).
Proof.
  eapply (snap_rejects_driver_failure (str "report") (str "shot")
            (world_of (sample_cfg GsPromise VNull failing_reply) sample_fs) (sample_rest _ _));
    reflexivity.
Defined.

Lemma snap_rejects_write_failure_witness :
  exists fs1 d w1,
    snap (str "report") (str "shot") (world_of sample_config denied_fs) = (Ret d, w1) /\
    settles_in 3 w1 (fun w' =>
      promise_state w' d = Some (Settled (Rejected 0)) /\
      w_heap w' =
        [fs_error_obj EACCES "open"
           (capture_file (str "/home/u") (str "report") (str "shot") ".png")] /\
      w_fs w' = fs1).
Proof.
  eexists.
  eapply (snap_rejects_write_failure (str "report") (str "shot")
            (world_of sample_config denied_fs) (sample_rest _ _));
    [reflexivity | reflexivity | vm_compute; reflexivity | vm_compute; reflexivity].
Defined.

Lemma snap_mkdirp_failure_pending_witness :
  exists d w1,
    snap (str "report") (str "shot") (world_of sample_config blocked_fs) = (Ret d, w1) /\
    settles_in 2 w1 (fun w' =>
      w_heap w' = [mkdirp_error_obj (SysError EEXIST (str "/home/u/report"))] /\
      forall w'', reach w' w'' -> promise_state w'' d = Some Pending).
Proof.
  eapply (snap_mkdirp_failure_pending (str "report") (str "shot")
            (world_of sample_config blocked_fs) (sample_rest _ _));
    [reflexivity | reflexivity | reflexivity | vm_compute; reflexivity].
Defined.

(** ** [done] *)

Section DoneRuns.
Context `{PathOps}.
Context (screenShotPath f : jsstring) (cb : N) (w : World).
Context (Hrest : quiescent w).

Local Abbreviation file := (capture_file (c_cwd (w_cfg w)) screenShotPath f ".png").

(** C3: when the capture succeeds [done] calls its callback exactly once, with
    the error it was given, after appending the location of the image to the
    stack of that error. *)
Theorem done_calls_back img fs1 fs2 err :
  session_present (w_cfg w) = true ->
  c_reply (w_cfg w) (w_ncmd w) TakeScreenshot = Done img ->
  mkdirp_sync (c_stack (w_cfg w)) (c_cwd (w_cfg w)) (path_dirname file) (w_fs w) = inr fs1 ->
  fs_write file Base64 (value_to_str img) fs1 = inr fs2 ->
  exists u w1, done screenShotPath f cb err w = (Ret u, w1) /\
    settles_in 4 w1 (fun w' =>
      w_trace w' = w_trace w ++ [EvCommand TakeScreenshot; EvCallback cb err] /\
      w_heap w' =
        annotated err (VImage (snap_image (w_cfg w) screenShotPath f)) (w_heap w) /\
      w_fs w' = fs2).
Proof.
  unfold snap_image, capture_file, annotated, done. intros Hs Hr Hm Hw. st_unfold. wsnap Hs.
  destruct Hrest as (Hj & Hf & Hi). wdestruct w. wcall.
  destruct err; wsettle 4; by wstep.
Qed.

(** C4: when the screenshot fails [done] calls its callback exactly once, with
    the driver's error, and prints a diagnostic with the text of the error. *)
Theorem done_calls_back_on_failure e err :
  session_present (w_cfg w) = true ->
  c_reply (w_cfg w) (w_ncmd w) TakeScreenshot = Failed e ->
  exists u w1, done screenShotPath f cb err w = (Ret u, w1) /\
    settles_in 3 w1 (fun w' =>
      w_trace w' =
        w_trace w ++ [EvCommand TakeScreenshot; EvCallback cb (Some (length (w_heap w)))] /\
      w_heap w' = w_heap w ++ [e] /\
      w_console w' =
        w_console w ++
        [CLog (str "nemo-screenshot encountered some error. " ++ err_toString e)]).
Proof.
  unfold done. intros Hs Hr. st_unfold. wsnap Hs.
  destruct Hrest as (Hj & Hf & Hi). wdestruct w. wcall.
  wsettle 3. by wstep.
Qed.

(** C12: when [mkdirp.sync] throws and no listener of uncaught exceptions
    is installed, [done] never calls its callback: the loop comes to rest
    with the promise of [snap] pending, and no world reached afterwards has
    a call of the callback in its trace. *)
Theorem done_never_calls_back img err0 err :
  session_present (w_cfg w) = true ->
  w_listeners w = [] ->
  c_reply (w_cfg w) (w_ncmd w) TakeScreenshot = Done img ->
  mkdirp_sync (c_stack (w_cfg w)) (c_cwd (w_cfg w)) (path_dirname file) (w_fs w) = inl err0 ->
  exists u w1, done screenShotPath f cb err w = (Ret u, w1) /\
    settles_in 2 w1 (fun w' =>
      forall w'', reach w' w'' -> w_trace w'' = w_trace w ++ [EvCommand TakeScreenshot]).
Proof.
  unfold capture_file, done. intros Hs Hl Hr Hm. st_unfold. wsnap Hs.
  destruct Hrest as (Hj & Hf & Hi). wdestruct w. wcall.
  wsettle 2. intros w'' Hreach.
  apply rest_forever in Hreach as (_ & Ht & _); [| done..]. by rewrite Ht.
Qed.

End DoneRuns.

Lemma done_calls_back_witness :
  exists fs2 u w1, done (str "report") (str "shot") 7 None sample_world = (Ret u, w1) /\
    settles_in 4 w1 (fun w' =>
      w_trace w' = [EvCommand TakeScreenshot; EvCallback 7 None] /\
      w_heap w' = [] /\ w_fs w' = fs2).
Proof.
  eexists.
  eapply (done_calls_back (str "report") (str "shot") 7 sample_world (sample_rest _ _));
    [reflexivity | reflexivity | vm_compute; reflexivity | vm_compute; reflexivity].
Defined.

Lemma done_calls_back_on_failure_witness :
  exists u w1,
    done (str "report") (str "shot") 7 None
      (world_of (sample_cfg GsPromise VNull failing_reply) sample_fs) = (Ret u, w1) /\
    settles_in 3 w1 (fun w' =>
      w_trace w' = [EvCommand TakeScreenshot; EvCallback 7 (Some 0)] /\
      w_heap w' = [sample_failure] /\
      w_console w' =
        [CLog (str "nemo-screenshot encountered some error. " ++
               err_toString sample_failure)]).
Proof.
  eapply (done_calls_back_on_failure (str "report") (str "shot") 7
            (world_of (sample_cfg GsPromise VNull failing_reply) sample_fs) (sample_rest _ _));
    reflexivity.
Defined.

Lemma done_never_calls_back_witness :
  exists u w1,
    done (str "report") (str "shot") 7 None (world_of sample_config blocked_fs)
      = (Ret u, w1) /\
    settles_in 2 w1 (fun w' =>
      forall w'', reach w' w'' -> w_trace w'' = [EvCommand TakeScreenshot]).
Proof.
  eapply (done_never_calls_back (str "report") (str "shot") 7
            (world_of sample_config blocked_fs) (sample_rest _ _));
    [reflexivity | reflexivity | reflexivity | vm_compute; reflexivity].
Defined.

(** ** [source] *)

Section SourceRuns.
Context `{PathOps}.
Context (screenShotPath f : jsstring) (w : World).
Context (Hrest : quiescent w).

Local Abbreviation html := (capture_file (c_cwd (w_cfg w)) screenShotPath f ".html").
Local Abbreviation txt := (capture_file (c_cwd (w_cfg w)) screenShotPath f ".txt").

(** C16: with a session, [source] writes the page source to [f.html] in the
    capture directory as text and fulfils its promise with the object that
    names it; with the loop's schedule the result of the script is written
    beside it as [f.txt]. *)
Theorem source_captures nodes src fs1 fs2 fs3 :
  session_present (w_cfg w) = true ->
  c_reply (w_cfg w) (w_ncmd w) ExecuteInvisiScript = Done nodes ->
  c_reply (w_cfg w) (S (w_ncmd w)) GetPageSource = Done src ->
  mkdirp_sync (c_stack (w_cfg w)) (c_cwd (w_cfg w)) (path_dirname html) (w_fs w) = inr fs1 ->
  fs_write txt Utf8 (value_to_str nodes) fs1 = inr fs2 ->
  fs_write html Utf8 (value_to_str src) fs2 = inr fs3 ->
  exists d w1, source screenShotPath f w = (Ret d, w1) /\
    settles_in 6 w1 (fun w' =>
      promise_state w' d =
        Some (Settled (Fulfilled (VSource (source_result (w_cfg w) screenShotPath f)))) /\
      w_fs w' = fs3 /\
      w_trace w' = w_trace w ++ [EvCommand ExecuteInvisiScript; EvCommand GetPageSource]).
Proof.
  unfold source_result, capture_file. intros Hs Hn Hp Hm Ht Hh. wsource Hs.
  eexists _, _. split; [done |]. destruct Hrest as (Hj & Hf & Hi). wdestruct w.
  wsettle 6. unfold promise_state. by wstep.
Qed.

(** C27: the write of [f.txt] is started before the directory is made.  When
    it completes before the page source arrives and the capture directory
    does not exist yet, it fails: the error goes to the console, no [f.txt]
    is written, and the promise of [source] is fulfilled all the same. *)
Theorem source_txt_before_directory nodes src fs1 fs2 code :
  session_present (w_cfg w) = true ->
  c_reply (w_cfg w) (w_ncmd w) ExecuteInvisiScript = Done nodes ->
  c_reply (w_cfg w) (S (w_ncmd w)) GetPageSource = Done src ->
  fs_write txt Utf8 (value_to_str nodes) (w_fs w) = inl code ->
  mkdirp_sync (c_stack (w_cfg w)) (c_cwd (w_cfg w)) (path_dirname html) (w_fs w) = inr fs1 ->
  fs_write html Utf8 (value_to_str src) fs1 = inr fs2 ->
  exists d w1, source screenShotPath f w = (Ret d, w1) /\
    ends_in [RunCommand; RunJob; RunIo 0; RunCommand; RunJob; RunIo 0] w1 (fun w' =>
      promise_state w' d =
        Some (Settled (Fulfilled (VSource (source_result (w_cfg w) screenShotPath f)))) /\
      w_fs w' = fs2 /\
      w_heap w' = w_heap w ++ [fs_error_obj code "open" txt] /\
      w_console w' = w_console w ++ [CError (length (w_heap w))]).
Proof.
  unfold source_result, capture_file. intros Hs Hn Hp Ht Hm Hh. wsource Hs.
  destruct Hrest as (Hj & Hf & Hi). wdestruct w. eexists _, _. split; [done |].
  eexists. split; [do 7 rstep; reflexivity |]. unfold promise_state. by wstep.
Qed.

(** C28: a failure of the script is not logged: the rejection goes to the
    promise [then] returned, on which nothing waits; the console is
    unchanged, no [f.txt] is written and the page source is saved as
    usual. *)
Theorem source_script_failure_silent e src fs1 fs2 :
  session_present (w_cfg w) = true ->
  c_reply (w_cfg w) (w_ncmd w) ExecuteInvisiScript = Failed e ->
  c_reply (w_cfg w) (S (w_ncmd w)) GetPageSource = Done src ->
  mkdirp_sync (c_stack (w_cfg w)) (c_cwd (w_cfg w)) (path_dirname html) (w_fs w) = inr fs1 ->
  fs_write html Utf8 (value_to_str src) fs1 = inr fs2 ->
  exists d w1, source screenShotPath f w = (Ret d, w1) /\
    settles_in 5 w1 (fun w' =>
      promise_state w' d =
        Some (Settled (Fulfilled (VSource (source_result (w_cfg w) screenShotPath f)))) /\
      w_console w' = w_console w /\
      w_heap w' = w_heap w ++ [e] /\
      w_fs w' = fs2).
Proof.
  unfold source_result, capture_file. intros Hs Hn Hp Hm Hh. wsource Hs.
  eexists _, _. split; [done |]. destruct Hrest as (Hj & Hf & Hi). wdestruct w.
  wsettle 5. unfold promise_state. by wstep.
Qed.

(** C17: [source] on a page: when the driver evaluates the script on a page
    whose body holds a forest and which defines [fpti], [f.txt] holds the
    JSON of the marked text nodes of the page, in document order, with the
    coordinates of their parents, and [f.html] the page source. *)
Theorem source_records_marked_nodes fuel pg body n c invisiNodes info src fs1 fs2 fs3 :
  session_present (w_cfg w) = true ->
  c_reply (w_cfg w) (w_ncmd w) ExecuteInvisiScript = page_reply fuel pg ->
  pg_body pg = Some body -> pg_dom pg !! body = Some n ->
  is_forest (pg_dom pg) (Some body) (firstChild n) c = true ->
  forest_size c < fuel ->
  coordinates_all fuel (pg_dom pg) (omap (marked_entry (pg_dom pg)) (body :: preorder c))
    = Some (Ret invisiNodes) ->
  pg_fpti pg = Some info ->
  c_reply (w_cfg w) (S (w_ncmd w)) GetPageSource = Done src ->
  mkdirp_sync (c_stack (w_cfg w)) (c_cwd (w_cfg w)) (path_dirname html) (w_fs w) = inr fs1 ->
  fs_write txt Utf8 (json_invisiNodes invisiNodes info) fs1 = inr fs2 ->
  fs_write html Utf8 (value_to_str src) fs2 = inr fs3 ->
  exists d w1, source screenShotPath f w = (Ret d, w1) /\
    settles_in 6 w1 (fun w' =>
      promise_state w' d =
        Some (Settled (Fulfilled (VSource (source_result (w_cfg w) screenShotPath f)))) /\
      w_fs w' = fs3).
Proof.
  unfold source_result, capture_file. intros Hs Hn Hb Hd Hc Hfuel Hco Hi Hp Hm Ht Hh.
  unfold page_reply in Hn. rewrite (script_returns_json _ _ _ _ _ _ _ Hb Hd Hc Hfuel Hco Hi) in Hn.
  change (json_invisiNodes invisiNodes info)
    with (value_to_str (VStr (json_invisiNodes invisiNodes info))) in Ht.
  wsource Hs. eexists _, _. split; [done |]. destruct Hrest as (Hj & Hf & Hi'). wdestruct w.
  wsettle 6. unfold promise_state. by wstep.
Qed.

(** C29: [source] on a page without the global [fpti]: the script ends with an
    exception, so no [f.txt] is written and nothing is printed; the page
    source is saved all the same. *)
Theorem source_page_without_fpti fuel pg src fs1 fs2 :
  session_present (w_cfg w) = true ->
  c_reply (w_cfg w) (w_ncmd w) ExecuteInvisiScript = page_reply fuel pg ->
  pg_fpti pg = None -> page_wf pg -> length (pg_dom pg) <= fuel ->
  c_reply (w_cfg w) (S (w_ncmd w)) GetPageSource = Done src ->
  mkdirp_sync (c_stack (w_cfg w)) (c_cwd (w_cfg w)) (path_dirname html) (w_fs w) = inr fs1 ->
  fs_write html Utf8 (value_to_str src) fs1 = inr fs2 ->
  exists d w1, source screenShotPath f w = (Ret d, w1) /\
    settles_in 5 w1 (fun w' =>
      promise_state w' d =
        Some (Settled (Fulfilled (VSource (source_result (w_cfg w) screenShotPath f)))) /\
      w_console w' = w_console w /\
      w_fs w' = fs2).
Proof.
  unfold source_result, capture_file. intros Hs Hn Hi Hwf Hfuel Hp Hm Hh.
  destruct (script_throws_without_fpti fuel pg Hi Hwf Hfuel) as [err Herr].
  unfold page_reply in Hn. rewrite Herr in Hn.
  wsource Hs. eexists _, _. split; [done |]. destruct Hrest as (Hj & Hf & Hi'). wdestruct w.
  wsettle 5. unfold promise_state. by wstep.
Qed.

End SourceRuns.

Lemma source_captures_witness :
  exists fs3 d w1, source (str "report") (str "page") sample_world = (Ret d, w1) /\
    settles_in 6 w1 (fun w' =>
      promise_state w' d =
        Some (Settled (Fulfilled
                (VSource (source_result sample_config (str "report") (str "page"))))) /\
      w_fs w' = fs3 /\
      w_trace w' = [EvCommand ExecuteInvisiScript; EvCommand GetPageSource]).
Proof.
  eexists.
  eapply (source_captures (str "report") (str "page") sample_world (sample_rest _ _));
    [reflexivity | reflexivity | reflexivity | vm_compute; reflexivity ..].
Defined.

Lemma source_txt_before_directory_witness :
  exists fs2 d w1, source (str "report") (str "page") sample_world = (Ret d, w1) /\
    ends_in [RunCommand; RunJob; RunIo 0; RunCommand; RunJob; RunIo 0] w1 (fun w' =>
      promise_state w' d =
        Some (Settled (Fulfilled
                (VSource (source_result sample_config (str "report") (str "page"))))) /\
      w_fs w' = fs2 /\
      w_heap w' =
        [fs_error_obj ENOENT "open"
           (capture_file (str "/home/u") (str "report") (str "page") ".txt")] /\
      w_console w' = [CError 0]).
Proof.
  eexists.
  eapply (source_txt_before_directory (str "report") (str "page") sample_world
            (sample_rest _ _));
    [reflexivity | reflexivity | reflexivity | vm_compute; reflexivity ..].
Defined.

Lemma source_script_failure_silent_witness :
  exists fs2 d w1,
    source (str "report") (str "page")
      (world_of (sample_cfg GsPromise (VHost (str "{}")) script_failing_reply) sample_fs)
      = (Ret d, w1) /\
    settles_in 5 w1 (fun w' =>
      promise_state w' d =
        Some (Settled (Fulfilled
                (VSource (source_result
                            (sample_cfg GsPromise (VHost (str "{}")) script_failing_reply)
                            (str "report") (str "page"))))) /\
      w_console w' = [] /\ w_heap w' = [sample_failure] /\ w_fs w' = fs2).
Proof.
  eexists.
  eapply (source_script_failure_silent (str "report") (str "page") _ (sample_rest _ _));
    [reflexivity | reflexivity | reflexivity | vm_compute; reflexivity ..].
Defined.

Lemma source_records_marked_nodes_witness :
  exists fs3 d w1,
    source (str "report") (str "page") (page_world 4 sample_page) = (Ret d, w1) /\
    settles_in 6 w1 (fun w' =>
      promise_state w' d =
        Some (Settled (Fulfilled
                (VSource (source_result (w_cfg (page_world 4 sample_page))
                            (str "report") (str "page"))))) /\
      w_fs w' = fs3).
Proof.
  eexists.
  eapply (source_records_marked_nodes (str "report") (str "page") (page_world 4 sample_page)
            (sample_rest _ _) 4 sample_page 0 _ sample_forest);
    [reflexivity | reflexivity | reflexivity | reflexivity | vm_compute; reflexivity
    | simpl; lia | vm_compute; reflexivity | reflexivity | reflexivity
    | vm_compute; reflexivity ..].
Defined.

Lemma source_page_without_fpti_witness :
  exists fs2 d w1,
    source (str "report") (str "page") (page_world 4 (mkPage sample_dom (Some 0) None None))
      = (Ret d, w1) /\
    settles_in 5 w1 (fun w' =>
      promise_state w' d =
        Some (Settled (Fulfilled
                (VSource (source_result
                            (w_cfg (page_world 4 (mkPage sample_dom (Some 0) None None)))
                            (str "report") (str "page"))))) /\
      w_console w' = w_console (page_world 4 (mkPage sample_dom (Some 0) None None)) /\
      w_fs w' = fs2).
Proof.
  eexists.
  eapply (source_page_without_fpti (str "report") (str "page")
            (page_world 4 (mkPage sample_dom (Some 0) None None)) (sample_rest _ _)
            4 (mkPage sample_dom (Some 0) None None));
    [reflexivity | reflexivity | reflexivity
    | split; [apply sample_dom_ordered | intros body [= <-]; simpl; lia]
    | simpl; lia | reflexivity | vm_compute; reflexivity ..].
Defined.
