(* ===== verification/HookRuns.v ===== *)
(** * Runs of the automatic-capture hooks

    What a click on an element and an uncaught exception lead to once the
    hooks of [setup] are installed and the event loop has run: the commands
    the driver receives and their order, the capture written, the promise the
    wrapped [click] returns, and what becomes of the exception the listener
    emits again. *)

From stdpp Require Import gmap.
From S2P Require Import Prelude JsString Values TitleSlug Jenkins StackTrace Path Fs World.
From S2P Require Import Bridge Capture Hooks EventLoop Runs.

(** ** The files of the automatic captures *)

(** The name the click hook gives its capture (line 332), from the process
    id and the time of the click. *)
Definition click_name (c : Config) (now : N) : jsstring :=
  str "ScreenShot_onClick-" ++ str_of_N (c_pid c) ++ str "-" ++ str_of_N now.

(** The name the exception hook gives its capture (lines 351-356): the slug
    of the current test title when there is one. *)
Definition exception_name (c : Config) (now : N) (title : option jsstring) : jsstring :=
  if truthy title then titleSlug title
  else str "ScreenShot_onException-" ++ str_of_N (c_pid c) ++ str "-" ++ str_of_N now.

(** The commands a call has put on the driver's queue: those of [w'] that
    were not in the queue of [w]. *)
Definition issued (w w' : World) : list command :=
  fst <$> drop (length (w_flow w)) (w_flow w').

(** The chain of promises of the listener ends in an exhausted stack: a
    promise of [w'] is rejected with a [RangeError] made after the errors of
    [w]. *)
Definition overflowed (w w' : World) : Prop :=
  exists q, promise_state w' q = Some (Settled (Rejected (length (w_heap w)))) /\
            w_heap w' !! length (w_heap w) = Some range_error_obj.

(** The host of [hooked_world] without a session, with the exception hook
    installed and one error object in the heap. *)
Definition sessionless_world : World :=
  upd_heap (fun _ => [sample_exception])
    (setup (Args4 (str "report") [str "exception"] 7)
       (world_of (sample_cfg GsPromise VNull sample_reply) sample_fs)).2.

Lemma sessionless_rest : quiescent sessionless_world.
Proof. by repeat split. Qed.

Lemma hooked_rest : quiescent hooked_world.
Proof. by repeat split. Qed.

(** Enter the wrapped [click]: the name is made, the option [source] is
    looked up (its value is [Hsrc]), and the plugin object is read. *)
Ltac wclick Hsrc :=
  cbn [element_click]; unfold auto_name, nemo_snap, nemo_source, cfg; st_unfold; wcbn;
  rewrite ?Hsrc; wcbn.

(** Make the capture the hook starts with [snap] ([wshot]) or with [source]
    ([wpage]), whatever the cells of its entry are. *)
Ltac wshot := rewrite snap_run_fields by done; wentry.
Ltac wpage := rewrite source_run_fields by done; wentry.

Section ClickRuns.
Context `{PathOps}.
Context (w : World) (element : N) (screenShotPath : jsstring) (title : option jsstring).
Context (opts : list jsstring).
Context (Hrest : quiescent w).

Local Abbreviation file :=
  (capture_file (c_cwd (w_cfg w)) screenShotPath (click_name (w_cfg w) (w_now w)) ".png").

(** C8: a click on an element, once the click hook is installed, issues the
    screenshot command and then the original click, in this order, without
    waiting for the capture.  The promise the wrapped [click] returns is
    chained on the capture alone: it is fulfilled with the image object
    when the capture is written, whatever the driver answers to the click,
    a failure included. *)
Theorem click_captures_then_clicks img fs1 fs2 :
  w_screenshot w = Some (mkPlugin screenShotPath title) ->
  has_option "source" opts = false ->
  session_present (w_cfg w) = true ->
  c_reply (w_cfg w) (w_ncmd w) TakeScreenshot = Done img ->
  mkdirp_sync (c_stack (w_cfg w)) (c_cwd (w_cfg w)) (path_dirname file) (w_fs w) = inr fs1 ->
  fs_write file Base64 (value_to_str img) fs1 = inr fs2 ->
  exists q w1, element_click (ClickWrapped opts ClickOriginal) element w = (Ret q, w1) /\
    fst <$> w_flow w1 = [TakeScreenshot; Click element] /\
    settles_in 5 w1 (fun w' =>
      promise_state w' q =
        Some (Settled (Fulfilled
                (VImage (snap_image (w_cfg w) screenShotPath
                           (click_name (w_cfg w) (w_now w)))))) /\
      w_fs w' = fs2 /\
      w_trace w' = w_trace w ++ [EvCommand TakeScreenshot; EvCommand (Click element)]).
Proof.
  unfold snap_image, capture_file, click_name. intros Hpl Hsrc Hs Hr Hm Hw.
  destruct Hrest as (Hj & Hf & Hi). wdestruct w. wclick Hsrc. wshot.
  wcall. split; [done |].
  destruct (c_reply (S w_ncmd) (Click element)) eqn:Hrc;
    wsettle 5; unfold promise_state; by do 2 wstep.
Qed.

(** a prototype wrapped twice, as two calls of [setup] with the [click]
    option leave it, captures twice for one click. *)
Theorem click_wrapped_twice :
  w_screenshot w = Some (mkPlugin screenShotPath title) ->
  has_option "source" opts = false ->
  session_present (w_cfg w) = true ->
  exists q w1,
    element_click (ClickWrapped opts (ClickWrapped opts ClickOriginal)) element w
      = (Ret q, w1) /\
    issued w w1 = [TakeScreenshot; TakeScreenshot; Click element].
Proof.
  unfold issued. intros Hpl Hsrc Hs. destruct Hrest as (Hj & Hf & Hi). wdestruct w.
  wclick Hsrc. wshot. wclick Hsrc. wshot. by wcall.
Qed.

(** C18: with the [source] option a click issues four commands, in this
    order: the script, the page source, the screenshot, and the original
    click; none waits for another. *)
Theorem click_with_source_order :
  w_screenshot w = Some (mkPlugin screenShotPath title) ->
  has_option "source" opts = true ->
  session_present (w_cfg w) = true ->
  exists q w1, element_click (ClickWrapped opts ClickOriginal) element w = (Ret q, w1) /\
    issued w w1 = [ExecuteInvisiScript; GetPageSource; TakeScreenshot; Click element].
Proof.
  unfold issued. intros Hpl Hsrc Hs. destruct Hrest as (Hj & Hf & Hi). wdestruct w.
  wclick Hsrc. wpage. wclick Hsrc. wshot. by wcall.
Qed.

End ClickRuns.

Lemma click_captures_then_clicks_witness :
  exists fs2 q w1,
    element_click (ClickWrapped [str "click"] ClickOriginal) 5 hooked_world = (Ret q, w1) /\
    fst <$> w_flow w1 = [TakeScreenshot; Click 5] /\
    settles_in 5 w1 (fun w' =>
      promise_state w' q =
        Some (Settled (Fulfilled
                (VImage (snap_image sample_config (str "report")
                           (click_name sample_config 1000))))) /\
      w_fs w' = fs2 /\
      w_trace w' = [EvCallback 7 None] ++ [EvCommand TakeScreenshot; EvCommand (Click 5)]).
Proof.
  eexists.
  eapply (click_captures_then_clicks hooked_world 5 (str "report")
            (Some (str "My Test: Case #1")) [str "click"] hooked_rest);
    [reflexivity | reflexivity | reflexivity | reflexivity | vm_compute; reflexivity ..].
Defined.

Lemma click_wrapped_twice_witness :
  exists q w1,
    element_click (ClickWrapped [str "click"] (ClickWrapped [str "click"] ClickOriginal)) 5
      hooked_world = (Ret q, w1) /\
    issued hooked_world w1 = [TakeScreenshot; TakeScreenshot; Click 5].
Proof.
  apply (click_wrapped_twice hooked_world 5 (str "report") (Some (str "My Test: Case #1"))
           [str "click"] hooked_rest); reflexivity.
Defined.

Section ExceptionRuns.
Context `{PathOps}.
Context (w : World) (screenShotPath : jsstring) (title : option jsstring).
Context (opts : list jsstring) (exception : eref) (e : errObj).
Context (Hrest : quiescent w).

Local Abbreviation file :=
  (capture_file (c_cwd (w_cfg w)) screenShotPath (exception_name (w_cfg w) (w_now w) title)
     ".png").

(** C7: an uncaught exception, with the exception hook as the only listener
    and a session: the listener marks the exception, a screenshot is taken
    and written to the file named by the slug of the current test title (or
    by the process id and the time when no title is set), and the location
    of the image is appended to the stack of the exception.  The emission
    that follows does not return: it ends in a [RangeError], which is what
    the last promise of the chain is rejected with. *)
Theorem exception_captures img fs1 fs2 depth :
  w_screenshot w = Some (mkPlugin screenShotPath title) ->
  w_listeners w = [LPlugin opts] ->
  has_option "source" opts = false ->
  c_gs (w_cfg w) = GsPromise -> value_truthy (c_session (w_cfg w)) = true ->
  c_stack (w_cfg w) = S depth ->
  w_heap w !! exception = Some e -> e_handled e = false ->
  c_reply (w_cfg w) (w_ncmd w) TakeScreenshot = Done img ->
  mkdirp_sync (c_stack (w_cfg w)) (c_cwd (w_cfg w)) (path_dirname file) (w_fs w) = inr fs1 ->
  fs_write file Base64 (value_to_str img) fs1 = inr fs2 ->
  exists w1, step (Uncaught exception) w = Some w1 /\
    settles_in 6 w1 (fun w' =>
      w_fs w' = fs2 /\
      w_heap w' =
        <[exception :=
            append_stack
              (stack_output
                 (VImage (snap_image (w_cfg w) screenShotPath
                            (exception_name (w_cfg w) (w_now w) title))))
              (set_handled true e)]> (w_heap w) ++ [range_error_obj] /\
      w_trace w' = w_trace w ++ [EvCommand TakeScreenshot] /\
      exists q, promise_state w' q = Some (Settled (Rejected (length (w_heap w))))).
Proof.
  unfold snap_image, capture_file, exception_name.
  intros Hpl Hl Hsrc Hgs Hs Hst He Hh Hr Hm Hw.
  destruct Hrest as (Hj & Hf & Hi). wdestruct w.
  eexists. split; [unfold step; cbn [w_jobs]; hstep; reflexivity |].
  destruct (truthy title) eqn:Ht.
  all: apply (settles_in_at 6); lstep; hstep; do 5 lstep;
    erewrite (emit_handled_run _ _ _ _ [] []);
      [| by wcbn; rewrite !list_lookup_alter_eq, He | by wcbn ..];
    repeat (wstep; wrewrite); lsteps 0; (split; [done |]); cbn beta; wstep;
    rewrite list_alter_alter_eq, (list_alter_lookup _ _ _ _ He), overflow_events_nil.
  all: repeat split; try done.
  all: exists (length w_proms + (3 + (length E + 2))); unfold promise_state; by do 2 wstep.
Qed.

(** C26: an uncaught exception when there is no session: the [throw] of line
    367 happens inside the callback of [then], so the exception is not
    thrown to anybody; the [catch] of line 369 receives it and emits the
    marked exception again, which ends in a [RangeError].  No capture is
    made and nothing is printed. *)
Theorem exception_without_session depth :
  w_listeners w = [LPlugin opts] ->
  c_gs (w_cfg w) = GsPromise -> value_truthy (c_session (w_cfg w)) = false ->
  c_stack (w_cfg w) = S depth ->
  w_heap w !! exception = Some e -> e_handled e = false ->
  exists w1, step (Uncaught exception) w = Some w1 /\
    settles_in 2 w1 (fun w' =>
      w_heap w' = <[exception := set_handled true e]> (w_heap w) ++ [range_error_obj] /\
      w_trace w' = w_trace w /\ w_fs w' = w_fs w /\ w_console w' = w_console w /\
      overflowed w w').
Proof.
  intros Hl Hgs Hs Hst He Hh. destruct Hrest as (Hj & Hf & Hi). wdestruct w.
  eexists. split; [unfold step; cbn [w_jobs]; hstep; reflexivity |].
  eapply (settles_in_intro 2);
    [ lstep; hstep; lstep;
      erewrite (emit_handled_run _ _ _ _ [] []);
        [| by wcbn; rewrite !list_lookup_alter_eq, He | by wcbn ..];
      repeat (wstep; wrewrite); lsteps 0; reflexivity
    | done
    | cbn beta; wstep;
      rewrite ?list_alter_alter_eq, (list_alter_lookup _ _ _ _ He), overflow_events_nil ].
  repeat split; try done; [by rewrite app_nil_r |].
  exists (length w_proms + 2). split; [unfold promise_state; by wstep |].
  wcbn. by rewrite lookup_app_r, length_insert, Nat.sub_diag by (by rewrite length_insert).
Qed.

End ExceptionRuns.

Lemma exception_captures_witness :
  exists fs2 w1, step (Uncaught 0) hooked_world = Some w1 /\
    settles_in 6 w1 (fun w' =>
      w_fs w' = fs2 /\
      w_heap w' =
        <[0 := append_stack
                 (stack_output
                    (VImage (snap_image sample_config (str "report")
                               (exception_name sample_config 1000
                                  (Some (str "My Test: Case #1"))))))
                 (set_handled true sample_exception)]> [sample_exception]
        ++ [range_error_obj] /\
      w_trace w' = [EvCallback 7 None] ++ [EvCommand TakeScreenshot] /\
      exists q, promise_state w' q = Some (Settled (Rejected 1))).
Proof.
  eexists.
  eapply (exception_captures hooked_world (str "report") (Some (str "My Test: Case #1"))
            [str "click"; str "exception"] 0 sample_exception hooked_rest _ _ _ 63);
    [reflexivity | reflexivity | reflexivity | reflexivity | reflexivity | reflexivity
    | reflexivity | reflexivity | reflexivity | vm_compute; reflexivity ..].
Defined.

Lemma click_with_source_order_witness :
  exists q w1,
    element_click (ClickWrapped [str "click"; str "source"] ClickOriginal) 5
      (upd_click (fun _ => ClickWrapped [str "click"; str "source"] ClickOriginal) hooked_world)
      = (Ret q, w1) /\
    issued hooked_world w1 = [ExecuteInvisiScript; GetPageSource; TakeScreenshot; Click 5].
Proof.
  eapply (click_with_source_order
            (upd_click (fun _ => ClickWrapped [str "click"; str "source"] ClickOriginal)
               hooked_world)
            5 (str "report") (Some (str "My Test: Case #1")) [str "click"; str "source"]);
    [by repeat split | reflexivity | vm_compute; reflexivity | reflexivity].
Defined.

Lemma exception_without_session_witness :
  exists w1, step (Uncaught 0) sessionless_world = Some w1 /\
    settles_in 2 w1 (fun w' =>
      w_heap w' =
        <[0 := set_handled true sample_exception]> (w_heap sessionless_world)
        ++ [range_error_obj] /\
      w_trace w' = w_trace sessionless_world /\ w_fs w' = w_fs sessionless_world /\
      w_console w' = w_console sessionless_world /\
      overflowed sessionless_world w').
Proof.
  eapply (exception_without_session sessionless_world [str "exception"] 0 sample_exception
            sessionless_rest 63);
    reflexivity.
Defined.
